(** * SimpleRenderEngine: the debug inspector

    A shallow embedding of [src/sre/Inspector.cpp]: the statistics ring
    buffer, the scratch-texture pool, the mesh and shader previews, the
    panels of [Inspector::gui] and the shader editor.

    Conventions of the embedding:
    - a C++ [int] is a [Z] in the range of 32 bits; an operation whose
      mathematical result leaves that range is undefined behaviour in C++
      and yields [Fail UndefinedBehaviour] here, as does indexing a
      [std::vector] out of range;
    - a C++ [float] is an IEEE 754 binary32 number, given by the Standard
      Library's [spec_float] operations at precision 24 and [emax] 128;
    - the immediate-mode UI is an external collaborator: what it answers
      (open headers, pressed buttons, the combo selection) is read from a
      record of answers for the frame, and every call the inspector makes
      is appended to a log of commands. *)

From Stdlib Require Import ZArith Lia Bool List String Ascii.
From Stdlib Require Import DecimalString DecimalPos DecimalN DecimalZ.
From Stdlib Require Import Floats.SpecFloat.
From stdpp Require Import base option list.

Open Scope Z_scope.

(** ** Results of fallible code *)

Inductive Error : Type :=
| UndefinedBehaviour   (* signed overflow, division by zero, index out of range *)
| LengthError          (* std::vector::resize with a size above max_size *)
| ShapeMismatch.       (* RenderPass::draw: materials do not fit the mesh *)

Inductive result (A : Type) : Type :=
| Ok (a : A)
| Fail (e : Error).
Arguments Ok {A} a.
Arguments Fail {A} e.

Definition rbind {A B : Type} (r : result A) (k : A -> result B) : result B :=
  match r with
  | Ok a => k a
  | Fail e => Fail e
  end.

Notation "'let*' x ':=' r 'in' k" := (rbind r (fun x => k))
  (at level 10, x pattern, r at level 100, k at level 200).

(** A monadic left fold: the body of a [for] loop run over its indices. *)
Fixpoint foldR {A S : Type} (body : A -> S -> result S) (l : list A) (s : S)
  : result S :=
  match l with
  | [] => Ok s
  | a :: l' => let* s' := body a s in foldR body l' s'
  end.

(** ** The C++ type [int] *)

Module CInt.

Definition INT_MAX : Z := 2147483647.
Definition INT_MIN : Z := -2147483648.

Definition in_range (z : Z) : bool := (INT_MIN <=? z) && (z <=? INT_MAX).

Definition check (z : Z) : result Z :=
  if in_range z then Ok z else Fail UndefinedBehaviour.

(** [a + b], [-a]: undefined on overflow. *)
Definition add (a b : Z) : result Z := check (a + b).
Definition neg (a : Z) : result Z := check (- a).

(** [a % b] truncates towards zero; undefined for [b = 0] and for
    [INT_MIN % -1]. *)
Definition rem (a b : Z) : result Z :=
  if (b =? 0) || ((a =? INT_MIN) && (b =? -1)) then Fail UndefinedBehaviour
  else Ok (Z.rem a b).

(** [std::min(a, b)] is [(b < a) ? b : a], [std::max(a, b)] is
    [(a < b) ? b : a]. *)
Definition min (a b : Z) : Z := if b <? a then b else a.
Definition max (a b : Z) : Z := if a <? b then b else a.

(** The conversion of an [int] to [size_t] (64 bits), as in the comparison
    of an [int] with [vector::size()]. *)
Definition to_size_t (a : Z) : Z := a mod 2 ^ 64.

(** [std::to_string(int)]. *)
Definition to_string (a : Z) : string := NilZero.string_of_int (Z.to_int a).

End CInt.

(** ** [std::vector] *)

Section Vector.
Context {A : Type}.

(** [v[i]] for an [int] index: the index is converted to [size_t], so a
    negative one is out of range like one past the end. *)
Definition vget (v : list A) (i : Z) : result A :=
  if 0 <=? i then
    match v !! Z.to_nat i with
    | Some a => Ok a
    | None => Fail UndefinedBehaviour
    end
  else Fail UndefinedBehaviour.

(** [v[i] = x]. *)
Definition vset (v : list A) (i : Z) (x : A) : result (list A) :=
  if (0 <=? i) && (i <? Z.of_nat (length v))
  then Ok (<[Z.to_nat i := x]> v)
  else Fail UndefinedBehaviour.

(** [v.resize(n)] on an empty vector, [n] an [int] converted to [size_t]:
    [n] value-initialised elements, or [std::length_error] for a negative
    [n], which converts to a size above [max_size()]. *)
Definition vresize_empty (zero : A) (n : Z) : result (list A) :=
  if n <? 0 then Fail LengthError else Ok (replicate (Z.to_nat n) zero).

End Vector.

(** ** The C++ type [float]: IEEE 754 binary32 *)

Module F32.

Definition float32 : Type := spec_float.

Definition prec : Z := 24.
Definition emax : Z := 128.

Definition add : float32 -> float32 -> float32 := SFadd prec emax.
Definition sub : float32 -> float32 -> float32 := SFsub prec emax.
Definition mul : float32 -> float32 -> float32 := SFmul prec emax.
Definition div : float32 -> float32 -> float32 := SFdiv prec emax.
Definition opp : float32 -> float32 := SFopp.
Definition ltb : float32 -> float32 -> bool := SFltb.

(** The conversion of an integer, rounding to nearest even. *)
Definition of_int (z : Z) : float32 := binary_normalize prec emax z 0 false.

(** A decimal literal [n/d] with [n] and [d] exact in binary32, such as
    [1.2f] or [0.001f]: the nearest binary32 number. *)
Definition literal (n d : Z) : float32 := div (of_int n) (of_int d).

Definition zero : float32 := S754_zero false.
Definition one : float32 := of_int 1.
Definition two : float32 := of_int 2.
Definition half : float32 := literal 1 2.

(** [std::max(a, b)] is [(a < b) ? b : a]. *)
Definition max (a b : float32) : float32 := if ltb a b then b else a.

(** [std::max({a, b, c})]: the first largest element. *)
Definition max3 (a b c : float32) : float32 := max (max a b) c.

End F32.
Export F32(float32).

(** ** The data model *)

Record Vec2 : Type := mkVec2 { v2x : float32; v2y : float32 }.
Record IVec2 : Type := mkIVec2 { iv2x : Z; iv2y : Z }.
Record Vec3 : Type := mkVec3 { v3x : float32; v3y : float32; v3z : float32 }.

(** [glm]: the componentwise operations [showMesh] uses. *)
Definition vec3_add (a b : Vec3) : Vec3 :=
  mkVec3 (F32.add (v3x a) (v3x b)) (F32.add (v3y a) (v3y b))
         (F32.add (v3z a) (v3z b)).
Definition vec3_sub (a b : Vec3) : Vec3 :=
  mkVec3 (F32.sub (v3x a) (v3x b)) (F32.sub (v3y a) (v3y b))
         (F32.sub (v3z a) (v3z b)).
Definition vec3_scale (a : Vec3) (k : float32) : Vec3 :=
  mkVec3 (F32.mul (v3x a) k) (F32.mul (v3y a) k) (F32.mul (v3z a) k).
Definition vec3_neg (a : Vec3) : Vec3 :=
  mkVec3 (F32.opp (v3x a)) (F32.opp (v3y a)) (F32.opp (v3z a)).

(** What the texture builder and the graphics API decide for a texture and
    this file only reads back. *)
Record TextureAttrs : Type := mkTextureAttrs {
  tex_addr : Z;                 (* the address of the object *)
  textureId : Z;                (* the native handle *)
  tex_cubemap : bool;
  tex_filterSampling : bool;
  tex_mipmapped : bool;
  tex_wrapTextureCoordinates : bool;
  tex_dataSize : Z
}.

Record Texture : Type := mkTexture {
  tex_name : string;
  tex_width : Z;
  tex_height : Z;
  tex_attrs : TextureAttrs
}.

(** The Frame Stats record of [Renderer::getRenderStats()]; the fields the
    inspector reads, all [int]. *)
Record RenderStats : Type := mkRenderStats {
  drawCalls : Z;
  stateChangesShader : Z;
  stateChangesMaterial : Z;
  stateChangesMesh : Z;
  meshBytes : Z;
  textureBytes : Z
}.

(** A value-initialised [RenderStats], as [stats.resize(frames)] makes. *)
Definition RenderStats_zero : RenderStats := mkRenderStats 0 0 0 0 0 0.

Record Mesh : Type := mkMesh {
  mesh_addr : Z;
  mesh_name : string;
  mesh_vertexCount : Z;
  mesh_dataSize : Z;
  mesh_attributes : list (string * (Z * Z));   (* name, (GL type, size) *)
  mesh_indicesSize : list Z;                   (* one entry per index set *)
  mesh_normals : Z;                            (* getNormals().size() *)
  mesh_boundsMin : Vec3;
  mesh_boundsMax : Vec3
}.

Definition getIndexSets (m : Mesh) : Z := Z.of_nat (length (mesh_indicesSize m)).

Inductive BlendType : Type := Disabled | AlphaBlending | AdditiveBlending.

Inductive UniformType : Type :=
| UInt | UFloat | UMat3 | UMat4 | UVec3 | UVec4 | UTexture | UTextureCube
| UInvalid.

Inductive ShaderType : Type :=
| Vertex | Fragment | Geometry | TessellationControl | TessellationEvaluation
| NumberOfShaderTypes.

(** A shader as the inspector sees it.  [sh_uid] identifies the object a
    [shared_ptr] control block stands for, [sh_addr] is its address: a
    [weak_ptr] follows the first, a raw [Shader*] holds the second. *)
Record Shader : Type := mkShader {
  sh_uid : Z;
  sh_addr : Z;
  sh_name : string;
  sh_attributes : list (string * (Z * Z));
  sh_uniforms : list (string * (UniformType * Z));
  sh_blend : BlendType;
  sh_depthTest : bool;
  sh_depthWrite : bool;
  sh_offset : Vec2;
  shaderSources : list (ShaderType * string)   (* std::map, in key order *)
}.

Record Sprite : Type := mkSprite {
  spriteAnchor : Vec2;
  spriteSize : IVec2;
  spritePos : IVec2;
  sprite_texture : Texture
}.

Record SpriteAtlas : Type := mkSpriteAtlas {
  atlas_addr : Z;
  atlasName : string;
  atlas_sprites : list (string * Sprite)       (* getNames() and get(name) *)
}.

Record Framebuffer : Type := mkFramebuffer {
  fbo_name : string;
  fbo_texture : option Texture
}.

Record SDLRenderer : Type := mkSDLRenderer {
  isFullscreen : bool;
  isMouseCursorLocked : bool;
  isMouseCursorVisible : bool
}.

Record Version : Type := mkVersion { major : Z; minor : Z; patch : Z }.

(** [Renderer::instance]: the registries and what the "Renderer" panel
    prints.  A registry lists the live objects of its kind. *)
Record Renderer : Type := mkRenderer {
  sre_version : Version;
  windowSize : IVec2;
  drawableSize : IVec2;
  usesVSync : bool;
  renderStats : RenderStats;
  shaders : list Shader;
  textures : list Texture;
  meshes : list Mesh;
  spriteAtlases : list SpriteAtlas;
  framebufferObjects : list (Z * Framebuffer)   (* address and object *)
}.

(** ** The render pass the previews build *)

Record Camera : Type := mkCamera {
  cam_fieldOfView : float32;
  cam_near : float32;
  cam_far : float32;
  cam_eye : Vec3;
  cam_at : Vec3;
  cam_up : Vec3
}.

Definition vec3_of_ints (x y z : Z) : Vec3 :=
  mkVec3 (F32.of_int x) (F32.of_int y) (F32.of_int z).

(** [camera.setPerspectiveProjection(60,0.1,10); camera.lookAt({0,0,4},{0,0,0},{0,1,0})]. *)
Definition preview_camera : Camera :=
  mkCamera (F32.of_int 60) (F32.literal 1 10) (F32.of_int 10)
           (vec3_of_ints 0 0 4) (vec3_of_ints 0 0 0) (vec3_of_ints 0 1 0).

Record WorldLights : Type := mkWorldLights {
  ambientLight : option Vec3;
  pointLights : list Vec3
}.

Definition WorldLights_empty : WorldLights := mkWorldLights None [].

(** The material of a draw: which shader it was created from. *)
Inductive Material : Type :=
| StandardMaterial                 (* Shader::getStandard()->createMaterial() *)
| UnlitMaterial                    (* Shader::getUnlit()->createMaterial() *)
| ShaderMaterial (shader_uid : Z). (* shader->createMaterial() *)

(** A model matrix, kept as the product the source writes, left to right. *)
Inductive Matrix : Type :=
| EulerAngleY (angle : float32)
| Scale (v : Vec3)
| Translate (v : Vec3).

Inductive PreviewMesh : Type :=
| SphereMesh                       (* the static "Preview Shader Mesh" *)
| RegistryMesh (m : Mesh).

Record RenderPass : Type := mkRenderPass {
  rp_camera : Camera;
  rp_worldLights : WorldLights;
  rp_framebuffer : Framebuffer;
  rp_clearColor : bool * (Z * Z * Z * Z);
  rp_gui : bool
}.

(** ** The immediate-mode UI collaborator *)

Inductive Arg : Type :=
| AInt (z : Z)
| AFloat (f : float32)
| AStr (s : string).

(** A [printf]-style text: the format and its arguments. *)
Record Text : Type := Fmt { fmt : string; fmt_args : list Arg }.

Definition plain (s : string) : Text := Fmt s [].
Definition bool_text (b : bool) : Text :=
  Fmt "%s" [AStr (if b then "true" else "false")].

Inductive Palette : Type := DarkPalette | LightPalette.

(** The state of the [TextEditor] widget the shader editor keeps. *)
Record TextEditor : Type := mkTextEditor {
  te_text : string;
  te_readOnly : bool;
  te_palette : Palette;
  te_glsl : bool
}.

Definition TextEditor_new : TextEditor :=
  mkTextEditor EmptyString false DarkPalette false.

(** The calls the inspector makes, in the order it makes them. *)
Inductive UICmd : Type :=
| CBegin (title : string)
| CEnd
| CCollapsingHeader (label : string)
| CTreeNode (label : string)
| CTreePop
| CLabelText (label : string) (text : Text)
| CButton (label : string)
| CImage (tex : Texture) (width height : float32) (uv0 uv1 : Vec2)
| CPlotLines (label : Text) (values : list float32) (count : Z)
             (overlay : string) (scale_min scale_max : float32)
| CCombo (label : string) (current : Z) (items : list string)
| CCheckbox (label : string) (value : bool)
| CSameLine
| CPushID (addr : Z)
| CPopID
| CPushItemWidth (w : Z)
| CEditorRender (title : string) (editor : TextEditor)
| CDraw (pass : RenderPass) (mesh : PreviewMesh) (model : list Matrix)
        (materials : list Material)
| CShaderBuild (shader_uid : Z) (sources : list (string * ShaderType))
| CLogError (msg : string).

(** What the collaborators answer during one frame.  A widget is found by
    its label and the labels of the tree nodes around it, innermost first. *)
Record Env : Type := mkEnv {
  (* the UI *)
  ui_header : string -> bool;                 (* CollapsingHeader is open *)
  ui_tree : list string -> bool;              (* TreeNode is open *)
  ui_button : list string -> bool;            (* Button was pressed *)
  ui_combo : list string -> Z -> list string -> bool * Z;
  ui_checkbox : string -> bool -> bool * bool;
  ui_window_open : string -> bool;            (* Begin leaves *p_open true *)
  ui_editor_text : TextEditor -> string;      (* the text after Render *)
  (* the engine and the platform *)
  env_getSource : string -> string;           (* Shader::getSource *)
  env_precompile : string -> string;          (* Shader::precompile *)
  env_texture_attrs : string -> TextureAttrs; (* of a texture just built *)
  env_gl_version : string;
  env_gl_vendor : string;
  env_sdl_compiled : Version;
  env_sdl_linked : Version;
  env_img_compiled : Version;
  env_img_linked : Version;
  env_imgui_version : string
}.

(** ** The inspector *)

(** The members of [class Inspector].  [shaderEdit] is the
    [std::weak_ptr<Shader>] of the edit view: the object it follows, if any. *)
Record Inspector : Type := mkInspector {
  frames : Z;
  frameCount : Z;
  sdlRenderer : option SDLRenderer;
  stats : list RenderStats;
  milliseconds : list float32;
  data : list float32;
  lastTick : Z;                        (* a Clock::time_point, in nanoseconds *)
  time : float32;
  usedTextures : Z;
  offscreenTextures : list Texture;
  framebuffer : option Framebuffer;
  worldLights : WorldLights;
  shaderEdit : option Z;
  previewSize : float32
}.

Definition set_ring (fc : Z) (st : list RenderStats) (ms : list float32)
    (s : Inspector) : Inspector :=
  mkInspector (frames s) fc (sdlRenderer s) st ms (data s) (lastTick s)
    (time s) (usedTextures s) (offscreenTextures s) (framebuffer s)
    (worldLights s) (shaderEdit s) (previewSize s).

Definition set_data (d : list float32) (s : Inspector) : Inspector :=
  mkInspector (frames s) (frameCount s) (sdlRenderer s) (stats s)
    (milliseconds s) d (lastTick s) (time s) (usedTextures s)
    (offscreenTextures s) (framebuffer s) (worldLights s) (shaderEdit s)
    (previewSize s).

Definition set_clock (tick : Z) (t : float32) (s : Inspector) : Inspector :=
  mkInspector (frames s) (frameCount s) (sdlRenderer s) (stats s)
    (milliseconds s) (data s) tick t (usedTextures s) (offscreenTextures s)
    (framebuffer s) (worldLights s) (shaderEdit s) (previewSize s).

Definition set_usedTextures (u : Z) (s : Inspector) : Inspector :=
  mkInspector (frames s) (frameCount s) (sdlRenderer s) (stats s)
    (milliseconds s) (data s) (lastTick s) (time s) u (offscreenTextures s)
    (framebuffer s) (worldLights s) (shaderEdit s) (previewSize s).

Definition set_offscreenTextures (l : list Texture) (s : Inspector)
  : Inspector :=
  mkInspector (frames s) (frameCount s) (sdlRenderer s) (stats s)
    (milliseconds s) (data s) (lastTick s) (time s) (usedTextures s) l
    (framebuffer s) (worldLights s) (shaderEdit s) (previewSize s).

Definition set_framebuffer (f : option Framebuffer) (w : WorldLights)
    (s : Inspector) : Inspector :=
  mkInspector (frames s) (frameCount s) (sdlRenderer s) (stats s)
    (milliseconds s) (data s) (lastTick s) (time s) (usedTextures s)
    (offscreenTextures s) f w (shaderEdit s) (previewSize s).

Definition set_shaderEdit (e : option Z) (s : Inspector) : Inspector :=
  mkInspector (frames s) (frameCount s) (sdlRenderer s) (stats s)
    (milliseconds s) (data s) (lastTick s) (time s) (usedTextures s)
    (offscreenTextures s) (framebuffer s) (worldLights s) e (previewSize s).

(** [Inspector::Inspector(int frames, SDLRenderer* sdlRenderer)].  The
    members the constructor does not set ([time], [previewSize]) and the
    first clock reading are arguments here. *)
Definition Inspector_new (frames_ : Z) (sdl : option SDLRenderer)
    (now : Z) (time0 previewSize_ : float32) : result Inspector :=
  let* st := vresize_empty RenderStats_zero frames_ in
  let* ms := vresize_empty F32.zero frames_ in
  let* d := vresize_empty F32.zero frames_ in
  Ok (mkInspector frames_ 0 sdl st ms d now time0 0 [] None WorldLights_empty
                  None previewSize_).

(** [std::chrono::duration_cast<Milliseconds>(tick - lastTick).count()]:
    the nanoseconds between two readings, as a [float] count of
    milliseconds. *)
Definition duration_ms (tick last : Z) : float32 :=
  F32.div (F32.of_int (tick - last)) (F32.of_int 1000000).

(** [Inspector::update()], given what [Clock::now()] and
    [Renderer::instance->getRenderStats()] return. *)
Definition update (rs : RenderStats) (tick : Z) (s : Inspector)
  : result Inspector :=
  let s := set_usedTextures 0 s in
  let deltaTime := duration_ms tick (lastTick s) in
  let s := set_clock tick (F32.add (time s) deltaTime) s in
  let* slot := CInt.rem (frameCount s) (frames s) in
  let* stats' := vset (stats s) slot rs in
  let* slot' := CInt.rem (frameCount s) (frames s) in
  let* milliseconds' := vset (milliseconds s) slot' deltaTime in
  let* frameCount' := CInt.add (frameCount s) 1 in
  Ok (set_ring frameCount' stats' milliseconds' s).

(** One frame's inputs to [update], and [update] once per frame. *)
Definition Frame : Type := (RenderStats * Z)%type.

Definition updates (fs : list Frame) (s : Inspector) : result Inspector :=
  foldR (fun f s => update (fst f) (snd f) s) fs s.

(** *** The statistics plots of [Inspector::gui] *)

(** [(frameCount + i) % frames]: the slot read for display position [i]. *)
Definition read_slot (s : Inspector) (i : Z) : result Z :=
  let* fi := CInt.add (frameCount s) i in
  CInt.rem fi (frames s).

(** [(-frameCount%frames + idx + frames) % frames]: where in [data] the value
    of slot [idx] goes. *)
Definition display_index (s : Inspector) (idx : Z) : result Z :=
  let* nfc := CInt.neg (frameCount s) in
  let* r := CInt.rem nfc (frames s) in
  let* a := CInt.add r idx in
  let* b := CInt.add a (frames s) in
  CInt.rem b (frames s).

(** The loop of one plot.  [sample idx] is the [float t] the loop reads at
    slot [idx]; the result is [data], [max] and [sum] after the loop. *)
Definition plot_loop (sample : Z -> result float32) (s : Inspector)
  : result (list float32 * float32 * float32) :=
  foldR (fun i acc =>
           let '(d, mx, sum) := acc in
           let* idx := read_slot s i in
           let* t := sample idx in
           let* pos := display_index s idx in
           let* d' := vset d pos t in
           Ok (d', F32.max mx t, F32.add sum t))
        (seqZ 0 (frames s)) (data s, F32.zero, F32.zero).

(** [float avg = 0; if (frameCount > 0) avg = sum / std::min(frameCount, frames);] *)
Definition running_avg (s : Inspector) (sum : float32) : float32 :=
  if 0 <? frameCount s
  then F32.div sum (F32.of_int (CInt.min (frameCount s) (frames s)))
  else F32.zero.

(** The five series: what [t] is at slot [idx]. *)
Definition sample_milliseconds (s : Inspector) (idx : Z) : result float32 :=
  vget (milliseconds s) idx.

Definition sample_drawCalls (s : Inspector) (idx : Z) : result float32 :=
  let* st := vget (stats s) idx in
  Ok (F32.of_int (drawCalls st)).

Definition sample_stateChanges (s : Inspector) (idx : Z) : result float32 :=
  let* st := vget (stats s) idx in
  let* a := CInt.add (stateChangesShader st) (stateChangesMaterial st) in
  let* b := CInt.add a (stateChangesMesh st) in
  Ok (F32.of_int b).

Definition sample_meshMB (s : Inspector) (idx : Z) : result float32 :=
  let* st := vget (stats s) idx in
  Ok (F32.div (F32.of_int (meshBytes st)) (F32.of_int 1000000)).

Definition sample_textureMB (s : Inspector) (idx : Z) : result float32 :=
  let* st := vget (stats s) idx in
  Ok (F32.div (F32.of_int (textureBytes st)) (F32.of_int 1000000)).

(** One plot: the loop, the average, the [sprintf] of the label and
    [ImGui::PlotLines(res, data.data(), frames, 0, overlay, -1, max*1.2f, ...)].
    [label avg max] is the formatted text. *)
Definition plot (sample : Z -> result float32)
    (label : float32 -> float32 -> Text) (overlay : string) (s : Inspector)
  : result (UICmd * Inspector) :=
  let* (d, mx, sum) := plot_loop sample s in
  let s' := set_data d s in
  let avg := running_avg s' sum in
  Ok (CPlotLines (label avg mx) (take (Z.to_nat (frames s')) d) (frames s')
                 overlay (F32.of_int (-1)) (F32.mul mx (F32.literal 12 10)),
      s').

(** *** The pool of scratch textures *)

(** [std::to_string] of a [size_t]. *)
Definition size_to_string (n : nat) : string :=
  NilZero.string_of_uint (N.to_uint (N.of_nat n)).

(** [Texture::create().withRGBData(nullptr, 256,256).withName(name).build()]. *)
Definition build_scratch_texture (env : Env) (name : string) : Texture :=
  mkTexture name 256 256 (env_texture_attrs env name).

(** [Inspector::getTmpTexture()]. *)
Definition getTmpTexture (env : Env) (s : Inspector)
  : result (Texture * Inspector) :=
  if CInt.to_size_t (usedTextures s) <? Z.of_nat (length (offscreenTextures s))
  then
    let index := usedTextures s in
    let* u := CInt.add (usedTextures s) 1 in
    let* t := vget (offscreenTextures s) index in
    Ok (t, set_usedTextures u s)
  else
    let offscreenTex :=
      build_scratch_texture env
        ("SRE Inspector Tex #" ++ size_to_string (length (offscreenTextures s))) in
    let s := set_offscreenTextures (offscreenTextures s ++ [offscreenTex]) s in
    let* u := CInt.add (usedTextures s) 1 in
    Ok (offscreenTex, set_usedTextures u s).

(** [m] preview requests in a row: the textures handed out, in order. *)
Fixpoint requests (env : Env) (m : nat) (s : Inspector)
  : result (list Texture * Inspector) :=
  match m with
  | O => Ok ([], s)
  | S m' =>
      let* (t, s1) := getTmpTexture env s in
      let* (ts, s2) := requests env m' s1 in
      Ok (t :: ts, s2)
  end.

(** [Inspector::initFramebuffer()]. *)
Definition initFramebuffer (env : Env) (s : Inspector) : result Inspector :=
  match framebuffer s with
  | None =>
      let* (t, s) := getTmpTexture env s in
      let fb := mkFramebuffer "SRE Inspector Framebufferobject" (Some t) in
      let s := set_usedTextures 0 s in
      let light := vec3_of_ints 0 0 4 in
      Ok (set_framebuffer (Some fb)
            (mkWorldLights
               (Some (mkVec3 (F32.literal 2 10) (F32.literal 2 10) (F32.literal 2 10)))
               (pointLights (worldLights s) ++ [light]))
            s)
  | Some _ => Ok s
  end.

(** ** The state the UI code threads through *)

(** The function-local statics of [Inspector::editShader]. *)
Record EditStatics : Type := mkEditStatics {
  shaderRef : option Z;              (* Shader*: nullptr or an address *)
  shaderCode : list string;
  textEditor : TextEditor;
  selectedShader : Z;
  showPrecompiled : bool
}.

Definition EditStatics_init : EditStatics :=
  mkEditStatics None [] TextEditor_new 0 false.

Record World : Type := mkWorld {
  insp : Inspector;
  edit : EditStatics;
  spriteAtlasSelection : list (Z * Z);   (* the static map of showSpriteAtlas *)
  log : list UICmd
}.

Definition World_init (s : Inspector) : World :=
  mkWorld s EditStatics_init [] [].

Definition M (A : Type) : Type := World -> result (A * World).

Definition ret {A : Type} (a : A) : M A := fun w => Ok (a, w).

Definition bind {A B : Type} (m : M A) (k : A -> M B) : M B :=
  fun w => match m w with
           | Ok (a, w') => k a w'
           | Fail e => Fail e
           end.

Notation "'let!' x ':=' m 'in' k" := (bind m (fun x => k))
  (at level 10, x pattern, m at level 100, k at level 200).
Notation "m '>>' k" := (bind m (fun _ => k))
  (at level 100, k at level 200, right associativity).

Definition fail {A : Type} (e : Error) : M A := fun _ => Fail e.

Definition liftR {A : Type} (r : result A) : M A :=
  fun w => match r with Ok a => Ok (a, w) | Fail e => Fail e end.

Definition emit (c : UICmd) : M unit :=
  fun w => Ok (tt, mkWorld (insp w) (edit w) (spriteAtlasSelection w)
                           (log w ++ [c])).

Definition get_insp : M Inspector := fun w => Ok (insp w, w).
Definition put_insp (s : Inspector) : M unit :=
  fun w => Ok (tt, mkWorld s (edit w) (spriteAtlasSelection w) (log w)).

Definition get_edit : M EditStatics := fun w => Ok (edit w, w).
Definition put_edit (e : EditStatics) : M unit :=
  fun w => Ok (tt, mkWorld (insp w) e (spriteAtlasSelection w) (log w)).

Definition get_selection : M (list (Z * Z)) :=
  fun w => Ok (spriteAtlasSelection w, w).
Definition put_selection (l : list (Z * Z)) : M unit :=
  fun w => Ok (tt, mkWorld (insp w) (edit w) l (log w)).

(** A member function of the inspector that returns a value. *)
Definition on_insp {A : Type} (f : Inspector -> result (A * Inspector)) : M A :=
  let! s := get_insp in
  let! (a, s') := liftR (f s) in
  put_insp s' >> ret a.

Definition when (b : bool) (m : M unit) : M unit := if b then m else ret tt.

(** A range-based [for] over a container. *)
Fixpoint forM {A : Type} (l : list A) (body : A -> M unit) : M unit :=
  match l with
  | [] => ret tt
  | a :: l' => body a >> forM l' body
  end.

(** The widgets that answer. *)
Definition CollapsingHeader (env : Env) (label : string) : M bool :=
  emit (CCollapsingHeader label) >> ret (ui_header env label).

Definition TreeNode (env : Env) (path : list string) (label : string) : M bool :=
  emit (CTreeNode label) >> ret (ui_tree env (label :: path)).

Definition Button (env : Env) (path : list string) (label : string) : M bool :=
  emit (CButton label) >> ret (ui_button env (label :: path)).

Definition LabelText (label : string) (text : Text) : M unit :=
  emit (CLabelText label text).

(** [name + "##" + std::to_string((int64_t)ptr)]. *)
Definition node_label (name : string) (addr : Z) : string :=
  (name ++ "##" ++ CInt.to_string addr)%string.

(** ** The panels *)

(** OpenGL's type enumerators. *)
Definition GL_FLOAT : Z := 5126.
Definition GL_FLOAT_VEC2 : Z := 35664.
Definition GL_FLOAT_VEC3 : Z := 35665.
Definition GL_FLOAT_VEC4 : Z := 35666.
Definition GL_INT_VEC4 : Z := 35669.
Definition GL_FLOAT_MAT3 : Z := 35675.
Definition GL_FLOAT_MAT4 : Z := 35676.

Definition appendSize (s : string) (size : Z) : string :=
  if 1 <? size then (s ++ "[" ++ CInt.to_string size ++ "]")%string else s.

Definition glEnumToString (type : Z) : string :=
  if type =? GL_FLOAT then "float"
  else if type =? GL_FLOAT_VEC2 then "vec2"
  else if type =? GL_FLOAT_VEC3 then "vec3"
  else if type =? GL_FLOAT_VEC4 then "vec4"
  else if type =? GL_FLOAT_MAT4 then "mat4"
  else if type =? GL_FLOAT_MAT3 then "mat3"
  else if type =? GL_INT_VEC4 then "ivec4"
  else "unknown".

Definition glUniformToString (type : UniformType) : string :=
  match type with
  | UFloat => "float"
  | UInt => "int"
  | UMat3 => "mat3"
  | UMat4 => "mat4"
  | UTexture => "texture"
  | UTextureCube => "texture cube"
  | UVec3 => "vec3"
  | UVec4 => "vec4"
  | UInvalid => "Unsupported"
  end.

(** The corners [{0,1}] and [{1,0}] every preview image is drawn with. *)
Definition uv_flip0 : Vec2 := mkVec2 (F32.of_int 0) (F32.of_int 1).
Definition uv_flip1 : Vec2 := mkVec2 (F32.of_int 1) (F32.of_int 0).

Definition preview_image (tex : Texture) : M unit :=
  let! s := get_insp in
  emit (CImage tex (previewSize s) (previewSize s) uv_flip0 uv_flip1).

(** [x / (1000*1000.0f)] for an [int] x. *)
Definition megabytes (x : Z) : float32 :=
  F32.div (F32.of_int x) (F32.of_int 1000000).

(** [Inspector::showTexture]. *)
Definition showTexture (env : Env) (tex : Texture) : M unit :=
  let s := node_label (tex_name tex) (tex_addr (tex_attrs tex)) in
  let! opened := TreeNode env [] s in
  when opened
    (LabelText "Size" (Fmt "%ix%i" [AInt (tex_width tex); AInt (tex_height tex)]) >>
     LabelText "Cubemap" (bool_text (tex_cubemap (tex_attrs tex))) >>
     LabelText "Filtersampling" (bool_text (tex_filterSampling (tex_attrs tex))) >>
     LabelText "Mipmapping" (bool_text (tex_mipmapped (tex_attrs tex))) >>
     LabelText "Wrap tex-coords"
       (bool_text (tex_wrapTextureCoordinates (tex_attrs tex))) >>
     LabelText "Data size"
       (Fmt "%f MB" [AFloat (megabytes (tex_dataSize (tex_attrs tex)))]) >>
     when (negb (tex_cubemap (tex_attrs tex))) (preview_image tex) >>
     emit CTreePop).

(** [framebuffer->setTexture(offscreenTexture)]. *)
Definition framebuffer_setTexture (t : Texture) (s : Inspector)
  : result (unit * Inspector) :=
  match framebuffer s with
  | Some fb =>
      Ok (tt, set_framebuffer (Some (mkFramebuffer (fbo_name fb) (Some t)))
                (worldLights s) s)
  | None => Fail UndefinedBehaviour
  end.

(** How a preview takes its texture, in [showMesh] (lines 121-127) and in
    [showShader] (lines 208-218):
    [initFramebuffer(); auto offscreenTexture = getTmpTexture();
     framebuffer->setTexture(offscreenTexture);]. *)
Definition preview_texture (env : Env) (s : Inspector)
  : result (Texture * Inspector) :=
  let* s := initFramebuffer env s in
  let* (offscreenTexture, s) := getTmpTexture env s in
  let* (_, s) := framebuffer_setTexture offscreenTexture s in
  Ok (offscreenTexture, s).

(** The preview requests of [m] previews one after another: the textures
    they draw into, in order. *)
Fixpoint preview_requests (env : Env) (m : nat) (s : Inspector)
  : result (list Texture * Inspector) :=
  match m with
  | O => Ok ([], s)
  | S m' =>
      let* (t, s1) := preview_texture env s in
      let* (ts, s2) := preview_requests env m' s1 in
      Ok (t :: ts, s2)
  end.

(** The render pass both previews build:
    [RenderPass::create().withCamera(camera).withWorldLights(&worldLights)
     .withFramebuffer(framebuffer).withClearColor(true, {0, 0, 0, 1})
     .withGUI(false).build()]. *)
Definition preview_pass (s : Inspector) : result RenderPass :=
  match framebuffer s with
  | Some fb =>
      Ok (mkRenderPass preview_camera (worldLights s) fb (true, (0, 0, 0, 1))
                       false)
  | None => Fail UndefinedBehaviour
  end.

(** Modelled from the spec: [RenderPass::draw(mesh, transform, materials)]
    is defined in [sre/RenderPass.cpp], which is not among the sources.  The
    length of [materials] must equal the mesh's index-set count, or 1 for a
    mesh without index sets; otherwise the draw fails with a shape-mismatch
    error and nothing is drawn. *)
Definition draw_shape_ok (indexSets : Z) (materials : list Material) : bool :=
  Z.of_nat (length materials) =? Z.max 1 indexSets.

Definition RenderPass_draw (pass : RenderPass) (mesh : Mesh)
    (model : list Matrix) (materials : list Material) : M unit :=
  if draw_shape_ok (getIndexSets mesh) materials
  then emit (CDraw pass (RegistryMesh mesh) model materials)
  else fail ShapeMismatch.

(** Modelled from the spec: the overload of [draw] with a single material,
    which applies it to the whole mesh; the shader preview calls it on its
    static sphere. *)
Definition RenderPass_draw_sphere (pass : RenderPass) (model : list Matrix)
    (material : Material) : M unit :=
  emit (CDraw pass SphereMesh model [material]).

(** [float rotationSpeed = 0.001f]. *)
Definition rotationSpeed : float32 := F32.literal 1 1000.

(** The auto-fit of the mesh preview (lines 144-148 of [showMesh]). *)
Definition preview_center (mesh : Mesh) : Vec3 :=
  vec3_scale (vec3_add (mesh_boundsMax mesh) (mesh_boundsMin mesh)) F32.half.

Definition preview_offset (mesh : Mesh) : Vec3 := vec3_neg (preview_center mesh).

Definition preview_extent (mesh : Mesh) : Vec3 :=
  vec3_sub (mesh_boundsMax mesh) (mesh_boundsMin mesh).

Definition preview_maxS (mesh : Mesh) : float32 :=
  let scale := preview_extent mesh in
  F32.max3 (v3x scale) (v3y scale) (v3z scale).

(** [2.0f/maxS], the factor on each axis. *)
Definition preview_scale (mesh : Mesh) : float32 :=
  F32.div F32.two (preview_maxS mesh).

(** [glm::eulerAngleY(time*rotationSpeed)
     * glm::scale(glm::vec3{2.0f/maxS,2.0f/maxS,2.0f/maxS})
     * glm::translate(offset)]. *)
Definition preview_model (t : float32) (mesh : Mesh) : list Matrix :=
  [ EulerAngleY (F32.mul t rotationSpeed);
    Scale (mkVec3 (preview_scale mesh) (preview_scale mesh) (preview_scale mesh));
    Translate (preview_offset mesh) ].

(** [for (int m = 0; m < std::max(1, getIndexSets()); m++) mats.push_back(mat);] *)
Definition preview_materials (mesh : Mesh) (mat : Material) : list Material :=
  foldl (fun mats _ => mats ++ [mat]) []
        (seqZ 0 (CInt.max 1 (getIndexSets mesh))).

(** [Inspector::showMesh]. *)
Definition showMesh (env : Env) (mesh : Mesh) : M unit :=
  let s := node_label (mesh_name mesh) (mesh_addr mesh) in
  let! opened := TreeNode env [] s in
  when opened
    (LabelText "Vertex count" (Fmt "%i" [AInt (mesh_vertexCount mesh)]) >>
     LabelText "Mesh size" (Fmt "%.2f MB" [AFloat (megabytes (mesh_dataSize mesh))]) >>
     (let! attrs := TreeNode env [s] "Vertex attributes" in
      when attrs
        (forM (mesh_attributes mesh)
           (fun a =>
              let type := snd a in
              LabelText (fst a)
                (plain (appendSize (glEnumToString (fst type)) (snd type)))) >>
         emit CTreePop)) >>
     (let! sets := TreeNode env [s] "Index sets" in
      when sets
        ((if getIndexSets mesh =? 0
          then LabelText EmptyString (plain "None")
          else forM (seqZ 0 (getIndexSets mesh))
                 (fun i =>
                    let! size := liftR (vget (mesh_indicesSize mesh) i) in
                    LabelText ("Index " ++ CInt.to_string i ++ " size")
                              (Fmt "%i" [AInt size]))) >>
         emit CTreePop)) >>
     on_insp (fun i => let* i' := initFramebuffer env i in Ok (tt, i')) >>
     let! offscreenTexture := on_insp (getTmpTexture env) in
     on_insp (framebuffer_setTexture offscreenTexture) >>
     let! i := get_insp in
     let! renderToTexturePass := liftR (preview_pass i) in
     let hasNormals := 0 <? mesh_normals mesh in
     let mat := if hasNormals then StandardMaterial else UnlitMaterial in
     let mats := preview_materials mesh mat in
     RenderPass_draw renderToTexturePass mesh (preview_model (time i) mesh) mats >>
     preview_image offscreenTexture >>
     emit CTreePop).

(** The "Edit" button of [showShader]:
    [shaderEdit = std::weak_ptr<Shader>(shader->shared_from_this())]. *)
Definition open_editor (shader : Shader) : M unit :=
  let! i := get_insp in
  put_insp (set_shaderEdit (Some (sh_uid shader)) i).

Definition blend_text (b : BlendType) : string :=
  match b with
  | AdditiveBlending => "Additive blending"
  | AlphaBlending => "Alpha blending"
  | Disabled => "Disabled"
  end.

(** [Inspector::showShader]. *)
Definition showShader (env : Env) (shader : Shader) : M unit :=
  let s := node_label (sh_name shader) (sh_addr shader) in
  let! opened := TreeNode env [] s in
  when opened
    ((let! pressed := Button env [s] "Edit" in
      when pressed (open_editor shader)) >>
     (let! attrs := TreeNode env [s] "Attributes" in
      when attrs
        (forM (sh_attributes shader)
           (fun a =>
              let type := snd a in
              LabelText (fst a)
                (plain (appendSize (glEnumToString (fst type)) (snd type)))) >>
         emit CTreePop)) >>
     (let! unis := TreeNode env [s] "Uniforms" in
      when unis
        (forM (sh_uniforms shader)
           (fun a =>
              let type := snd a in
              LabelText (fst a)
                (plain (appendSize (glUniformToString (fst type)) (snd type)))) >>
         emit CTreePop)) >>
     LabelText "Blending" (Fmt "%s" [AStr (blend_text (sh_blend shader))]) >>
     LabelText "Depth test" (bool_text (sh_depthTest shader)) >>
     LabelText "Depth write" (bool_text (sh_depthWrite shader)) >>
     LabelText "Offset"
       (Fmt "factor: %.1f units: %.1f"
            [AFloat (v2x (sh_offset shader)); AFloat (v2y (sh_offset shader))]) >>
     on_insp (fun i => let* i' := initFramebuffer env i in Ok (tt, i')) >>
     let mat := ShaderMaterial (sh_uid shader) in
     let! offscreenTexture := on_insp (getTmpTexture env) in
     on_insp (framebuffer_setTexture offscreenTexture) >>
     let! i := get_insp in
     let! renderToTexturePass := liftR (preview_pass i) in
     RenderPass_draw_sphere renderToTexturePass
       [EulerAngleY (F32.mul (time i) rotationSpeed)] mat >>
     preview_image offscreenTexture >>
     emit CTreePop).

(** [showFramebufferObject]. *)
Definition showFramebufferObject (env : Env) (fbo : Z * Framebuffer) : M unit :=
  let s := node_label (fbo_name (snd fbo)) (fst fbo) in
  let! opened := TreeNode env [] s in
  when opened (emit CTreePop).

(** The static [std::map<SpriteAtlas*,int>] of [showSpriteAtlas]. *)
Fixpoint selection_find (k : Z) (m : list (Z * Z)) : option Z :=
  match m with
  | [] => None
  | (k', v) :: m' => if k =? k' then Some v else selection_find k m'
  end.

Fixpoint selection_set (k v : Z) (m : list (Z * Z)) : list (Z * Z) :=
  match m with
  | [] => [(k, v)]
  | (k', v') :: m' =>
      if k =? k' then (k, v) :: m' else (k', v') :: selection_set k v m'
  end.

Fixpoint atlas_get (name : string) (l : list (string * Sprite)) : option Sprite :=
  match l with
  | [] => None
  | (n, sp) :: l' => if String.eqb name n then Some sp else atlas_get name l'
  end.

(** [for (auto& str : pAtlas->getNames()) ss << str << '\0'; ss << '\0';]:
    every name followed by a zero character, and one more zero character. *)
Definition zero_separated (names : list string) : string :=
  (foldl (fun ss str => ss ++ str ++ String Ascii.zero EmptyString)
         EmptyString names
   ++ String Ascii.zero EmptyString)%string.

(** The items of [ImGui::Combo(label, &index, items_separated_by_zeros)].
    ImGui is a library outside the sources; this overload reads its items
    out of one buffer, the C strings one after the other up to the first
    empty one (the list ends at two zero characters in a row).  [item]
    holds the characters of the item being read.  The end of the buffer
    ends the item being read; a buffer built by [zero_separated] ends with
    a zero character, so there no item is being read at that point. *)
Fixpoint combo_items_from (item buffer : string) : list string :=
  match buffer with
  | EmptyString => match item with EmptyString => [] | _ => [item] end
  | String c rest =>
      if Ascii.eqb c Ascii.zero
      then match item with
           | EmptyString => []
           | _ => item :: combo_items_from EmptyString rest
           end
      else combo_items_from (item ++ String c EmptyString) rest
  end.

Definition combo_items (buffer : string) : list string :=
  combo_items_from EmptyString buffer.

(** [Inspector::showSpriteAtlas]. *)
Definition showSpriteAtlas (env : Env) (pAtlas : SpriteAtlas) : M unit :=
  let s := node_label (atlasName pAtlas) (atlas_addr pAtlas) in
  let! opened := TreeNode env [] s in
  when opened
    (let names := map fst (atlas_sprites pAtlas) in
     let ss_str := zero_separated names in
     let! sel := get_selection in
     let current := default (-1) (selection_find (atlas_addr pAtlas) sel) in
     emit (CCombo "Sprite names" current (combo_items ss_str)) >>
     let (updated, chosen) :=
       ui_combo env ["Sprite names"%string; s] current (combo_items ss_str) in
     let index := if updated then chosen else current in
     put_selection (selection_set (atlas_addr pAtlas) index sel) >>
     when (negb (index =? -1))
       (let! name := liftR (vget names index) in
        match atlas_get name (atlas_sprites pAtlas) with
        | None => fail UndefinedBehaviour
        | Some sprite =>
            let size := spriteSize sprite in
            let pos := spritePos sprite in
            let tex := sprite_texture sprite in
            let w := F32.of_int (tex_width tex) in
            let h := F32.of_int (tex_height tex) in
            LabelText "Sprite anchor"
              (Fmt "(%.2f,%.2f)" [AFloat (v2x (spriteAnchor sprite));
                                  AFloat (v2y (spriteAnchor sprite))]) >>
            LabelText "Sprite size" (Fmt "%ix%i" [AInt (iv2x size); AInt (iv2y size)]) >>
            LabelText "Sprite pos" (Fmt "(%i,%i)" [AInt (iv2x pos); AInt (iv2y pos)]) >>
            let! y1 := liftR (CInt.add (iv2y pos) (iv2y size)) in
            let! x1 := liftR (CInt.add (iv2x pos) (iv2x size)) in
            let uv0 := mkVec2 (F32.div (F32.of_int (iv2x pos)) w)
                              (F32.div (F32.of_int y1) h) in
            let uv1 := mkVec2 (F32.div (F32.of_int x1) w)
                              (F32.div (F32.of_int (iv2y pos)) h) in
            let! i := get_insp in
            emit (CImage tex
                    (F32.mul (F32.div (previewSize i) (F32.of_int (iv2y size)))
                             (F32.of_int (iv2x size)))
                    (previewSize i) uv0 uv1)
        end) >>
     emit CTreePop).

(** ** The shader editor *)

(** The combo entry of a source, or the error the source logs instead of
    pushing one. *)
Definition shader_type_entry (t : ShaderType) : string + string :=
  match t with
  | Vertex => inl "Vertex"%string
  | Fragment => inl "Fragment"%string
  | Geometry => inl "Geometry"%string
  | TessellationControl => inl "TessellationControl"%string
  | TessellationEvaluation => inl "TessellationEvaluation"%string
  | NumberOfShaderTypes =>
      inr "ShaderType::NumberOfShaderTypes should never be used"%string
  end.

Definition active_shaders (shader : Shader) : list string :=
  omap (fun source => match shader_type_entry (fst source) with
                      | inl name => Some name
                      | inr _ => None
                      end)
       (shaderSources shader).

(** The first block of [editShader]: another shader than last time. *)
Definition editShader_load (env : Env) (shader : Shader) : M unit :=
  let! e := get_edit in
  if match shaderRef e with
     | Some a => a =? sh_addr shader
     | None => false
     end
  then ret tt
  else
    let code := map (fun source => env_getSource env (snd source))
                    (shaderSources shader) in
    let selected := 0 in
    let! text := liftR (vget code selected) in
    put_edit (mkEditStatics (Some (sh_addr shader)) code
                (mkTextEditor text (te_readOnly (textEditor e)) DarkPalette true)
                selected false).

(** [ImGui::Combo("####ShaderType", &selectedShader, ...)] and the clamp
    [selectedShader = std::min(selectedShader, (int)activeShaders.size())]:
    whether the combo changed, and the index after the clamp. *)
Definition select_shader (env : Env) (title : string) (current : Z)
    (activeShaders : list string) : bool * Z :=
  let (updated, chosen) :=
    ui_combo env ["####ShaderType"%string; title] current activeShaders in
  let selected := if updated then chosen else current in
  (updated, CInt.min selected (Z.of_nat (length activeShaders))).

(** [Inspector::editShader] from after [ImGui::Begin] to its end. *)
Definition editShader_body (env : Env) (shader : Shader) : M unit :=
  let title := sh_name shader in
  let open := ui_window_open env title in
  let sources := map fst (shaderSources shader) in
  let activeShaders := active_shaders shader in
  forM sources (fun t => match shader_type_entry t with
                         | inl _ => ret tt
                         | inr msg => emit (CLogError msg)
                         end) >>
  emit (CPushItemWidth (-1)) >>
  let! e := get_edit in
  let lastSelectedShader := selectedShader e in
  emit (CCombo "####ShaderType" (selectedShader e) activeShaders) >>
  let (updatedShader, selected) :=
    select_shader env title (selectedShader e) activeShaders in
  emit (CCheckbox "Show precompiled" (showPrecompiled e)) >>
  let (updatedPrecompile, precompiled) :=
    ui_checkbox env "Show precompiled" (showPrecompiled e) in
  emit CSameLine >>
  let editor :=
    if updatedPrecompile
    then mkTextEditor (te_text (textEditor e)) (te_readOnly (textEditor e))
           (if precompiled then LightPalette else DarkPalette)
           (te_glsl (textEditor e))
    else textEditor e in
  let! compile := Button env [title] "Compile" in
  let! code :=
    if (compile && negb precompiled) || (updatedShader && negb precompiled)
       || (updatedPrecompile && precompiled)
    then liftR (vset (shaderCode e) lastSelectedShader (te_text editor))
    else ret (shaderCode e) in
  when compile
    (let! built :=
       liftR (foldR (fun i acc =>
                       let* text := vget code i in
                       let* type := vget sources i in
                       Ok (acc ++ [(text, type)]))
                    (seqZ 0 (Z.of_nat (length sources))) []) in
     emit (CShaderBuild (sh_uid shader) built)) >>
  let! editor :=
    if updatedShader || updatedPrecompile
    then
      let! text := liftR (vget code selected) in
      if precompiled
      then ret (mkTextEditor (env_precompile env text) true
                  (te_palette editor) (te_glsl editor))
      else ret (mkTextEditor text false (te_palette editor) (te_glsl editor))
    else ret editor in
  emit (CEditorRender "##editor" editor) >>
  let editor := mkTextEditor (ui_editor_text env editor) (te_readOnly editor)
                  (te_palette editor) (te_glsl editor) in
  put_edit (mkEditStatics (shaderRef e) code editor selected precompiled) >>
  emit CEnd >>
  emit CPopID >>
  when (negb open)
    (let! i := get_insp in put_insp (set_shaderEdit None i)).

(** [Inspector::editShader]: the statics are loaded, then
    [ImGui::PushID(shader); ImGui::Begin(shader->name.c_str(),&open);] and
    the window's content. *)
Definition editShader (env : Env) (shader : Shader) : M unit :=
  editShader_load env shader >>
  emit (CPushID (sh_addr shader)) >>
  emit (CBegin (sh_name shader)) >>
  editShader_body env shader.

(** ** [Inspector::gui] *)

Definition version_text (v : Version) : Text :=
  Fmt "%d.%d.%d" [AInt (major v); AInt (minor v); AInt (patch v)].

Definition size_text (v : IVec2) : Text :=
  Fmt "%ix%i" [AInt (iv2x v); AInt (iv2y v)].

(** The "Renderer" panel. *)
Definition gui_renderer (env : Env) (r : Renderer) : M unit :=
  let! opened := CollapsingHeader env "Renderer" in
  when opened
    (LabelText "SRE Version" (version_text (sre_version r)) >>
     (let! i := get_insp in
      match sdlRenderer i with
      | Some sdl =>
          LabelText "Fullscreen" (bool_text (isFullscreen sdl)) >>
          LabelText "Mouse cursor locked" (bool_text (isMouseCursorLocked sdl)) >>
          LabelText "Mouse cursor visible" (bool_text (isMouseCursorVisible sdl))
      | None => ret tt
      end) >>
     LabelText "Window size" (size_text (windowSize r)) >>
     LabelText "Drawable size" (size_text (drawableSize r)) >>
     LabelText "VSync" (bool_text (usesVSync r)) >>
     LabelText "OpenGL version" (plain (env_gl_version env)) >>
     LabelText "OpenGL vendor" (plain (env_gl_vendor env)) >>
     LabelText "SDL version compiled" (version_text (env_sdl_compiled env)) >>
     LabelText "SDL version linked" (version_text (env_sdl_linked env)) >>
     LabelText "SDL_IMG version compiled" (version_text (env_img_compiled env)) >>
     LabelText "SDL version linked" (version_text (env_img_linked env)) >>
     LabelText "IMGUI version" (plain (env_imgui_version env))).

(** One plot drawn by the inspector: [plot] on the current state. *)
Definition draw_plot (sample : Inspector -> Z -> result float32)
    (label : float32 -> float32 -> Text) (overlay : string) : M unit :=
  let! cmd := on_insp (fun i => plot (sample i) label overlay i) in
  emit cmd.

(** The "Performance" panel (lines 311-363). *)
Definition gui_performance (env : Env) : M unit :=
  let! opened := CollapsingHeader env "Performance" in
  when opened
    (draw_plot sample_milliseconds
       (fun avg mx => Fmt "Avg time: %4.2f ms\nMax time: %4.2f ms"
                          [AFloat avg; AFloat mx])
       "Milliseconds" >>
     draw_plot sample_drawCalls
       (fun avg mx => Fmt "Avg: %4.1f\nMax: %4.1f" [AFloat avg; AFloat mx])
       "Draw calls" >>
     draw_plot sample_stateChanges
       (fun avg mx => Fmt "Avg: %4.1f\nMax: %4.1f" [AFloat avg; AFloat mx])
       "State changes").

(** The "Memory" panel (lines 364-399). *)
Definition gui_memory (env : Env) (r : Renderer) : M unit :=
  let! opened := CollapsingHeader env "Memory" in
  when opened
    (draw_plot sample_meshMB
       (fun avg mx => Fmt "Avg: %4.1f MB\nMax: %4.1f MB\nCount: %i"
                          [AFloat avg; AFloat mx;
                           AInt (Z.of_nat (length (meshes r)))])
       "Mesh MB" >>
     draw_plot sample_textureMB
       (fun avg mx => Fmt "Avg: %4.1f MB\nMax: %4.1f MB\nCount: %i"
                          [AFloat avg; AFloat mx;
                           AInt (Z.of_nat (length (textures r)))])
       "Texture MB").

Definition is_empty {A : Type} (l : list A) : bool :=
  match l with [] => true | _ => false end.

(** The three registry panels (lines 400-423). *)
Definition gui_shaders (env : Env) (r : Renderer) : M unit :=
  let! opened := CollapsingHeader env "Shaders" in
  when opened
    (forM (shaders r) (showShader env) >>
     when (is_empty (shaders r))
       (LabelText EmptyString (plain "No shaders"))).

Definition gui_textures (env : Env) (r : Renderer) : M unit :=
  let! opened := CollapsingHeader env "Textures" in
  when opened
    (forM (textures r) (showTexture env) >>
     when (is_empty (textures r))
       (LabelText EmptyString (plain "No textures"))).

Definition gui_meshes (env : Env) (r : Renderer) : M unit :=
  let! opened := CollapsingHeader env "Meshes" in
  when opened
    (forM (meshes r) (showMesh env) >>
     when (is_empty (meshes r))
       (LabelText EmptyString (plain "No meshes"))).

Definition gui_spriteAtlases (env : Env) (r : Renderer) : M unit :=
  when (negb (is_empty (spriteAtlases r)))
    (let! opened := CollapsingHeader env "Sprite atlases" in
     when opened (forM (spriteAtlases r) (showSpriteAtlas env))).

Definition gui_framebufferObjects (env : Env) (r : Renderer) : M unit :=
  when (negb (is_empty (framebufferObjects r)))
    (let! opened := CollapsingHeader env "Framebuffer objects" in
     when opened (forM (framebufferObjects r) (showFramebufferObject env))).

(** [shaderEdit.lock()]: the shader the weak reference follows, if that
    object is still alive, that is, still in the renderer's registry. *)
Definition weak_lock (w : option Z) (live : list Shader) : option Shader :=
  match w with
  | Some uid => find (fun sh => sh_uid sh =? uid) live
  | None => None
  end.

(** Lines 442-444: the edit view. *)
Definition gui_edit_view (env : Env) (r : Renderer) : M unit :=
  let! i := get_insp in
  match weak_lock (shaderEdit i) (shaders r) with
  | Some shaderEditPtr => editShader env shaderEditPtr
  | None => ret tt
  end.

(** Everything of [gui] before the edit view (lines 268-440). *)
Definition gui_panels (env : Env) (r : Renderer) (useWindow : bool) : M unit :=
  when useWindow (emit (CBegin "SRE Renderer")) >>
  gui_renderer env r >>
  gui_performance env >>
  gui_memory env r >>
  gui_shaders env r >>
  gui_textures env r >>
  gui_meshes env r >>
  gui_spriteAtlases env r >>
  gui_framebufferObjects env r >>
  when useWindow (emit CEnd).

Definition gui (env : Env) (r : Renderer) (useWindow : bool) : M unit :=
  gui_panels env r useWindow >> gui_edit_view env r.

(** ** Notions of the specification *)

(** The buffers have the capacity [frames], as the constructor sizes them,
    and the frame count is a count. *)
Definition ring_wf (s : Inspector) : Prop :=
  0 < frames s /\ 0 <= frameCount s /\
  length (stats s) = Z.to_nat (frames s) /\
  length (milliseconds s) = Z.to_nat (frames s) /\
  length (data s) = Z.to_nat (frames s).

(** A ring read in chronological order: position [i] holds slot
    [(frameCount + i) mod frames]. *)
Definition chronological {A : Type} (s : Inspector) (ring : list A) : list A :=
  rotate (Z.to_nat (frameCount s)) ring.

(** The last [n] elements of a list. *)
Definition last_n {A : Type} (n : nat) (l : list A) : list A :=
  drop (length l - n) l.

(** The arithmetic mean in [float] arithmetic: the sum from the left,
    starting at 0, divided by the count; 0 for no values at all. *)
Definition arithmetic_mean (l : list float32) : float32 :=
  match l with
  | [] => F32.zero
  | _ => F32.div (foldl F32.add F32.zero l) (F32.of_int (Z.of_nat (length l)))
  end.

(** The per-frame times a run of [update] records: one [deltaTime] per
    frame, each measured from the reading before. *)
Fixpoint recorded_ms (last : Z) (fs : list Frame) : list float32 :=
  match fs with
  | [] => []
  | f :: fs' => duration_ms (snd f) last :: recorded_ms (snd f) fs'
  end.

(** The scratch textures [getTmpTexture] builds as the pool grows from [p]
    textures by [k] more: number [j] is named after the pool size [j] at
    its creation. *)
Definition new_textures (env : Env) (p k : nat) : list Texture :=
  map (fun j => build_scratch_texture env
                  ("SRE Inspector Tex #" ++ size_to_string j))
      (seq p k).

(** Two inspectors with the same pool and the same count of textures
    handed out. *)
Definition same_pool (s s2 : Inspector) : Prop :=
  offscreenTextures s = offscreenTextures s2 /\ usedTextures s = usedTextures s2.

(** The property of the pool as the specification words it: with [N]
    textures cached at the start of a frame, [M > N] requests get the [N]
    cached textures first and allocate at most [N] new ones. *)
Definition pool_allocates_at_most_cached (env : Env) (s : Inspector) (M : nat)
  : Prop :=
  let N := length (offscreenTextures s) in
  usedTextures s = 0 -> (N < M)%nat ->
  exists (ts : list Texture) (s' : Inspector),
    requests env M s = Ok (ts, s') /\
    take N ts = offscreenTextures s /\
    (length (offscreenTextures s') - N <= N)%nat.

(** The scale of the auto-fit times half the largest extent, in [float]
    arithmetic, and the property that the mesh exactly fits the unit cube. *)
Definition fitted_half_extent (mesh : Mesh) : float32 :=
  F32.mul (preview_scale mesh) (F32.mul (preview_maxS mesh) F32.half).

Definition fits_unit_cube (mesh : Mesh) : Prop :=
  fitted_half_extent mesh = F32.one.

(** The binary32 number [2^e], for a normal exponent [-126 <= e <= 127]. *)
Definition pow2 (e : Z) : float32 := S754_finite false 8388608 (e - 23).

(** Structural equality of binary32 numbers. *)
Definition float_same (a b : float32) : bool :=
  match a, b with
  | S754_zero s, S754_zero s' => Bool.eqb s s'
  | S754_infinity s, S754_infinity s' => Bool.eqb s s'
  | S754_nan, S754_nan => true
  | S754_finite s m e, S754_finite s' m' e' =>
      Bool.eqb s s' && (m =? m')%positive && (e =? e')
  | _, _ => false
  end.

(** A mesh with a given bounding box and nothing else of note. *)
Definition box_mesh (bmin bmax : Vec3) : Mesh :=
  mkMesh 8192 "box" 8 256 [("position"%string, (GL_FLOAT_VEC3, 1))] [36] 0
         bmin bmax.

(** The box of the specification's example, [min=(-2,-1,-1)], [max=(2,1,1)],
    and a box whose largest extent is 82. *)
Definition example_box : Mesh :=
  box_mesh (vec3_of_ints (-2) (-1) (-1)) (vec3_of_ints 2 1 1).

Definition wide_box : Mesh :=
  box_mesh (vec3_of_ints (-41) (-1) (-1)) (vec3_of_ints 41 1 1).

(** ** Concrete collaborators and states, for examples *)

Definition example_attrs : TextureAttrs :=
  mkTextureAttrs 4096 7 false true false true 196608.

(** A frame in which every header and tree node is open and the user
    touches nothing. *)
Definition example_env : Env :=
  mkEnv (fun _ => true) (fun _ => true) (fun _ => false)
        (fun _ current _ => (false, current)) (fun _ value => (false, value))
        (fun _ => true) te_text
        (fun source => source) (fun source => source)
        (fun _ => example_attrs)
        "4.1" "vendor" (mkVersion 2 0 5) (mkVersion 2 0 5)
        (mkVersion 2 0 1) (mkVersion 2 0 1) "1.50".

(** An inspector of capacity 4, as constructed. *)
Definition example_inspector : Inspector :=
  mkInspector 4 0 None (replicate 4 RenderStats_zero) (replicate 4 F32.zero)
    (replicate 4 F32.zero) 0 F32.zero 0 [] None WorldLights_empty None
    (F32.of_int 100).

(** The same inspector at the start of a frame, one scratch texture in its
    pool. *)
Definition example_pool : Inspector :=
  set_offscreenTextures
    [build_scratch_texture example_env "SRE Inspector Tex #0"]
    example_inspector.

(** Six frames, 16 ms apart. *)
Definition example_frames : list Frame :=
  map (fun k => (mkRenderStats k 1 1 1 1000 2000, 16000000 * k)) (seqZ 1 6).

(** A shader with a vertex and a fragment source, a renderer whose
    registries are empty and one that has just this shader. *)
Definition example_shader : Shader :=
  mkShader 1 4242 "unlit" [("position"%string, (GL_FLOAT_VEC3, 1))]
           [("color"%string, (UVec4, 1))] Disabled true true
           (mkVec2 F32.zero F32.zero)
           [(Vertex, "unlit_vert.glsl"%string); (Fragment, "unlit_frag.glsl"%string)].

Definition empty_renderer : Renderer :=
  mkRenderer (mkVersion 1 0 0) (mkIVec2 800 600) (mkIVec2 800 600) true
             RenderStats_zero [] [] [] [] [].

Definition example_renderer : Renderer :=
  mkRenderer (mkVersion 1 0 0) (mkIVec2 800 600) (mkIVec2 800 600) true
             RenderStats_zero [example_shader] [] [] [] [].

(** A world whose edit view follows the object with uid 1. *)
Definition editing_world : World :=
  World_init (set_shaderEdit (Some 1) example_inspector).

(** The world after the UI code has made the calls [cs] and nothing else. *)
Definition logged (cs : list UICmd) (w : World) : World :=
  mkWorld (insp w) (edit w) (spriteAtlasSelection w) (log w ++ cs).

(** What a registry panel draws for an empty registry: its header and,
    when the header is open, the placeholder label. *)
Definition placeholder_panel (env : Env) (header text : string) : list UICmd :=
  CCollapsingHeader header ::
  (if ui_header env header then [CLabelText EmptyString (plain text)] else []).

(** The same shader object after it was rebuilt with a geometry stage. *)
Definition rebuilt_shader : Shader :=
  mkShader 1 4242 "unlit" [("position"%string, (GL_FLOAT_VEC3, 1))]
           [("color"%string, (UVec4, 1))] Disabled true true
           (mkVec2 F32.zero F32.zero)
           [(Vertex, "unlit_vert.glsl"%string); (Fragment, "unlit_frag.glsl"%string);
            (Geometry, "unlit_geom.glsl"%string)].

(** A frame in which the user picks entry [k] of every combo. *)
Definition picking_env (k : Z) : Env :=
  mkEnv (fun _ => true) (fun _ => true) (fun _ => false)
        (fun _ _ _ => (true, k)) (fun _ value => (false, value))
        (fun _ => true) te_text
        (fun source => source) (fun source => source)
        (fun _ => example_attrs)
        "4.1" "vendor" (mkVersion 2 0 5) (mkVersion 2 0 5)
        (mkVersion 2 0 1) (mkVersion 2 0 1) "1.50".

(** The example inspector after the six example frames. *)
Definition example_running : Inspector :=
  match updates example_frames example_inspector with
  | Ok s => s
  | Fail _ => example_inspector
  end.

(** The sums the "State changes" plot forms fit an [int]. *)
Definition stateChanges_fit (st : RenderStats) : Prop :=
  CInt.INT_MIN <= stateChangesShader st + stateChangesMaterial st
               <= CInt.INT_MAX /\
  CInt.INT_MIN <= stateChangesShader st + stateChangesMaterial st
                  + stateChangesMesh st
               <= CInt.INT_MAX.

(** The state in which every plot of the inspector is defined: the buffers
    have their capacity and the [int] arithmetic of the loops stays in
    range. *)
Definition plots_defined (s : Inspector) : Prop :=
  ring_wf s /\
  frameCount s + frames s - 1 <= CInt.INT_MAX /\
  2 * frames s - 1 <= CInt.INT_MAX /\
  Forall stateChanges_fit (stats s).

(** Code that, where the plots are defined, runs to the end, keeps the
    plots defined and touches nothing but the inspector and the log. *)
Definition runs_through (m : M unit) : Prop :=
  forall w : World, plots_defined (insp w) ->
  exists (l : list UICmd) (s' : Inspector),
    m w = Ok (tt, mkWorld s' (edit w) (spriteAtlasSelection w) (log w ++ l)) /\
    plots_defined s' /\ shaderEdit s' = shaderEdit (insp w).

(** ** Predicates on runs of the UI code *)

(** Code that cannot fail with a shape mismatch. *)
Definition no_mismatch {A : Type} (r : result A) : Prop :=
  r <> Fail ShapeMismatch.

Definition never_mismatch {A : Type} (m : M A) : Prop :=
  forall w : World, no_mismatch (m w).

(** A relation between the world before and after a run. *)
Definition respects {A : Type} (R : World -> World -> Prop) (m : M A) : Prop :=
  forall (w : World) (a : A) (w' : World), m w = Ok (a, w') -> R w w'.

(** The relation "the log only grows". *)
Definition log_grows (w w' : World) : Prop :=
  exists l : list UICmd, log w' = log w ++ l.

(** The relation "the edit view's weak reference is as before, or follows
    one of the live shaders". *)
Definition edit_follows (live : list Shader) (w w' : World) : Prop :=
  shaderEdit (insp w') = shaderEdit (insp w) \/
  exists sh : Shader, In sh live /\ shaderEdit (insp w') = Some (sh_uid sh).

(** The relation "the weak reference is as before". *)
Definition edit_kept (w w' : World) : Prop :=
  shaderEdit (insp w') = shaderEdit (insp w).

(** ** Notions of the further properties *)

(** The enumerators [glEnumToString] has a name for. *)
Definition known_gl_types : list Z :=
  [GL_FLOAT; GL_FLOAT_VEC2; GL_FLOAT_VEC3; GL_FLOAT_VEC4; GL_FLOAT_MAT4;
   GL_FLOAT_MAT3; GL_INT_VEC4].

(** The calls that touch the pool of scratch textures, and a run of them. *)
Inductive PoolCall : Type :=
| CallUpdate (rs : RenderStats) (tick : Z)
| CallGetTmpTexture
| CallInitFramebuffer.

Definition pool_call (env : Env) (c : PoolCall) (s : Inspector)
  : result Inspector :=
  match c with
  | CallUpdate rs tick => update rs tick s
  | CallGetTmpTexture => let* (_, s') := getTmpTexture env s in Ok s'
  | CallInitFramebuffer => initFramebuffer env s
  end.

Definition pool_calls (env : Env) (cs : list PoolCall) (s : Inspector)
  : result Inspector :=
  foldR (pool_call env) cs s.

(** The pool holds the scratch textures in the order they were built,
    number [j] at index [j], and [usedTextures] counts within it. *)
Definition pool_wf (env : Env) (s : Inspector) : Prop :=
  offscreenTextures s = new_textures env 0 (length (offscreenTextures s)) /\
  0 <= usedTextures s <= Z.of_nat (length (offscreenTextures s)).

(** Code that, started with the inspector in a state where [P] holds, runs
    to its end without an error, touches nothing but the inspector and the
    log, which it only adds to, and leaves the inspector where [Q] holds. *)
Definition runs_from {A : Type} (P : Inspector -> Prop) (m : M A)
    (Q : A -> Inspector -> Prop) : Prop :=
  forall w : World, P (insp w) ->
  exists (a : A) (l : list UICmd) (s' : Inspector),
    m w = Ok (a, mkWorld s' (edit w) (spriteAtlasSelection w) (log w ++ l)) /\
    Q a s'.

(** Code that keeps an invariant of the inspector. *)
Definition keeps {A : Type} (P : Inspector -> Prop) (m : M A) : Prop :=
  runs_from P m (fun _ => P).

(** The same for the whole state the UI code threads through. *)
Definition total (P : World -> Prop) (m : M unit) (Q : World -> Prop) : Prop :=
  forall w : World, P w -> exists w' : World, m w = Ok (tt, w') /\ Q w'.

(** The counter of the pool leaves room for [k] more previews. *)
Definition previews_fit (k : nat) (s : Inspector) : Prop :=
  0 <= usedTextures s /\ usedTextures s + Z.of_nat k <= CInt.INT_MAX.

(** What the panels need of the inspector: the plots are defined and the
    pool has room for the [k] previews that may still come. *)
Definition panel_inv (k : nat) (s : Inspector) : Prop :=
  plots_defined s /\ previews_fit k s.

(** The same once [initFramebuffer] has run. *)
Definition preview_inv (k : nat) (s : Inspector) : Prop :=
  panel_inv k s /\ framebuffer s <> None.

(** What the previews of sprites need of the collaborators and of the
    state: [ImGui::Combo] reports a change only with the index of one of its
    items, the sums of the sprite rectangles fit an [int], and a selection
    stored for an atlas is -1 or an index of its names. *)
Definition combo_picks_item (env : Env) : Prop :=
  forall (path : list string) (current : Z) (items : list string),
    fst (ui_combo env path current items) = true ->
    0 <= snd (ui_combo env path current items) < Z.of_nat (length items).

Definition sprite_fits (sp : Sprite) : Prop :=
  CInt.INT_MIN <= iv2y (spritePos sp) + iv2y (spriteSize sp) <= CInt.INT_MAX /\
  CInt.INT_MIN <= iv2x (spritePos sp) + iv2x (spriteSize sp) <= CInt.INT_MAX.

(** A name that holds no zero character, as a C string does. *)
Fixpoint zero_free (name : string) : bool :=
  match name with
  | EmptyString => true
  | String c rest => negb (Ascii.eqb c Ascii.zero) && zero_free rest
  end.

(** The names up to the first empty one. *)
Fixpoint names_shown (names : list string) : list string :=
  match names with
  | [] => []
  | EmptyString :: _ => []
  | name :: rest => name :: names_shown rest
  end.

(** What [showSpriteAtlas] needs of an atlas: no sprite name holds a zero
    character, so that the zero-separated list of the combo has at most one
    item per name, and the sums formed of the sprite rectangles fit an
    [int]. *)
Definition atlas_fits (a : SpriteAtlas) : Prop :=
  Forall (fun entry => zero_free (fst entry) = true) (atlas_sprites a) /\
  Forall (fun entry => sprite_fits (snd entry)) (atlas_sprites a).

Definition selection_valid (a : SpriteAtlas) (sel : list (Z * Z)) : Prop :=
  forall i : Z, selection_find (atlas_addr a) sel = Some i ->
                -1 <= i < Z.of_nat (length (atlas_sprites a)).

Definition atlases_ready (r : Renderer) (sel : list (Z * Z)) : Prop :=
  forall a : SpriteAtlas, In a (spriteAtlases r) -> selection_valid a sel.

(** The statics of the shader editor are loaded for [shader]: they refer
    to it, hold one code string per source, and the selection is an index
    of the code strings. *)
Definition edit_wf (shader : Shader) (e : EditStatics) : Prop :=
  shaderRef e = Some (sh_addr shader) /\
  length (shaderCode e) = length (shaderSources shader) /\
  0 <= selectedShader e < Z.of_nat (length (shaderCode e)).

(** They are loaded for [shader], or were last used on another shader or on
    none, so that the editor loads them. *)
Definition edit_ready (shader : Shader) (e : EditStatics) : Prop :=
  shaderRef e = Some (sh_addr shader) -> edit_wf shader e.

(** The inspector after the editor's window was drawn: closing the window
    resets the weak reference. *)
Definition after_window (open : bool) (s : Inspector) : Inspector :=
  if open then s else set_shaderEdit None s.

(** What the panels of [gui] need of the whole state: the inspector as
    above, the statics of the editor as they were, [e0], and valid stored
    selections for the atlases of the registry. *)
Definition panels_ready (r : Renderer) (e0 : EditStatics) (k : nat) (w : World)
  : Prop :=
  panel_inv k (insp w) /\ edit w = e0 /\
  atlases_ready r (spriteAtlasSelection w).

(** More collaborators and states for examples: a frame in which every
    button is pressed; the statics loaded for the example shader; statics
    left by a precompiled view of another shader; a shader without
    sources. *)
Definition compiling_env : Env :=
  mkEnv (fun _ => true) (fun _ => true) (fun _ => true)
        (fun _ current _ => (false, current)) (fun _ value => (false, value))
        (fun _ => true) te_text
        (fun source => source) (fun source => source)
        (fun _ => example_attrs)
        "4.1" "vendor" (mkVersion 2 0 5) (mkVersion 2 0 5)
        (mkVersion 2 0 1) (mkVersion 2 0 1) "1.50".

Definition loaded_world : World :=
  mkWorld (set_shaderEdit (Some 1) example_inspector)
          (mkEditStatics (Some 4242)
             ["unlit_vert.glsl"%string; "unlit_frag.glsl"%string]
             (mkTextEditor "edited vertex code" false DarkPalette true) 0 false)
          [] [].

Definition precompiled_world : World :=
  mkWorld (set_shaderEdit (Some 1) example_inspector)
          (mkEditStatics (Some 777) ["other.glsl"%string]
             (mkTextEditor "precompiled text" true LightPalette true) 0 true)
          [] [].

Definition bare_shader : Shader :=
  mkShader 2 5151 "bare" [] [] Disabled true true (mkVec2 F32.zero F32.zero) [].

(** A frame in which the user picks item [k] of every combo that has one. *)
Definition choosing_env (k : Z) : Env :=
  mkEnv (fun _ => true) (fun _ => true) (fun _ => false)
        (fun _ current items =>
           if (0 <=? k) && (k <? Z.of_nat (length items))
           then (true, k) else (false, current))
        (fun _ value => (false, value))
        (fun _ => true) te_text
        (fun source => source) (fun source => source)
        (fun _ => example_attrs)
        "4.1" "vendor" (mkVersion 2 0 5) (mkVersion 2 0 5)
        (mkVersion 2 0 1) (mkVersion 2 0 1) "1.50".

(** An atlas of two sprites on one texture. *)
Definition example_atlas : SpriteAtlas :=
  let tex := build_scratch_texture example_env "atlas.png" in
  mkSpriteAtlas 6060 "atlas"
    [("idle"%string,
      mkSprite (mkVec2 F32.half F32.half) (mkIVec2 32 32) (mkIVec2 0 0) tex);
     ("run"%string,
      mkSprite (mkVec2 F32.half F32.half) (mkIVec2 32 32) (mkIVec2 32 0) tex)].

(** A binary32 number that is a number: a zero or a finite value. *)
Definition finite32 (x : float32) : Prop :=
  match x with
  | S754_zero _ | S754_finite _ _ _ => True
  | S754_infinity _ | S754_nan => False
  end.

(** A mesh whose bounding box is the single point (1, 1, 1). *)
Definition point_mesh : Mesh :=
  box_mesh (vec3_of_ints 1 1 1) (vec3_of_ints 1 1 1).

(** The images among the commands of a log. *)
Definition is_image (c : UICmd) : bool :=
  match c with
  | CImage _ _ _ _ _ => true
  | _ => false
  end.

(** The textures of a registry whose image the texture panel shows: those
    whose node is open and that are no cubemaps. *)
Definition texture_shown (env : Env) (tex : Texture) : bool :=
  ui_tree env [node_label (tex_name tex) (tex_addr (tex_attrs tex))]
  && negb (tex_cubemap (tex_attrs tex)).

(** A run that ends with a preview: whatever rows came first, the last
    three commands are the draw of [cmd] by a pass, the image of the
    texture that pass rendered into, and the pop of the node; the pass is
    the one the previews build, and its texture is one of the pool. *)
Definition shows_preview (w : World) (cmd : RenderPass -> UICmd)
    (r : result (unit * World)) : Prop :=
  exists (s' : Inspector) (rows : list UICmd) (t : Texture) (pass : RenderPass),
    r = Ok (tt, mkWorld s' (edit w) (spriteAtlasSelection w)
                  (log w ++ rows
                   ++ [cmd pass;
                       CImage t (previewSize (insp w)) (previewSize (insp w))
                         uv_flip0 uv_flip1;
                       CTreePop])) /\
    In t (offscreenTextures s') /\
    framebuffer s' = Some (rp_framebuffer pass) /\
    fbo_texture (rp_framebuffer pass) = Some t /\
    rp_camera pass = preview_camera /\
    rp_worldLights pass = worldLights s' /\
    rp_clearColor pass = (true, (0, 0, 0, 1)) /\
    rp_gui pass = false.

(** What the rows above a preview keep of the inspector of [w]. *)
Definition preview_frame (k : nat) (w : World) (s : Inspector) : Prop :=
  previews_fit k s /\ time s = time (insp w) /\
  previewSize s = previewSize (insp w).

(** * Properties *)

(** ** Integers, vectors and loops *)

Lemma foldR_app {A S : Type} (body : A -> S -> result S) (l1 l2 : list A) (s : S) :
  foldR body (l1 ++ l2) s = rbind (foldR body l1 s) (foldR body l2).
Proof.
  revert s. induction l1 as [|a l1 IH]; intros s; simpl; [reflexivity|].
  destruct (body a s) as [s'|e]; simpl; [apply IH | reflexivity].
Qed.

Lemma CInt_check_ok (z : Z) :
  CInt.INT_MIN <= z <= CInt.INT_MAX -> CInt.check z = Ok z.
Proof.
  intros H. unfold CInt.check, CInt.in_range.
  destruct (Z.leb_spec CInt.INT_MIN z), (Z.leb_spec z CInt.INT_MAX);
    simpl; (reflexivity || lia).
Qed.

Lemma CInt_add_ok (a b : Z) :
  CInt.INT_MIN <= a + b <= CInt.INT_MAX -> CInt.add a b = Ok (a + b).
Proof. apply CInt_check_ok. Qed.

Lemma CInt_neg_ok (a : Z) :
  CInt.INT_MIN <= - a <= CInt.INT_MAX -> CInt.neg a = Ok (- a).
Proof. apply CInt_check_ok. Qed.

Lemma CInt_rem_ok (a b : Z) : 0 < b -> CInt.rem a b = Ok (Z.rem a b).
Proof.
  intros Hb. unfold CInt.rem.
  destruct (Z.eqb_spec b 0); [lia|].
  destruct (Z.eqb_spec b (-1)); [lia|].
  rewrite andb_false_r. reflexivity.
Qed.

Lemma CInt_rem_nonneg (a b : Z) :
  0 <= a -> 0 < b -> CInt.rem a b = Ok (a mod b).
Proof.
  intros Ha Hb. rewrite CInt_rem_ok by assumption.
  rewrite Z.rem_mod_nonneg by lia. reflexivity.
Qed.

Lemma CInt_min_spec (a b : Z) : CInt.min a b = Z.min a b.
Proof. unfold CInt.min. destruct (Z.ltb_spec b a); lia. Qed.

Lemma CInt_max_spec (a b : Z) : CInt.max a b = Z.max a b.
Proof. unfold CInt.max. destruct (Z.ltb_spec a b); lia. Qed.

Lemma vget_lookup {A : Type} (v : list A) (i : nat) (a : A) :
  v !! i = Some a -> vget v (Z.of_nat i) = Ok a.
Proof.
  intros H. unfold vget.
  destruct (Z.leb_spec 0 (Z.of_nat i)); [|lia].
  rewrite Nat2Z.id, H. reflexivity.
Qed.

Lemma vget_Z {A : Type} (v : list A) (i : Z) (a : A) :
  0 <= i -> v !! Z.to_nat i = Some a -> vget v i = Ok a.
Proof.
  intros Hi H. rewrite <- (Z2Nat.id i) by assumption. apply vget_lookup, H.
Qed.

Lemma vset_ok {A : Type} (v : list A) (i : Z) (x : A) :
  0 <= i < Z.of_nat (length v) -> vset v i x = Ok (<[Z.to_nat i := x]> v).
Proof.
  intros H. unfold vset.
  destruct (Z.leb_spec 0 i), (Z.ltb_spec i (Z.of_nat (length v)));
    simpl; (reflexivity || lia).
Qed.

(** ** Reading the ring for display *)

Lemma mod_shift (fc i n : Z) :
  0 < n -> 0 <= i < n ->
  (- (fc mod n) + (fc + i) mod n + n) mod n = i.
Proof.
  intros Hn Hi.
  pose proof (Z.div_mod fc n ltac:(lia)) as E1.
  pose proof (Z.div_mod (fc + i) n ltac:(lia)) as E2.
  pose proof (Z.mod_pos_bound fc n Hn) as B1.
  pose proof (Z.mod_pos_bound (fc + i) n Hn) as B2.
  symmetry.
  apply (Z.mod_unique_pos _ n (1 + fc / n - (fc + i) / n)); lia.
Qed.

Lemma read_slot_ok (s : Inspector) (i : Z) :
  0 < frames s -> 0 <= frameCount s -> 0 <= i ->
  frameCount s + i <= CInt.INT_MAX ->
  read_slot s i = Ok ((frameCount s + i) mod frames s).
Proof.
  intros Hn Hfc Hi Hmax. unfold read_slot.
  rewrite CInt_add_ok by (unfold CInt.INT_MIN; lia). simpl.
  apply CInt_rem_nonneg; lia.
Qed.

Lemma display_index_ok (s : Inspector) (i : Z) :
  0 < frames s -> 0 <= frameCount s <= CInt.INT_MAX ->
  2 * frames s - 1 <= CInt.INT_MAX ->
  0 <= i < frames s ->
  display_index s ((frameCount s + i) mod frames s) = Ok i.
Proof.
  intros Hn Hfc H2 Hi. unfold display_index.
  pose proof (Z.mod_pos_bound (frameCount s) (frames s) Hn) as B1.
  pose proof (Z.mod_pos_bound (frameCount s + i) (frames s) Hn) as B2.
  rewrite CInt_neg_ok by (unfold CInt.INT_MIN, CInt.INT_MAX in *; lia). simpl.
  rewrite CInt_rem_ok by assumption. simpl.
  rewrite Z.rem_opp_l by lia.
  rewrite Z.rem_mod_nonneg by lia.
  rewrite CInt_add_ok by (unfold CInt.INT_MIN, CInt.INT_MAX in *; lia). simpl.
  rewrite CInt_add_ok by (unfold CInt.INT_MIN, CInt.INT_MAX in *; lia). simpl.
  rewrite CInt_rem_nonneg by lia.
  f_equal. apply mod_shift; lia.
Qed.

(** The chronological reading, position by position. *)
Lemma chronological_lookup {A : Type} (s : Inspector) (ring : list A) (i : nat) :
  0 <= frameCount s -> 0 < frames s ->
  length ring = Z.to_nat (frames s) ->
  (i < length ring)%nat ->
  chronological s ring !! i
  = ring !! Z.to_nat ((frameCount s + Z.of_nat i) mod frames s).
Proof.
  intros Hfc Hn Hlen Hi. unfold chronological.
  rewrite lookup_rotate_r by assumption.
  unfold rotate_nat_add. rewrite Hlen, !Z2Nat.id by lia. reflexivity.
Qed.

Lemma length_chronological {A : Type} (s : Inspector) (ring : list A) :
  length (chronological s ring) = length ring.
Proof. apply length_rotate. Qed.

(** The loop of a plot over a series [vals] that [sample] yields in display
    order: [data] receives the series, [max] and [sum] fold over it. *)
Lemma plot_loop_prefix (sample : Z -> result float32) (s : Inspector)
    (vals : list float32) (k : nat) :
  0 < frames s -> 0 <= frameCount s ->
  frameCount s + frames s - 1 <= CInt.INT_MAX ->
  2 * frames s - 1 <= CInt.INT_MAX ->
  length (data s) = Z.to_nat (frames s) ->
  length vals = Z.to_nat (frames s) ->
  (forall (i : nat) (t : float32), vals !! i = Some t ->
     sample ((frameCount s + Z.of_nat i) mod frames s) = Ok t) ->
  (k <= length vals)%nat ->
  foldR (fun i acc =>
           let '(d, mx, sum) := acc in
           let* idx := read_slot s i in
           let* t := sample idx in
           let* pos := display_index s idx in
           let* d' := vset d pos t in
           Ok (d', F32.max mx t, F32.add sum t))
        (seqZ 0 (Z.of_nat k)) (data s, F32.zero, F32.zero)
  = Ok (take k vals ++ drop k (data s),
        foldl F32.max F32.zero (take k vals),
        foldl F32.add F32.zero (take k vals)).
Proof.
  intros Hn Hfc Hmax H2 Hd Hv Hs.
  induction k as [|k IH]; intros Hk.
  - simpl. rewrite drop_0. reflexivity.
  - rewrite seqZ_S, Z.add_0_l, foldR_app, IH by lia.
    cbn [rbind foldR].
    destruct (lookup_lt_is_Some_2 vals k ltac:(lia)) as [t Ht].
    rewrite read_slot_ok by lia. simpl.
    rewrite (Hs k t Ht). simpl.
    rewrite display_index_ok by lia. simpl.
    rewrite vset_ok
      by (rewrite length_app, length_take, length_drop; lia).
    simpl. rewrite Nat2Z.id.
    rewrite (take_S_r vals k t Ht), !foldl_app. simpl.
    f_equal. f_equal. f_equal.
    rewrite insert_app_r_alt by (rewrite length_take; lia).
    rewrite length_take, Nat.min_l, Nat.sub_diag by lia.
    destruct (lookup_lt_is_Some_2 (data s) k ltac:(lia)) as [x Hx].
    rewrite (drop_S (data s) x k Hx). simpl.
    rewrite <- app_assoc. reflexivity.
Qed.

Lemma plot_loop_ok (sample : Z -> result float32) (s : Inspector)
    (vals : list float32) :
  0 < frames s -> 0 <= frameCount s ->
  frameCount s + frames s - 1 <= CInt.INT_MAX ->
  2 * frames s - 1 <= CInt.INT_MAX ->
  length (data s) = Z.to_nat (frames s) ->
  length vals = Z.to_nat (frames s) ->
  (forall (i : nat) (t : float32), vals !! i = Some t ->
     sample ((frameCount s + Z.of_nat i) mod frames s) = Ok t) ->
  plot_loop sample s
  = Ok (vals, foldl F32.max F32.zero vals, foldl F32.add F32.zero vals).
Proof.
  intros Hn Hfc Hmax H2 Hd Hv Hs. unfold plot_loop.
  replace (seqZ 0 (frames s)) with (seqZ 0 (Z.of_nat (length vals)))
    by (f_equal; lia).
  rewrite (plot_loop_prefix sample s vals (length vals)) by (assumption || lia).
  rewrite take_ge, drop_ge, app_nil_r by lia. reflexivity.
Qed.

Lemma sample_milliseconds_chronological (s : Inspector) (i : nat) (t : float32) :
  ring_wf s ->
  chronological s (milliseconds s) !! i = Some t ->
  sample_milliseconds s ((frameCount s + Z.of_nat i) mod frames s) = Ok t.
Proof.
  intros (Hn & Hfc & _ & Hms & _) Ht.
  pose proof (lookup_lt_Some _ _ _ Ht) as Hi.
  rewrite length_chronological in Hi.
  rewrite chronological_lookup in Ht by assumption.
  unfold sample_milliseconds. apply vget_Z; [|exact Ht].
  apply Z.mod_pos_bound, Hn.
Qed.

(** ** [update] *)

Lemma update_ok (rs : RenderStats) (tick : Z) (s : Inspector) :
  ring_wf s -> frameCount s < CInt.INT_MAX ->
  update rs tick s
  = Ok (set_ring (frameCount s + 1)
          (<[Z.to_nat (frameCount s mod frames s) := rs]> (stats s))
          (<[Z.to_nat (frameCount s mod frames s) := duration_ms tick (lastTick s)]>
             (milliseconds s))
          (set_clock tick (F32.add (time s) (duration_ms tick (lastTick s)))
             (set_usedTextures 0 s))).
Proof.
  intros (Hn & Hfc & Hst & Hms & _) Hmax. unfold update. cbn -[Z.rem].
  pose proof (Z.mod_pos_bound (frameCount s) (frames s) Hn) as B.
  rewrite CInt_rem_nonneg by assumption. cbn [rbind].
  rewrite vset_ok by lia. cbn [rbind].
  rewrite vset_ok by lia. cbn [rbind].
  rewrite CInt_add_ok by (unfold CInt.INT_MIN, CInt.INT_MAX in *; lia).
  reflexivity.
Qed.

(** Writing the newest value into slot [frameCount mod frames] and then
    counting the frame shifts the chronological reading by one. *)
Lemma rotate_write {A : Type} (ring : list A) (fc : Z) (v : A) :
  0 <= fc -> (0 < length ring)%nat ->
  rotate (Z.to_nat (fc + 1))
         (<[Z.to_nat (fc mod Z.of_nat (length ring)) := v]> ring)
  = drop 1 (rotate (Z.to_nat fc) ring) ++ [v].
Proof.
  intros Hfc Hn. set (n := Z.of_nat (length ring)).
  assert (Hn' : 0 < n) by (unfold n; lia).
  pose proof (Z.mod_pos_bound fc n Hn') as B0.
  apply list_eq. intros i.
  destruct (Nat.lt_ge_cases i (length ring)) as [Hi|Hi].
  - rewrite lookup_rotate_r by (rewrite length_insert; assumption).
    rewrite length_insert. unfold rotate_nat_add. fold n.
    rewrite Z2Nat.id by lia.
    destruct (Nat.eq_dec (S i) (length ring)) as [Hlast|Hnlast].
    + replace ((fc + 1 + Z.of_nat i) mod n) with (fc mod n).
      2:{ replace (fc + 1 + Z.of_nat i) with (fc + 1 * n) by (unfold n; lia).
          rewrite Z.mod_add by lia. reflexivity. }
      rewrite list_lookup_insert_eq by lia.
      rewrite lookup_app_r by (rewrite length_drop, length_rotate; lia).
      rewrite length_drop, length_rotate.
      replace (i - (length ring - 1))%nat with 0%nat by lia. reflexivity.
    + pose proof (Z.mod_pos_bound (fc + 1 + Z.of_nat i) n Hn') as B1.
      rewrite list_lookup_insert_ne.
      2:{ intros E. apply Z2Nat.inj in E; [|lia..].
          pose proof (Z.div_mod fc n ltac:(lia)) as E1.
          pose proof (Z.div_mod (fc + 1 + Z.of_nat i) n ltac:(lia)) as E2.
          assert (Hd : n * ((fc + 1 + Z.of_nat i) / n - fc / n) = 1 + Z.of_nat i)
            by lia.
          assert (0 < (fc + 1 + Z.of_nat i) / n - fc / n < 1) by (unfold n in *; nia).
          lia. }
      rewrite lookup_app_l by (rewrite length_drop, length_rotate; lia).
      rewrite lookup_drop, lookup_rotate_r by lia.
      unfold rotate_nat_add. fold n. rewrite Z2Nat.id by lia.
      replace (fc + Z.of_nat (1 + i)) with (fc + 1 + Z.of_nat i) by lia.
      reflexivity.
  - rewrite !lookup_ge_None_2; [reflexivity| |].
    + rewrite length_app, length_drop, length_rotate. simpl. lia.
    + rewrite length_rotate, length_insert. lia.
Qed.

Lemma last_n_shift {A : Type} (n : nat) (c rest : list A) (v : A) :
  length c = n -> (0 < n)%nat ->
  last_n n ((drop 1 c ++ [v]) ++ rest) = last_n n (c ++ v :: rest).
Proof.
  intros Hc Hn. unfold last_n.
  destruct c as [|x c]; [simpl in Hc; lia|].
  change (drop 1 (x :: c)) with c.
  rewrite <- app_assoc. change ([v] ++ rest) with (v :: rest).
  change ((x :: c) ++ v :: rest) with (x :: (c ++ v :: rest)).
  cbn [length] in *. rewrite length_app. cbn [length].
  replace (length c + S (length rest) - n)%nat with (length rest) by lia.
  replace (S (length c + S (length rest)) - n)%nat with (S (length rest)) by lia.
  reflexivity.
Qed.

(** A run of [update]: it is defined as long as the frame count fits an
    [int], and each ring then reads, chronologically, as the last [frames]
    entries of what it read before followed by what the run recorded. *)
Lemma updates_ok (fs : list Frame) : forall s : Inspector,
  ring_wf s ->
  frameCount s + Z.of_nat (length fs) <= CInt.INT_MAX ->
  exists s' : Inspector,
    updates fs s = Ok s' /\ ring_wf s' /\ frames s' = frames s /\
    frameCount s' = frameCount s + Z.of_nat (length fs) /\
    data s' = data s /\
    chronological s' (milliseconds s')
    = last_n (Z.to_nat (frames s))
        (chronological s (milliseconds s) ++ recorded_ms (lastTick s) fs) /\
    chronological s' (stats s')
    = last_n (Z.to_nat (frames s)) (chronological s (stats s) ++ map fst fs).
Proof.
  induction fs as [|[rs tick] fs IH]; intros s Hwf Hmax.
  - exists s. pose proof Hwf as (Hn & Hfc & Hst & Hms & Hd).
    simpl. rewrite !app_nil_r. unfold last_n.
    rewrite !length_chronological, Hst, Hms, Nat.sub_diag, !drop_0.
    repeat split; (assumption || lia || reflexivity).
  - pose proof Hwf as (Hn & Hfc & Hst & Hms & Hd).
    cbn [length] in Hmax.
    unfold updates. cbn [foldR fst snd].
    rewrite update_ok by (assumption || lia). cbn [rbind].
    set (s1 := set_ring _ _ _ _).
    assert (Hwf1 : ring_wf s1).
    { unfold ring_wf, s1. cbn. rewrite !length_insert.
      repeat split; (assumption || lia). }
    destruct (IH s1 Hwf1) as (s' & Hrun & Hwf' & Hfr & Hcnt & Hdata & Hm & Hs).
    { unfold s1. cbn. lia. }
    exists s'. split; [exact Hrun|]. split; [exact Hwf'|].
    split; [exact Hfr|]. split; [rewrite Hcnt; unfold s1; cbn; lia|].
    split; [exact Hdata|].
    assert (Hlen : forall A (ring : list A),
               length ring = Z.to_nat (frames s) ->
               frames s = Z.of_nat (length ring)) by (intros; lia).
    split.
    + rewrite Hm. unfold s1 at 2 3 4, chronological. cbn.
      rewrite (Hlen _ _ Hms) at 2.
      rewrite rotate_write by lia.
      apply last_n_shift; [rewrite length_rotate; exact Hms | lia].
    + rewrite Hs. unfold s1 at 2 3, chronological. cbn.
      rewrite (Hlen _ _ Hst) at 2.
      rewrite rotate_write by lia.
      apply last_n_shift; [rewrite length_rotate; exact Hst | lia].
Qed.

Lemma Inspector_new_ok (frames_ : Z) (sdl : option SDLRenderer) (now : Z)
    (time0 previewSize_ : float32) :
  0 < frames_ ->
  Inspector_new frames_ sdl now time0 previewSize_
  = Ok (mkInspector frames_ 0 sdl
          (replicate (Z.to_nat frames_) RenderStats_zero)
          (replicate (Z.to_nat frames_) F32.zero)
          (replicate (Z.to_nat frames_) F32.zero)
          now time0 0 [] None WorldLights_empty None previewSize_).
Proof.
  intros Hn. unfold Inspector_new, vresize_empty.
  destruct (Z.ltb_spec frames_ 0); [lia|]. reflexivity.
Qed.

Lemma Inspector_new_wf (frames_ : Z) (sdl : option SDLRenderer) (now : Z)
    (time0 previewSize_ : float32) (s : Inspector) :
  0 < frames_ ->
  Inspector_new frames_ sdl now time0 previewSize_ = Ok s ->
  ring_wf s /\ frames s = frames_ /\ frameCount s = 0 /\ lastTick s = now /\
  milliseconds s = replicate (Z.to_nat frames_) F32.zero /\
  stats s = replicate (Z.to_nat frames_) RenderStats_zero.
Proof.
  intros Hn H. rewrite Inspector_new_ok in H by assumption.
  injection H as <-. unfold ring_wf. cbn. rewrite !length_replicate.
  repeat split; (reflexivity || lia).
Qed.

Lemma length_recorded_ms (last : Z) (fs : list Frame) :
  length (recorded_ms last fs) = length fs.
Proof.
  revert last. induction fs as [|f fs IH]; intros last; simpl;
    [reflexivity | f_equal; apply IH].
Qed.

Lemma last_n_replicate {A : Type} (n : nat) (z : A) (vals : list A) :
  last_n n (replicate n z ++ vals)
  = replicate (n - Nat.min (length vals) n) z
    ++ last_n (Nat.min (length vals) n) vals.
Proof.
  unfold last_n. rewrite length_app, length_replicate.
  replace (n + length vals - n)%nat with (length vals) by lia.
  destruct (Nat.le_gt_cases (length vals) n) as [Hle|Hgt].
  - rewrite Nat.min_l by assumption.
    rewrite drop_app_le by (rewrite length_replicate; assumption).
    rewrite drop_replicate, Nat.sub_diag, drop_0. reflexivity.
  - rewrite Nat.min_r by lia.
    rewrite drop_app_ge by (rewrite length_replicate; lia).
    rewrite length_replicate, Nat.sub_diag. reflexivity.
Qed.

Lemma length_last_n {A : Type} (n : nat) (l : list A) :
  (n <= length l)%nat -> length (last_n n l) = n.
Proof. intros H. unfold last_n. rewrite length_drop. lia. Qed.

(** Slots that were never written hold 0 and add nothing to the sum. *)
Lemma sum_skips_zeros (k : nat) (l : list float32) :
  foldl F32.add F32.zero (replicate k F32.zero ++ l)
  = foldl F32.add F32.zero l.
Proof.
  induction k as [|k IH]; [reflexivity|].
  cbn [replicate app foldl].
  change (F32.add F32.zero F32.zero) with F32.zero. exact IH.
Qed.

(** After [f] frames the milliseconds ring reads, chronologically, as zeros
    followed by the last [min f frames] recorded times. *)
Lemma milliseconds_after_updates (frames_ : Z) (sdl : option SDLRenderer)
    (now : Z) (time0 previewSize_ : float32) (fs : list Frame) :
  0 < frames_ -> Z.of_nat (length fs) <= CInt.INT_MAX ->
  exists s0 s : Inspector,
    Inspector_new frames_ sdl now time0 previewSize_ = Ok s0 /\
    updates fs s0 = Ok s /\ ring_wf s /\ frames s = frames_ /\
    frameCount s = Z.of_nat (length fs) /\
    chronological s (milliseconds s)
    = replicate (Z.to_nat frames_ - Nat.min (length fs) (Z.to_nat frames_))
                F32.zero
      ++ last_n (Nat.min (length fs) (Z.to_nat frames_)) (recorded_ms now fs).
Proof.
  intros Hn Hmax.
  eexists. destruct (Inspector_new_wf frames_ sdl now time0 previewSize_ _ Hn
                       (Inspector_new_ok frames_ sdl now time0 previewSize_ Hn))
    as (Hwf0 & Hfr0 & Hfc0 & Htick0 & Hms0 & Hst0).
  destruct (updates_ok fs _ Hwf0) as (s & Hrun & Hwf & Hfr & Hcnt & _ & Hm & _).
  { rewrite Hfc0. lia. }
  exists s. split; [apply Inspector_new_ok, Hn|].
  split; [exact Hrun|]. split; [exact Hwf|].
  split; [rewrite Hfr; exact Hfr0|].
  split; [rewrite Hcnt, Hfc0; lia|].
  rewrite Hm, Hfr0, Htick0. unfold chronological at 1.
  rewrite Hms0, rotate_replicate, last_n_replicate, length_recorded_ms.
  reflexivity.
Qed.

Lemma update_clock (rs : RenderStats) (tick : Z) (s s' : Inspector) :
  update rs tick s = Ok s' ->
  lastTick s' = tick /\ usedTextures s' = 0 /\
  offscreenTextures s' = offscreenTextures s /\ data s' = data s /\
  shaderEdit s' = shaderEdit s.
Proof.
  unfold update. cbn -[Z.rem CInt.rem CInt.add].
  destruct (CInt.rem _ _) as [slot|]; [|discriminate]. cbn [rbind].
  destruct (vset (stats s) _ _) as [st|]; [|discriminate]. cbn [rbind].
  destruct (vset (milliseconds s) _ _) as [ms|]; [|discriminate]. cbn [rbind].
  destruct (CInt.add _ _) as [fc|]; [|discriminate]. cbn [rbind].
  intros H. injection H as <-. cbn. repeat split; reflexivity.
Qed.

Lemma updates_lastTick (fs : list Frame) : forall s s' : Inspector,
  updates fs s = Ok s' ->
  lastTick s' = default (lastTick s) (last (map snd fs)).
Proof.
  induction fs as [|[rs tick] fs IH]; intros s s' H.
  - injection H as <-. reflexivity.
  - unfold updates in H. cbn [foldR fst snd] in H.
    destruct (update rs tick s) as [s1|] eqn:E; [|discriminate].
    cbn [rbind] in H. apply IH in H. rewrite H.
    apply update_clock in E as (-> & _).
    destruct fs as [|f' fs]; [reflexivity|].
    cbn [map snd]. rewrite last_cons_cons, last_cons.
    destruct (last (map snd fs)); reflexivity.
Qed.

(** C7: a call of [update] after [f] earlier calls finds [frameCount = f]
    and the clock at the reading of the call before.  It measures the time
    since that reading, [(tick - lastTick) / 1000000] as a [float] count of
    milliseconds, adds it to [time] and keeps [tick] as the new reading;
    it stores the current Frame Stats record and the measured time in slot
    [f mod frames] of the two rings and leaves every other slot as it was;
    and only then counts the frame: [frameCount] becomes [f + 1].
    ([frameCount] is an [int]: this holds while [f] is below [INT_MAX].) *)
Theorem update_snapshots_then_counts
    (frames_ : Z) (sdl : option SDLRenderer) (now : Z)
    (time0 previewSize_ : float32) (fs : list Frame)
    (rs : RenderStats) (tick : Z) :
  0 < frames_ ->
  Z.of_nat (length fs) < CInt.INT_MAX ->
  exists s0 s s' : Inspector,
    Inspector_new frames_ sdl now time0 previewSize_ = Ok s0 /\
    updates fs s0 = Ok s /\
    frameCount s = Z.of_nat (length fs) /\
    lastTick s = default now (last (map snd fs)) /\
    update rs tick s = Ok s' /\
    let slot := Z.to_nat (Z.of_nat (length fs) mod frames_) in
    let deltaTime :=
      F32.div (F32.of_int (tick - default now (last (map snd fs))))
              (F32.of_int 1000000) in
    (slot < Z.to_nat frames_)%nat /\
    stats s' !! slot = Some rs /\
    milliseconds s' !! slot = Some deltaTime /\
    (forall j : nat, j <> slot ->
       stats s' !! j = stats s !! j /\
       milliseconds s' !! j = milliseconds s !! j) /\
    length (stats s') = Z.to_nat frames_ /\
    length (milliseconds s') = Z.to_nat frames_ /\
    frameCount s' = Z.of_nat (length fs) + 1 /\
    frames s' = frames_ /\
    lastTick s' = tick /\
    time s' = F32.add (time s) deltaTime /\
    usedTextures s' = 0 /\
    data s' = data s /\
    offscreenTextures s' = offscreenTextures s /\
    framebuffer s' = framebuffer s /\
    shaderEdit s' = shaderEdit s.
Proof.
  intros Hn Hmax.
  destruct (milliseconds_after_updates frames_ sdl now time0 previewSize_ fs Hn)
    as (s0 & s & Hnew & Hrun & Hwf & Hfr & Hcnt & _); [lia|].
  assert (Htick : lastTick s = default now (last (map snd fs))).
  { rewrite (updates_lastTick fs s0 s Hrun).
    apply (Inspector_new_wf _ _ _ _ _ _ Hn) in Hnew as (_ & _ & _ & -> & _).
    reflexivity. }
  pose proof (update_ok rs tick s Hwf ltac:(lia)) as Hup.
  destruct Hwf as (_ & _ & Hst & Hms & _).
  pose proof (Z.mod_pos_bound (Z.of_nat (length fs)) frames_ Hn) as Hslot.
  eexists s0, s, _. split; [exact Hnew|]. split; [exact Hrun|].
  split; [exact Hcnt|]. split; [exact Htick|]. split; [exact Hup|].
  cbv zeta. unfold duration_ms.
  cbn [stats milliseconds frameCount frames lastTick time usedTextures data
       offscreenTextures framebuffer shaderEdit set_ring set_clock
       set_usedTextures].
  rewrite Hcnt, Hfr, Htick.
  split; [lia|].
  split; [apply list_lookup_insert_eq; rewrite Hst, Hfr; lia|].
  split; [apply list_lookup_insert_eq; rewrite Hms, Hfr; lia|].
  split.
  { intros j Hj. split; apply list_lookup_insert_ne; congruence. }
  rewrite !length_insert, Hst, Hms, Hfr.
  repeat split; reflexivity.
Qed.

Lemma update_snapshots_then_counts_witness :
  exists s0 s s' : Inspector,
    Inspector_new 4 None 0 F32.zero (F32.of_int 100) = Ok s0 /\
    updates example_frames s0 = Ok s /\
    frameCount s = 6 /\
    lastTick s = 96000000 /\
    update (mkRenderStats 7 1 1 1 1000 2000) 112000000 s = Ok s' /\
    (2 < 4)%nat /\
    stats s' !! 2%nat = Some (mkRenderStats 7 1 1 1 1000 2000) /\
    milliseconds s' !! 2%nat
    = Some (F32.div (F32.of_int (112000000 - 96000000)) (F32.of_int 1000000)) /\
    (forall j : nat, j <> 2%nat ->
       stats s' !! j = stats s !! j /\
       milliseconds s' !! j = milliseconds s !! j) /\
    length (stats s') = 4%nat /\
    length (milliseconds s') = 4%nat /\
    frameCount s' = 7 /\
    frames s' = 4 /\
    lastTick s' = 112000000 /\
    time s'
    = F32.add (time s)
        (F32.div (F32.of_int (112000000 - 96000000)) (F32.of_int 1000000)) /\
    usedTextures s' = 0 /\
    data s' = data s /\
    offscreenTextures s' = offscreenTextures s /\
    framebuffer s' = framebuffer s /\
    shaderEdit s' = shaderEdit s.
Proof.
  apply (update_snapshots_then_counts 4 None 0 F32.zero (F32.of_int 100)
           example_frames (mkRenderStats 7 1 1 1 1000 2000) 112000000).
  - reflexivity.
  - vm_compute. reflexivity.
Defined.

(** C2: for a capacity [frames > 0], a frame count and a display position
    [i] in [[0, frames)], the loop reads slot [(frameCount + i) mod frames]
    and the remapping [(-frameCount%frames + idx + frames) % frames] sends
    that slot to position [i]; so after the loop [data] is the ring read in
    chronological order.  (The arithmetic is on [int]: [frameCount + i] and
    [idx + frames] must fit.) *)
Theorem display_position_is_chronological (s : Inspector) (i : Z) :
  ring_wf s ->
  frameCount s + frames s - 1 <= CInt.INT_MAX ->
  2 * frames s - 1 <= CInt.INT_MAX ->
  0 <= i < frames s ->
  read_slot s i = Ok ((frameCount s + i) mod frames s) /\
  display_index s ((frameCount s + i) mod frames s) = Ok i /\
  exists (d : list float32) (mx sum : float32),
    plot_loop (sample_milliseconds s) s = Ok (d, mx, sum) /\
    d = chronological s (milliseconds s) /\
    d !! Z.to_nat i
    = milliseconds s !! Z.to_nat ((frameCount s + i) mod frames s).
Proof.
  intros Hwf Hmax H2 Hi. pose proof Hwf as (Hn & Hfc & Hst & Hms & Hd).
  split; [apply read_slot_ok; lia|].
  split; [apply display_index_ok; lia|].
  eexists _, _, _. split; [|split; [reflexivity|]].
  - apply plot_loop_ok; try (assumption || lia).
    + rewrite length_chronological. exact Hms.
    + intros k t. apply sample_milliseconds_chronological, Hwf.
  - rewrite chronological_lookup by (assumption || lia).
    rewrite Z2Nat.id by lia. reflexivity.
Qed.

Lemma display_position_is_chronological_witness :
  read_slot example_running 1 = Ok 3 /\
  display_index example_running 3 = Ok 1 /\
  exists (d : list float32) (mx sum : float32),
    plot_loop (sample_milliseconds example_running) example_running
    = Ok (d, mx, sum) /\
    d = chronological example_running (milliseconds example_running) /\
    d !! 1%nat = milliseconds example_running !! 3%nat.
Proof.
  apply (display_position_is_chronological example_running 1).
  - repeat split; vm_compute; (reflexivity || discriminate).
  - vm_compute. discriminate.
  - vm_compute. discriminate.
  - split; vm_compute; (reflexivity || discriminate).
Defined.

Lemma running_avg_mean (s : Inspector) (zeros : nat) (recent : list float32) :
  0 < frames s ->
  Z.of_nat (length recent) = Z.min (frameCount s) (frames s) ->
  running_avg s (foldl F32.add F32.zero (replicate zeros F32.zero ++ recent))
  = arithmetic_mean recent.
Proof.
  intros Hn Hlen. unfold running_avg, arithmetic_mean.
  rewrite sum_skips_zeros, CInt_min_spec, <- Hlen.
  destruct (Z.ltb_spec 0 (frameCount s)) as [Hpos|Hzero].
  - destruct recent as [|t recent]; [simpl in Hlen; lia | reflexivity].
  - destruct recent as [|t recent]; [reflexivity | simpl in Hlen; lia].
Qed.

(** C1: for a capacity [frames > 0] and [f] calls of [update], the plot
    loop sums the values of all [frames] slots, read in chronological order
    (zeros for the slots never written, then the last [min f frames]
    recorded times), and the average shown in the plot's label,
    [sum / min(frameCount, frames)], is the arithmetic mean of the last
    [min f frames] recorded times.  (The counters are [int]s:
    [f + frames - 1] and [2*frames - 1] must fit.) *)
Theorem running_average_is_mean_of_recent
    (frames_ : Z) (sdl : option SDLRenderer) (now : Z)
    (time0 previewSize_ : float32) (fs : list Frame)
    (label : float32 -> float32 -> Text) (overlay : string) :
  0 < frames_ ->
  2 * frames_ - 1 <= CInt.INT_MAX ->
  Z.of_nat (length fs) + frames_ - 1 <= CInt.INT_MAX ->
  exists s0 s : Inspector,
    Inspector_new frames_ sdl now time0 previewSize_ = Ok s0 /\
    updates fs s0 = Ok s /\
    let m := Nat.min (length fs) (Z.to_nat frames_) in
    let recent := last_n m (recorded_ms now fs) in
    let shown := replicate (Z.to_nat frames_ - m) F32.zero ++ recent in
    let mx := foldl F32.max F32.zero shown in
    let sum := foldl F32.add F32.zero shown in
    plot_loop (sample_milliseconds s) s = Ok (shown, mx, sum) /\
    running_avg s sum = arithmetic_mean recent /\
    plot (sample_milliseconds s) label overlay s
    = Ok (CPlotLines (label (arithmetic_mean recent) mx) shown frames_ overlay
            (F32.of_int (-1)) (F32.mul mx (F32.literal 12 10)),
          set_data shown s).
Proof.
  intros Hn H2 Hmax.
  destruct (milliseconds_after_updates frames_ sdl now time0 previewSize_ fs Hn)
    as (s0 & s & Hnew & Hrun & Hwf & Hfr & Hcnt & Hchrono); [lia|].
  exists s0, s. split; [exact Hnew|]. split; [exact Hrun|].
  cbv zeta.
  pose proof Hwf as (_ & Hfc & Hst & Hms & Hd).
  set (m := Nat.min (length fs) (Z.to_nat frames_)) in *.
  set (recent := last_n m (recorded_ms now fs)) in *.
  set (shown := replicate (Z.to_nat frames_ - m) F32.zero ++ recent) in *.
  assert (Hrecent : length recent = m).
  { apply length_last_n. rewrite length_recorded_ms. unfold m. lia. }
  assert (Hshown : length shown = Z.to_nat (frames s)).
  { unfold shown. rewrite length_app, length_replicate, Hrecent, Hfr.
    unfold m. lia. }
  assert (Hloop : plot_loop (sample_milliseconds s) s
                  = Ok (shown, foldl F32.max F32.zero shown,
                        foldl F32.add F32.zero shown)).
  { apply plot_loop_ok; try (assumption || lia).
    intros i t Ht. apply sample_milliseconds_chronological; [exact Hwf|].
    rewrite Hchrono. exact Ht. }
  assert (Havg : forall s', frames s' = frames s -> frameCount s' = frameCount s ->
            running_avg s' (foldl F32.add F32.zero shown)
            = arithmetic_mean recent).
  { intros s' E1 E2. apply running_avg_mean; [lia|].
    rewrite Hrecent, E1, E2, Hcnt, Hfr. unfold m. lia. }
  split; [exact Hloop|]. split; [apply Havg; reflexivity|].
  unfold plot. rewrite Hloop. cbn [rbind].
  rewrite (Havg (set_data shown s)) by reflexivity.
  cbn [frames set_data]. rewrite Hfr.
  rewrite take_ge by (rewrite Hshown, Hfr; lia). reflexivity.
Qed.

Lemma running_average_is_mean_of_recent_witness :
  exists s0 s : Inspector,
    Inspector_new 4 None 0 F32.zero (F32.of_int 100) = Ok s0 /\
    updates example_frames s0 = Ok s /\
    let recent := last_n 4 (recorded_ms 0 example_frames) in
    let mx := foldl F32.max F32.zero recent in
    let sum := foldl F32.add F32.zero recent in
    plot_loop (sample_milliseconds s) s = Ok (recent, mx, sum) /\
    running_avg s sum = arithmetic_mean recent /\
    plot (sample_milliseconds s) (fun avg mx => Fmt "%f %f" [AFloat avg; AFloat mx])
         "Milliseconds" s
    = Ok (CPlotLines (Fmt "%f %f" [AFloat (arithmetic_mean recent); AFloat mx])
            recent 4 "Milliseconds" (F32.of_int (-1))
            (F32.mul mx (F32.literal 12 10)),
          set_data recent s).
Proof.
  apply (running_average_is_mean_of_recent 4 None 0 F32.zero (F32.of_int 100)
           example_frames
           (fun avg mx => Fmt "%f %f" [AFloat avg; AFloat mx]) "Milliseconds").
  - reflexivity.
  - vm_compute. discriminate.
  - vm_compute. discriminate.
Defined.

(** ** The pool of scratch textures *)

Lemma to_size_t_nonneg (a : Z) :
  0 <= a <= CInt.INT_MAX -> CInt.to_size_t a = a.
Proof.
  intros H. unfold CInt.to_size_t. apply Z.mod_small.
  unfold CInt.INT_MAX in H. lia.
Qed.

Lemma getTmpTexture_cached (env : Env) (s : Inspector) (u : nat) (t : Texture) :
  usedTextures s = Z.of_nat u -> Z.of_nat u < CInt.INT_MAX ->
  offscreenTextures s !! u = Some t ->
  getTmpTexture env s = Ok (t, set_usedTextures (Z.of_nat (S u)) s).
Proof.
  intros Hu Hmax Ht. unfold getTmpTexture.
  pose proof (lookup_lt_Some _ _ _ Ht) as Hlt.
  rewrite to_size_t_nonneg by lia.
  destruct (Z.ltb_spec (usedTextures s) (Z.of_nat (length (offscreenTextures s))));
    [|lia].
  rewrite CInt_add_ok by (unfold CInt.INT_MIN, CInt.INT_MAX in *; lia).
  cbn [rbind]. rewrite Hu, (vget_lookup _ _ _ Ht). cbn [rbind].
  do 3 f_equal. lia.
Qed.

Lemma getTmpTexture_new (env : Env) (s : Inspector) :
  usedTextures s = Z.of_nat (length (offscreenTextures s)) ->
  usedTextures s < CInt.INT_MAX ->
  let t := build_scratch_texture env
             ("SRE Inspector Tex #"
              ++ size_to_string (length (offscreenTextures s))) in
  getTmpTexture env s
  = Ok (t, set_usedTextures (Z.of_nat (S (length (offscreenTextures s))))
             (set_offscreenTextures (offscreenTextures s ++ [t]) s)).
Proof.
  intros Hu Hmax. cbv zeta. unfold getTmpTexture.
  rewrite to_size_t_nonneg by lia.
  destruct (Z.ltb_spec (usedTextures s) (Z.of_nat (length (offscreenTextures s))));
    [lia|].
  cbn [usedTextures set_offscreenTextures].
  rewrite CInt_add_ok by (unfold CInt.INT_MIN, CInt.INT_MAX in *; lia).
  cbn [rbind]. do 3 f_equal. lia.
Qed.

(** [m] requests when [u] of the [p] pooled textures are already handed
    out: the pooled ones from index [u] on come first, then one new texture
    per request that is left. *)
Lemma requests_ok (env : Env) (m : nat) : forall (s : Inspector) (u : nat),
  usedTextures s = Z.of_nat u ->
  (u <= length (offscreenTextures s))%nat ->
  Z.of_nat (u + m) <= CInt.INT_MAX ->
  let p := length (offscreenTextures s) in
  let fresh := new_textures env p (m - (p - u)) in
  exists s' : Inspector,
    requests env m s = Ok (take m (drop u (offscreenTextures s)) ++ fresh, s') /\
    offscreenTextures s' = offscreenTextures s ++ fresh /\
    usedTextures s' = Z.of_nat (u + m) /\
    frameCount s' = frameCount s /\ shaderEdit s' = shaderEdit s.
Proof.
  induction m as [|m IH]; intros s u Hu Hle Hmax; cbv zeta.
  - exists s. rewrite Nat.add_0_r, Nat.sub_0_l, take_0. cbn [requests].
    unfold new_textures. cbn [seq map app]. rewrite app_nil_r. auto.
  - destruct (Nat.eq_dec u (length (offscreenTextures s))) as [Hfull|Hfree].
    + cbn [requests].
      rewrite getTmpTexture_new by lia. cbn [rbind].
      set (t := build_scratch_texture _ _).
      set (s1 := set_usedTextures _ _).
      destruct (IH s1 (S u)) as (s' & Hreq & Hpool & Hused & Hfc & Hed).
      { unfold s1. cbn. lia. }
      { unfold s1. cbn. rewrite length_app. cbn. lia. }
      { lia. }
      exists s'. revert Hreq Hpool. unfold s1 at 2 3 4 5 6. cbn.
      rewrite length_app. cbn [length].
      rewrite Hfull.
      replace (length (offscreenTextures s) + 1
               - S (length (offscreenTextures s)))%nat with 0%nat by lia.
      rewrite !Nat.sub_diag, !Nat.sub_0_r.
      rewrite !drop_ge by (rewrite ?length_app; cbn; lia).
      rewrite !take_nil. cbn [app].
      intros -> ->. cbn [rbind].
      unfold new_textures. cbn [seq map]. fold t.
      rewrite Nat.add_1_r, <- app_assoc.
      repeat split; try reflexivity; try assumption.
      rewrite Hused, Hfull. f_equal. lia.
    + cbn [requests].
      destruct (lookup_lt_is_Some_2 (offscreenTextures s) u ltac:(lia)) as [t Ht].
      rewrite (getTmpTexture_cached env s u t) by (assumption || lia).
      cbn [rbind]. set (s1 := set_usedTextures _ _).
      destruct (IH s1 (S u)) as (s' & Hreq & Hpool & Hused & Hfc & Hed).
      { reflexivity. }
      { unfold s1. cbn. lia. }
      { lia. }
      exists s'. revert Hreq Hpool. unfold s1 at 2 3 4 5 6. cbn.
      replace (m - (length (offscreenTextures s) - S u))%nat
        with (S m - (length (offscreenTextures s) - u))%nat by lia.
      intros -> ->. cbn [rbind].
      rewrite (drop_S _ _ _ Ht). cbn [take app].
      repeat split; try reflexivity; try assumption.
      rewrite Hused. f_equal. lia.
Qed.

(** [getTmpTexture] looks at the pool and at [usedTextures] only. *)
Lemma getTmpTexture_same_pool (env : Env) (s s2 s' : Inspector) (t : Texture) :
  same_pool s s2 -> getTmpTexture env s = Ok (t, s') ->
  exists s2' : Inspector,
    getTmpTexture env s2 = Ok (t, s2') /\ same_pool s' s2' /\
    framebuffer s2' = framebuffer s2.
Proof.
  intros [Hp Hu]. unfold getTmpTexture, same_pool.
  cbn [usedTextures set_offscreenTextures]. rewrite <- Hp, <- Hu.
  destruct (_ <? _).
  - destruct (CInt.add (usedTextures s) 1) as [u|]; [|discriminate].
    cbn [rbind]. destruct (vget _ _) as [t'|]; [|discriminate].
    cbn [rbind]. intros [= <- <-]. eexists. split; [reflexivity|].
    cbn. auto.
  - destruct (CInt.add (usedTextures s) 1) as [u|]; [|discriminate].
    cbn [rbind]. intros [= <- <-]. eexists. split; [reflexivity|].
    cbn. rewrite Hp. auto.
Qed.

(** Once the framebuffer exists, the previews take the textures that as
    many calls of [getTmpTexture] in a row return. *)
Lemma preview_requests_sim (env : Env) (m : nat) :
  forall (s s2 s' : Inspector) (ts : list Texture),
  framebuffer s2 <> None -> same_pool s s2 ->
  requests env m s = Ok (ts, s') ->
  exists s2' : Inspector,
    preview_requests env m s2 = Ok (ts, s2') /\ same_pool s' s2' /\
    framebuffer s2' <> None.
Proof.
  induction m as [|m IH]; intros s s2 s' ts Hfb Hsame;
    cbn [requests preview_requests].
  - intros [= <- <-]. exists s2. auto.
  - destruct (getTmpTexture env s) as [[t s1]|] eqn:E; [|discriminate].
    cbn [rbind].
    destruct (requests env m s1) as [[ts' s1']|] eqn:E2; [|discriminate].
    cbn [rbind]. intros [= <- <-].
    destruct (getTmpTexture_same_pool env s s2 s1 t Hsame E)
      as (s2a & E' & Hsame' & Hfb').
    unfold preview_texture, initFramebuffer.
    destruct (framebuffer s2) as [fb|] eqn:Efb; [|contradiction].
    cbn [rbind]. rewrite E'. cbn [rbind].
    unfold framebuffer_setTexture. rewrite Hfb'. cbn [rbind].
    destruct (IH s1
                (set_framebuffer (Some (mkFramebuffer (fbo_name fb) (Some t)))
                   (worldLights s2a) s2a) s1' ts')
      as (s2' & E3 & Hsame3 & Hfb3).
    + discriminate.
    + exact Hsame'.
    + exact E2.
    + exists s2'. rewrite E3. cbn [rbind]. auto.
Qed.

(** The first [initFramebuffer] of an inspector whose frame has just begun
    takes texture number 0, building it if the pool is empty, and gives it
    back. *)
Lemma initFramebuffer_first (env : Env) (s : Inspector) :
  framebuffer s = None -> usedTextures s = 0 ->
  exists s1 : Inspector,
    initFramebuffer env s = Ok s1 /\ framebuffer s1 <> None /\
    usedTextures s1 = 0 /\
    offscreenTextures s1
    = offscreenTextures s
      ++ new_textures env 0 (1 - length (offscreenTextures s)).
Proof.
  intros Hfb Hu. unfold initFramebuffer. rewrite Hfb.
  destruct (offscreenTextures s) as [|t0 l] eqn:Ep.
  - rewrite getTmpTexture_new
      by (rewrite ?Ep, Hu; cbn; unfold CInt.INT_MAX; lia).
    cbn [rbind]. eexists. split; [reflexivity|].
    rewrite Ep. cbn. split; [discriminate|]. split; reflexivity.
  - rewrite (getTmpTexture_cached env s 0 t0)
      by (rewrite ?Ep, ?Hu; cbn; unfold CInt.INT_MAX; (reflexivity || lia)).
    cbn [rbind]. eexists. split; [reflexivity|].
    cbn. rewrite Ep, app_nil_r. split; [discriminate|]. split; reflexivity.
Qed.

Lemma preview_requests_after_init (env : Env) (s s1 : Inspector) (m : nat) :
  initFramebuffer env s = Ok s1 -> framebuffer s1 <> None ->
  preview_requests env (S m) s = preview_requests env (S m) s1.
Proof.
  intros E Hfb. cbn [preview_requests]. unfold preview_texture.
  rewrite E. unfold initFramebuffer.
  destruct (framebuffer s1); [reflexivity | contradiction].
Qed.

(** The previews of a frame, whether or not the framebuffer exists yet:
    preview number [k] draws into texture number [k] of the pool. *)
Lemma preview_requests_of_frame (env : Env) (M : nat) (s : Inspector) :
  usedTextures s = 0 ->
  (length (offscreenTextures s) < M)%nat ->
  Z.of_nat M <= CInt.INT_MAX ->
  let N := length (offscreenTextures s) in
  let fresh := new_textures env N (M - N) in
  exists s' : Inspector,
    preview_requests env M s = Ok (offscreenTextures s ++ fresh, s') /\
    offscreenTextures s' = offscreenTextures s ++ fresh /\
    usedTextures s' = Z.of_nat M.
Proof.
  intros Hu Hlt Hmax. cbv zeta.
  destruct (framebuffer s) as [fb|] eqn:Efb.
  - destruct (requests_ok env M s 0 Hu ltac:(lia) ltac:(lia))
      as (s1 & Hreq & Hpool & Hused & _).
    rewrite drop_0, Nat.sub_0_r, take_ge in Hreq by lia.
    rewrite Nat.sub_0_r in Hpool.
    destruct (preview_requests_sim env M s s s1 _
                ltac:(rewrite Efb; discriminate)
                ltac:(split; reflexivity) Hreq)
      as (s' & E & [Hp' Hu'] & _).
    exists s'. split; [exact E|].
    split; [congruence | rewrite <- Hu', Hused; reflexivity].
  - destruct M as [|m]; [lia|].
    destruct (initFramebuffer_first env s Efb Hu) as (s1 & E1 & Hfb1 & Hu1 & Hp1).
    rewrite (preview_requests_after_init env s s1 m E1 Hfb1).
    assert (Hlen1 : length (offscreenTextures s1)
                    = Nat.max 1 (length (offscreenTextures s))).
    { rewrite Hp1, length_app. unfold new_textures.
      rewrite length_map, length_seq. lia. }
    destruct (requests_ok env (S m) s1 0 Hu1 ltac:(lia) ltac:(lia))
      as (s2 & Hreq & Hpool & Hused & _).
    rewrite drop_0, Nat.sub_0_r, take_ge in Hreq by lia.
    rewrite Nat.sub_0_r in Hpool.
    assert (Hall : offscreenTextures s1
                   ++ new_textures env (length (offscreenTextures s1))
                        (S m - length (offscreenTextures s1))
                   = offscreenTextures s
                     ++ new_textures env (length (offscreenTextures s))
                          (S m - length (offscreenTextures s))).
    { rewrite Hlen1, Hp1.
      destruct (offscreenTextures s) as [|t0 l]; cbn [length].
      - cbn [Nat.max Nat.sub app]. rewrite Nat.sub_0_r.
        unfold new_textures. cbn [seq map app]. reflexivity.
      - replace (1 - S (length l))%nat with 0%nat by lia.
        replace (Nat.max 1 (S (length l))) with (S (length l)) by lia.
        unfold new_textures at 1. cbn [seq map]. rewrite app_nil_r.
        reflexivity. }
    rewrite Hall in Hreq, Hpool.
    destruct (preview_requests_sim env (S m) s1 s1 s2 _ Hfb1
                ltac:(split; reflexivity) Hreq)
      as (s' & E & [Hp' Hu'] & _).
    exists s'. split; [exact E|].
    split; [congruence | rewrite <- Hu', Hused; reflexivity].
Qed.

(** C3 (as amended): with [N] textures cached and [usedTextures] reset to 0
    by the frame's [update], [M > N] requests within the frame return the
    [N] cached textures by index for the first [N] requests and build one
    new texture for each of the [M - N] requests that remain, so the pool
    ends the frame with exactly [M] textures.  This holds for [M] calls of
    [getTmpTexture] in a row, and for the requests of [M] previews, each
    [initFramebuffer(); getTmpTexture(); framebuffer->setTexture(...)],
    whether or not the framebuffer exists yet: the [getTmpTexture] call
    inside the first [initFramebuffer] is not a request, its texture is
    given back by the reset of [usedTextures] and is the one the first
    preview gets. *)
Theorem pool_serves_cached_then_allocates
    (env : Env) (rs : RenderStats) (tick : Z) (s0 s : Inspector) (M : nat) :
  update rs tick s0 = Ok s ->
  Z.of_nat M <= CInt.INT_MAX ->
  (length (offscreenTextures s0) < M)%nat ->
  let N := length (offscreenTextures s0) in
  let fresh := new_textures env N (M - N) in
  usedTextures s = 0 /\ offscreenTextures s = offscreenTextures s0 /\
  (exists s' : Inspector,
     requests env M s = Ok (offscreenTextures s0 ++ fresh, s') /\
     offscreenTextures s' = offscreenTextures s0 ++ fresh /\
     length fresh = (M - N)%nat /\
     length (offscreenTextures s') = M /\
     usedTextures s' = Z.of_nat M) /\
  (exists s' : Inspector,
     preview_requests env M s = Ok (offscreenTextures s0 ++ fresh, s') /\
     offscreenTextures s' = offscreenTextures s0 ++ fresh /\
     length (offscreenTextures s') = M /\
     usedTextures s' = Z.of_nat M).
Proof.
  intros Hup Hmax Hlt. cbv zeta.
  apply update_clock in Hup as (_ & Hu & Hpool0 & _).
  split; [exact Hu|]. split; [exact Hpool0|]. rewrite <- Hpool0 in *.
  assert (Hfresh : length (new_textures env (length (offscreenTextures s))
                             (M - length (offscreenTextures s)))
                   = (M - length (offscreenTextures s))%nat).
  { unfold new_textures. rewrite length_map, length_seq. reflexivity. }
  split.
  - destruct (requests_ok env M s 0 Hu ltac:(lia) ltac:(lia))
      as (s' & Hreq & Hpool & Hused & _).
    exists s'. rewrite drop_0, Nat.sub_0_r, take_ge in Hreq by lia.
    rewrite Nat.sub_0_r in Hpool.
    repeat split; try assumption.
    rewrite Hpool, length_app, Hfresh. lia.
  - destruct (preview_requests_of_frame env M s Hu Hlt Hmax)
      as (s' & Hreq & Hpool & Hused).
    exists s'. repeat split; try assumption.
    rewrite Hpool, length_app, Hfresh. lia.
Qed.

Lemma pool_serves_cached_then_allocates_witness :
  exists s : Inspector,
    update RenderStats_zero 16000000 example_pool = Ok s /\
    usedTextures s = 0 /\
    offscreenTextures s = offscreenTextures example_pool /\
    (exists s' : Inspector,
       requests example_env 3 s
       = Ok (offscreenTextures example_pool ++ new_textures example_env 1 2, s') /\
       offscreenTextures s'
       = offscreenTextures example_pool ++ new_textures example_env 1 2 /\
       length (new_textures example_env 1 2) = 2%nat /\
       length (offscreenTextures s') = 3%nat /\
       usedTextures s' = 3) /\
    (exists s' : Inspector,
       preview_requests example_env 3 s
       = Ok (offscreenTextures example_pool ++ new_textures example_env 1 2, s') /\
       offscreenTextures s'
       = offscreenTextures example_pool ++ new_textures example_env 1 2 /\
       length (offscreenTextures s') = 3%nat /\
       usedTextures s' = 3).
Proof.
  exists (set_clock 16000000
            (F32.add F32.zero (duration_ms 16000000 0))
            (set_ring 1 (<[0%nat := RenderStats_zero]> (stats example_pool))
               (<[0%nat := duration_ms 16000000 0]> (milliseconds example_pool))
               example_pool)).
  split; [reflexivity|].
  apply (pool_serves_cached_then_allocates example_env RenderStats_zero
           16000000 example_pool _ 3).
  - reflexivity.
  - vm_compute. discriminate.
  - vm_compute. lia.
Defined.

(** C3 as stated fails: one cached texture and three requests in a frame
    allocate two new textures, more than the one that was cached. *)
Lemma pool_allocates_more_than_cached :
  ~ pool_allocates_at_most_cached example_env example_pool 3.
Proof.
  intros H. destruct (H eq_refl) as (ts & s' & Hreq & _ & Hle).
  - vm_compute. lia.
  - vm_compute in Hreq. injection Hreq as <- <-. vm_compute in Hle. lia.
Qed.

(** The next frame reuses the pool: after [update], requests up to the pool
    size allocate nothing. *)
Lemma pool_reused_next_frame (env : Env) (rs : RenderStats) (tick : Z)
    (s s1 : Inspector) (m : nat) :
  update rs tick s = Ok s1 ->
  (m <= length (offscreenTextures s))%nat ->
  Z.of_nat m <= CInt.INT_MAX ->
  exists s' : Inspector,
    requests env m s1 = Ok (take m (offscreenTextures s), s') /\
    offscreenTextures s' = offscreenTextures s.
Proof.
  intros Hup Hm Hmax.
  apply update_clock in Hup as (_ & Hused & Hpool & _).
  destruct (requests_ok env m s1 0 Hused ltac:(lia) ltac:(lia))
    as (s' & Hreq & Hpool' & _).
  exists s'. rewrite Hpool in *. rewrite drop_0 in Hreq.
  replace (m - (length (offscreenTextures s) - 0))%nat with 0%nat in * by lia.
  unfold new_textures in *. cbn [seq map] in *. rewrite app_nil_r in *.
  split; assumption.
Qed.

(** ** The auto-fit of the mesh preview *)

Lemma float_same_eq (a b : float32) : float_same a b = true -> a = b.
Proof.
  destruct a as [s|s| |s m e], b as [s'|s'| |s' m' e']; simpl;
    try discriminate; try reflexivity.
  - intros H. apply Bool.eqb_prop in H. congruence.
  - intros H. apply Bool.eqb_prop in H. congruence.
  - intros H. apply andb_prop in H as [H He]. apply andb_prop in H as [Hs Hm].
    apply Bool.eqb_prop in Hs. apply Pos.eqb_eq in Hm. apply Z.eqb_eq in He.
    congruence.
Qed.

(** For every power of two in the normal range, dividing 2 by it and
    multiplying by its half is exact. *)
Lemma pow2_fit_exact (e : Z) :
  -126 <= e <= 127 ->
  F32.mul (F32.div F32.two (pow2 e)) (F32.mul (pow2 e) F32.half) = F32.one.
Proof.
  intros He.
  assert (Hall : forallb (fun e => float_same
                    (F32.mul (F32.div F32.two (pow2 e)) (F32.mul (pow2 e) F32.half))
                    F32.one)
                  (seqZ (-126) 254) = true) by (vm_compute; reflexivity).
  rewrite forallb_forall in Hall.
  apply float_same_eq, Hall.
  apply list_elem_of_In, elem_of_seqZ. lia.
Qed.

(** C4 as stated fails: for the box [min=(-41,-1,-1)], [max=(41,1,1)] the
    largest extent is 82 and the scale is the [float] nearest to 2/82,
    [13094412 * 2^-29].  Times the half extent 41 that is not 1, neither
    exactly ([13094412 * 41] is not [2^29]) nor as the [float] product,
    which is [16777215 * 2^-24 = 0.99999994]. *)
Lemma auto_fit_not_exact_for_extent_82 :
  preview_maxS wide_box = F32.of_int 82 /\
  preview_maxS wide_box <> F32.zero /\
  preview_scale wide_box = S754_finite false 13094412 (-29) /\
  13094412 * 41 <> 2 ^ 29 /\
  fitted_half_extent wide_box = S754_finite false 16777215 (-24) /\
  ~ fits_unit_cube wide_box.
Proof.
  unfold fits_unit_cube.
  assert (E : fitted_half_extent wide_box = S754_finite false 16777215 (-24))
    by (vm_compute; reflexivity).
  rewrite E. repeat split; try (vm_compute; (reflexivity || discriminate)).
Qed.

(** ** The materials of the mesh preview *)

Lemma push_back_loop {A B : Type} (x : A) (l : list B) (acc : list A) :
  foldl (fun mats _ => mats ++ [x]) acc l = acc ++ replicate (length l) x.
Proof.
  revert acc. induction l as [|b l IH]; intros acc; cbn [foldl length replicate].
  - rewrite app_nil_r. reflexivity.
  - rewrite IH, <- app_assoc. reflexivity.
Qed.

Lemma preview_materials_replicate (mesh : Mesh) (mat : Material) :
  preview_materials mesh mat
  = replicate (Z.to_nat (Z.max 1 (getIndexSets mesh))) mat.
Proof.
  unfold preview_materials.
  rewrite push_back_loop, length_seqZ, CInt_max_spec. reflexivity.
Qed.

Lemma preview_materials_shape (mesh : Mesh) (mat : Material) :
  draw_shape_ok (getIndexSets mesh) (preview_materials mesh mat) = true.
Proof.
  unfold draw_shape_ok.
  rewrite preview_materials_replicate, length_replicate.
  apply Z.eqb_eq. lia.
Qed.

Create HintDb mismatch.

Lemma no_mismatch_Ok {A : Type} (a : A) : no_mismatch (Ok a).
Proof. discriminate. Qed.

Lemma no_mismatch_UB {A : Type} : no_mismatch (@Fail A UndefinedBehaviour).
Proof. discriminate. Qed.

Lemma no_mismatch_rbind {A B : Type} (r : result A) (k : A -> result B) :
  no_mismatch r -> (forall a, no_mismatch (k a)) -> no_mismatch (rbind r k).
Proof.
  intros Hr Hk. destruct r as [a|e]; [apply Hk|].
  intros H. injection H as ->. apply Hr. reflexivity.
Qed.

Lemma no_mismatch_check (z : Z) : no_mismatch (CInt.check z).
Proof. unfold CInt.check. destruct (CInt.in_range z); discriminate. Qed.

Lemma no_mismatch_add (a b : Z) : no_mismatch (CInt.add a b).
Proof. apply no_mismatch_check. Qed.

Lemma no_mismatch_vget {A : Type} (v : list A) (i : Z) : no_mismatch (vget v i).
Proof.
  unfold vget. destruct (0 <=? i); [|discriminate].
  destruct (v !! Z.to_nat i); discriminate.
Qed.

#[local] Hint Resolve no_mismatch_Ok no_mismatch_UB no_mismatch_add
  no_mismatch_vget : mismatch.
#[local] Hint Extern 2 (no_mismatch (rbind _ _)) =>
  apply no_mismatch_rbind; [|intros] : mismatch.

Lemma no_mismatch_getTmpTexture (env : Env) (s : Inspector) :
  no_mismatch (getTmpTexture env s).
Proof.
  unfold getTmpTexture.
  destruct (_ <? _); auto 6 with mismatch.
Qed.

Lemma no_mismatch_initFramebuffer (env : Env) (s : Inspector) :
  no_mismatch (initFramebuffer env s).
Proof.
  unfold initFramebuffer. destruct (framebuffer s); [auto with mismatch|].
  apply no_mismatch_rbind; [apply no_mismatch_getTmpTexture|].
  intros [t s']. auto with mismatch.
Qed.

Lemma never_ret {A : Type} (a : A) : never_mismatch (ret a).
Proof. intros w. discriminate. Qed.

Lemma never_emit (c : UICmd) : never_mismatch (emit c).
Proof. intros w. discriminate. Qed.

Lemma never_bind {A B : Type} (m : M A) (k : A -> M B) :
  never_mismatch m -> (forall a, never_mismatch (k a)) ->
  never_mismatch (bind m k).
Proof.
  intros Hm Hk w. unfold bind. specialize (Hm w).
  destruct (m w) as [[a w']|e]; [apply Hk|].
  intros H. injection H as ->. apply Hm. reflexivity.
Qed.

Lemma never_liftR {A : Type} (r : result A) :
  no_mismatch r -> never_mismatch (liftR r).
Proof.
  intros Hr w. unfold liftR. destruct r as [a|e]; [discriminate|].
  intros H. injection H as ->. apply Hr. reflexivity.
Qed.

Lemma never_on_insp {A : Type} (f : Inspector -> result (A * Inspector)) :
  (forall s, no_mismatch (f s)) -> never_mismatch (on_insp f).
Proof.
  intros Hf. unfold on_insp. apply never_bind; [intros w; discriminate|].
  intros s. apply never_bind; [apply never_liftR, Hf|].
  intros [a s']. apply never_bind; [intros w; discriminate|].
  intros _. apply never_ret.
Qed.

Lemma never_when (b : bool) (m : M unit) :
  never_mismatch m -> never_mismatch (when b m).
Proof. intros Hm. destruct b; [exact Hm | apply never_ret]. Qed.

Lemma never_forM {A : Type} (l : list A) (body : A -> M unit) :
  (forall a, never_mismatch (body a)) -> never_mismatch (forM l body).
Proof.
  intros Hb. induction l as [|a l IH]; [apply never_ret|].
  apply never_bind; [apply Hb | intros _; exact IH].
Qed.

Lemma never_TreeNode (env : Env) (path : list string) (label : string) :
  never_mismatch (TreeNode env path label).
Proof. apply never_bind; [apply never_emit | intros _; apply never_ret]. Qed.

Lemma never_get_insp : never_mismatch get_insp.
Proof. intros w. discriminate. Qed.

Lemma never_preview_image (tex : Texture) : never_mismatch (preview_image tex).
Proof. apply never_bind; [apply never_get_insp | intros s; apply never_emit]. Qed.

#[local] Hint Resolve never_ret never_emit never_liftR never_when never_forM
  never_TreeNode never_get_insp never_preview_image
  no_mismatch_getTmpTexture : mismatch.
#[local] Hint Extern 2 (never_mismatch (bind _ _)) =>
  apply never_bind; [|intros] : mismatch.
#[local] Hint Extern 1 (never_mismatch (LabelText _ _)) =>
  apply never_emit : mismatch.

Lemma no_mismatch_setTexture (t : Texture) (s : Inspector) :
  no_mismatch (framebuffer_setTexture t s).
Proof. unfold framebuffer_setTexture. destruct (framebuffer s); discriminate. Qed.

Lemma no_mismatch_preview_pass (s : Inspector) : no_mismatch (preview_pass s).
Proof. unfold preview_pass. destruct (framebuffer s); discriminate. Qed.

Lemma preview_draw_is_issued (pass : RenderPass) (mesh : Mesh)
    (model : list Matrix) (mat : Material) :
  RenderPass_draw pass mesh model (preview_materials mesh mat)
  = emit (CDraw pass (RegistryMesh mesh) model (preview_materials mesh mat)).
Proof. unfold RenderPass_draw. rewrite preview_materials_shape. reflexivity. Qed.

Lemma never_showMesh (env : Env) (mesh : Mesh) : never_mismatch (showMesh env mesh).
Proof.
  unfold showMesh.
  apply never_bind; [apply never_TreeNode|]. intros opened.
  apply never_when.
  do 2 (apply never_bind; [apply never_emit|]; intros _).
  apply never_bind.
  { apply never_bind; [apply never_TreeNode|]. intros attrs.
    apply never_when. apply never_bind; [|intros _; apply never_emit].
    apply never_forM. intros a. apply never_emit. }
  intros _. apply never_bind.
  { apply never_bind; [apply never_TreeNode|]. intros sets.
    apply never_when. apply never_bind; [|intros _; apply never_emit].
    destruct (getIndexSets mesh =? 0); [apply never_emit|].
    apply never_forM. intros i.
    apply never_bind; [apply never_liftR, no_mismatch_vget|].
    intros size. apply never_emit. }
  intros _. apply never_bind.
  { apply never_on_insp. intros i.
    apply no_mismatch_rbind; [apply no_mismatch_initFramebuffer|].
    intros i'. discriminate. }
  intros _. apply never_bind;
    [apply never_on_insp, no_mismatch_getTmpTexture|].
  intros offscreenTexture. apply never_bind;
    [apply never_on_insp, no_mismatch_setTexture|].
  intros _. apply never_bind; [apply never_get_insp|]. intros i.
  apply never_bind; [apply never_liftR, no_mismatch_preview_pass|].
  intros pass. rewrite preview_draw_is_issued.
  apply never_bind; [apply never_emit|]. intros _.
  apply never_bind; [apply never_preview_image|]. intros _.
  apply never_emit.
Qed.

(** ** What a run of UI code can change

    A relation between the world before and after that every primitive step
    respects is respected by all code built from the steps. *)

Section Respects.
Variable R : World -> World -> Prop.
Hypothesis R_refl : forall w, R w w.
Hypothesis R_trans : forall w1 w2 w3, R w1 w2 -> R w2 w3 -> R w1 w3.

Lemma respects_ret {A : Type} (a : A) : respects R (ret a).
Proof. intros w a' w' H. injection H as _ <-. apply R_refl. Qed.

Lemma respects_fail {A : Type} (e : Error) : respects R (@fail A e).
Proof. intros w a w' H. discriminate. Qed.

Lemma respects_liftR {A : Type} (r : result A) : respects R (liftR r).
Proof.
  intros w a w' H. unfold liftR in H. destruct r; [|discriminate].
  injection H as _ <-. apply R_refl.
Qed.

Lemma respects_bind {A B : Type} (m : M A) (k : A -> M B) :
  respects R m -> (forall a, respects R (k a)) -> respects R (bind m k).
Proof.
  intros Hm Hk w b w' H. unfold bind in H.
  destruct (m w) as [[a w1]|e] eqn:E; [|discriminate].
  eapply R_trans; [eapply Hm, E | eapply Hk, H].
Qed.

Lemma respects_when (b : bool) (m : M unit) :
  respects R m -> respects R (when b m).
Proof. intros Hm. destruct b; [exact Hm | apply respects_ret]. Qed.

Lemma respects_forM {A : Type} (l : list A) (body : A -> M unit) :
  (forall a, respects R (body a)) -> respects R (forM l body).
Proof.
  intros Hb. induction l as [|a l IH]; [apply respects_ret|].
  apply respects_bind; [apply Hb | intros _; exact IH].
Qed.

Lemma respects_get_insp : respects R get_insp.
Proof. intros w a w' H. injection H as _ <-. apply R_refl. Qed.

Lemma respects_get_edit : respects R get_edit.
Proof. intros w a w' H. injection H as _ <-. apply R_refl. Qed.

Lemma respects_get_selection : respects R get_selection.
Proof. intros w a w' H. injection H as _ <-. apply R_refl. Qed.

End Respects.

Lemma log_grows_refl (w : World) : log_grows w w.
Proof. exists []. rewrite app_nil_r. reflexivity. Qed.

Lemma log_grows_same (w w' : World) : log w' = log w -> log_grows w w'.
Proof. intros H. exists []. rewrite app_nil_r. exact H. Qed.

Lemma log_grows_trans (w1 w2 w3 : World) :
  log_grows w1 w2 -> log_grows w2 w3 -> log_grows w1 w3.
Proof.
  intros [l1 H1] [l2 H2]. exists (l1 ++ l2).
  rewrite H2, H1, app_assoc. reflexivity.
Qed.

Lemma edit_follows_refl (live : list Shader) (w : World) : edit_follows live w w.
Proof. left. reflexivity. Qed.

Lemma edit_follows_trans (live : list Shader) (w1 w2 w3 : World) :
  edit_follows live w1 w2 -> edit_follows live w2 w3 -> edit_follows live w1 w3.
Proof.
  intros H1 [H2|H2]; [|right; exact H2].
  destruct H1 as [H1|H1]; [left; congruence | right].
  destruct H1 as (sh & Hin & E). exists sh. split; [exact Hin | congruence].
Qed.

Lemma edit_kept_refl (w : World) : edit_kept w w.
Proof. reflexivity. Qed.

Lemma edit_kept_trans (w1 w2 w3 : World) :
  edit_kept w1 w2 -> edit_kept w2 w3 -> edit_kept w1 w3.
Proof. unfold edit_kept. congruence. Qed.

Lemma on_insp_run {A : Type} (f : Inspector -> result (A * Inspector)) (w : World) :
  on_insp f w
  = match f (insp w) with
    | Ok (a, s') => Ok (a, mkWorld s' (edit w) (spriteAtlasSelection w) (log w))
    | Fail e => Fail e
    end.
Proof.
  unfold on_insp, bind, get_insp, liftR, put_insp, ret.
  destruct (f (insp w)) as [[a s']|e]; reflexivity.
Qed.

(** The member functions the panels call leave [shaderEdit] alone. *)
Lemma getTmpTexture_shaderEdit (env : Env) (s s' : Inspector) (t : Texture) :
  getTmpTexture env s = Ok (t, s') -> shaderEdit s' = shaderEdit s.
Proof.
  unfold getTmpTexture. destruct (_ <? _).
  - destruct (CInt.add _ _); [|discriminate]. cbn [rbind].
    destruct (vget _ _); [|discriminate]. cbn [rbind].
    intros H. injection H as _ <-. reflexivity.
  - destruct (CInt.add _ _); [|discriminate]. cbn [rbind].
    intros H. injection H as _ <-. reflexivity.
Qed.

Lemma initFramebuffer_shaderEdit (env : Env) (s s' : Inspector) :
  initFramebuffer env s = Ok s' -> shaderEdit s' = shaderEdit s.
Proof.
  unfold initFramebuffer. destruct (framebuffer s).
  - intros H. injection H as <-. reflexivity.
  - destruct (getTmpTexture env s) as [[t s1]|] eqn:E; [|discriminate].
    cbn [rbind]. intros H. injection H as <-. cbn.
    eapply getTmpTexture_shaderEdit, E.
Qed.

Lemma setTexture_shaderEdit (t : Texture) (s s' : Inspector) (u : unit) :
  framebuffer_setTexture t s = Ok (u, s') -> shaderEdit s' = shaderEdit s.
Proof.
  unfold framebuffer_setTexture. destruct (framebuffer s); [|discriminate].
  intros H. injection H as _ <-. reflexivity.
Qed.

Lemma plot_shaderEdit (sample : Z -> result float32)
    (label : float32 -> float32 -> Text) (overlay : string)
    (s s' : Inspector) (c : UICmd) :
  plot sample label overlay s = Ok (c, s') -> shaderEdit s' = shaderEdit s.
Proof.
  unfold plot. destruct (plot_loop sample s) as [[[d mx] sum]|]; [|discriminate].
  cbn [rbind]. intros H. injection H as _ <-. reflexivity.
Qed.

Lemma Button_run {A : Type} (env : Env) (path : list string) (label : string)
    (k : bool -> M A) (w : World) :
  bind (Button env path label) k w
  = k (ui_button env (label :: path))
      (mkWorld (insp w) (edit w) (spriteAtlasSelection w)
               (log w ++ [CButton label])).
Proof. reflexivity. Qed.

Section PanelsRespect.
Variable R : World -> World -> Prop.
Hypothesis R_refl : forall w, R w w.
Hypothesis R_trans : forall w1 w2 w3, R w1 w2 -> R w2 w3 -> R w1 w3.
(** [R] holds of every step that keeps [shaderEdit] and only adds to
    the log. *)
Hypothesis R_frame : forall w w',
  shaderEdit (insp w') = shaderEdit (insp w) -> log_grows w w' -> R w w'.

Variable env : Env.

Lemma frame_emit (c : UICmd) : respects R (emit c).
Proof.
  intros w a w' H. injection H as _ <-.
  apply R_frame; [reflexivity | exists [c]; reflexivity].
Qed.

Lemma frame_put_selection (l : list (Z * Z)) : respects R (put_selection l).
Proof.
  intros w a w' H. injection H as _ <-.
  apply R_frame; [reflexivity | apply log_grows_same; reflexivity].
Qed.

Lemma frame_put_edit (e : EditStatics) : respects R (put_edit e).
Proof.
  intros w a w' H. injection H as _ <-.
  apply R_frame; [reflexivity | apply log_grows_same; reflexivity].
Qed.

Lemma frame_on_insp {A : Type} (f : Inspector -> result (A * Inspector)) :
  (forall s a s', f s = Ok (a, s') -> shaderEdit s' = shaderEdit s) ->
  respects R (on_insp f).
Proof.
  intros Hf w a w' H. rewrite on_insp_run in H.
  destruct (f (insp w)) as [[a1 s']|e] eqn:E; [|discriminate].
  injection H as _ <-.
  apply R_frame; [cbn; eapply Hf, E | apply log_grows_same; reflexivity].
Qed.

Ltac frame_step :=
  lazymatch goal with
  | |- respects _ (bind _ _) => apply respects_bind; [assumption..| |intros]
  | |- respects _ (when _ _) => apply respects_when; [assumption..|]
  | |- respects _ (forM _ _) => apply respects_forM; [assumption..|intros]
  | |- respects _ (emit _) => apply frame_emit
  | |- respects _ (LabelText _ _) => apply frame_emit
  | |- respects _ (ret _) => apply respects_ret; assumption
  | |- respects _ (fail _) => apply respects_fail
  | |- respects _ (liftR _) => apply respects_liftR; assumption
  | |- respects _ get_insp => apply respects_get_insp; assumption
  | |- respects _ get_edit => apply respects_get_edit; assumption
  | |- respects _ get_selection => apply respects_get_selection; assumption
  | |- respects _ (put_selection _) => apply frame_put_selection
  | |- respects _ (put_edit _) => apply frame_put_edit
  | |- respects _ (TreeNode _ _ _) => unfold TreeNode
  | |- respects _ (CollapsingHeader _ _) => unfold CollapsingHeader
  | |- respects _ (Button _ _ _) => unfold Button
  | |- respects _ (preview_image _) => unfold preview_image
  | |- respects _ (RenderPass_draw_sphere _ _ _) => apply frame_emit
  end.

Ltac frame := repeat frame_step.

Lemma frame_TreeNode (path : list string) (label : string) :
  respects R (TreeNode env path label).
Proof. unfold TreeNode. frame. Qed.

Lemma frame_CollapsingHeader (label : string) :
  respects R (CollapsingHeader env label).
Proof. unfold CollapsingHeader. frame. Qed.

Lemma frame_initFramebuffer :
  respects R (on_insp (fun i => let* i' := initFramebuffer env i in Ok (tt, i'))).
Proof.
  apply frame_on_insp. intros s a s'.
  destruct (initFramebuffer env s) as [i'|] eqn:E; [|discriminate].
  cbn [rbind]. intros H. injection H as _ <-.
  eapply initFramebuffer_shaderEdit, E.
Qed.

Lemma frame_getTmpTexture : respects R (on_insp (getTmpTexture env)).
Proof.
  apply frame_on_insp. intros s a s'. apply getTmpTexture_shaderEdit.
Qed.

Lemma frame_setTexture (t : Texture) :
  respects R (on_insp (framebuffer_setTexture t)).
Proof.
  apply frame_on_insp. intros s a s'. apply setTexture_shaderEdit.
Qed.

Lemma frame_draw_plot (sample : Inspector -> Z -> result float32)
    (label : float32 -> float32 -> Text) (overlay : string) :
  respects R (draw_plot sample label overlay).
Proof.
  unfold draw_plot. apply respects_bind; [assumption| |intros; frame].
  apply frame_on_insp. intros s a s'. apply plot_shaderEdit.
Qed.

Lemma frame_showTexture (tex : Texture) : respects R (showTexture env tex).
Proof.
  unfold showTexture, LabelText.
  frame.
Qed.

Lemma frame_showMesh (mesh : Mesh) : respects R (showMesh env mesh).
Proof.
  unfold showMesh, LabelText.
  apply respects_bind; [assumption|apply frame_TreeNode|intros opened].
  apply respects_when; [assumption|].
  do 2 (apply respects_bind; [assumption|apply frame_emit|intros _]).
  apply respects_bind; [assumption|frame|intros _].
  apply respects_bind; [assumption| |intros _].
  { apply respects_bind; [assumption|apply frame_TreeNode|intros sets].
    apply respects_when; [assumption|].
    apply respects_bind; [assumption| |intros _; apply frame_emit].
    destruct (getIndexSets mesh =? 0); frame. }
  apply respects_bind; [assumption|apply frame_initFramebuffer|intros _].
  apply respects_bind; [assumption|apply frame_getTmpTexture|intros tex].
  apply respects_bind; [assumption|apply frame_setTexture|intros _].
  apply respects_bind; [assumption|apply respects_get_insp; assumption|intros i].
  apply respects_bind; [assumption|apply respects_liftR; assumption|intros pass].
  rewrite preview_draw_is_issued. frame.
Qed.

(** [showShader], whatever its "Edit" button does to [R]. *)
Lemma frame_showShader (shader : Shader) :
  respects R
    (when (ui_button env ["Edit"%string;
                          node_label (sh_name shader) (sh_addr shader)])
          (open_editor shader)) ->
  respects R (showShader env shader).
Proof.
  intros Hedit. unfold showShader, LabelText.
  apply respects_bind; [assumption|apply frame_TreeNode|intros opened].
  apply respects_when; [assumption|].
  apply respects_bind; [assumption| |intros _].
  { intros w a w' H. rewrite Button_run in H.
    eapply R_trans; [|eapply Hedit, H].
    apply R_frame; [reflexivity | eexists; reflexivity]. }
  do 2 (apply respects_bind; [assumption|frame|intros _]).
  do 4 (apply respects_bind; [assumption|apply frame_emit|intros _]).
  apply respects_bind; [assumption|apply frame_initFramebuffer|intros _].
  apply respects_bind; [assumption|apply frame_getTmpTexture|intros tex].
  apply respects_bind; [assumption|apply frame_setTexture|intros _].
  frame.
Qed.

Lemma frame_showFramebufferObject (fbo : Z * Framebuffer) :
  respects R (showFramebufferObject env fbo).
Proof. unfold showFramebufferObject. frame. Qed.

Lemma frame_showSpriteAtlas (pAtlas : SpriteAtlas) :
  respects R (showSpriteAtlas env pAtlas).
Proof.
  unfold showSpriteAtlas, LabelText.
  apply respects_bind; [assumption|apply frame_TreeNode|intros opened].
  apply respects_when; [assumption|].
  apply respects_bind; [assumption|frame|intros sel].
  apply respects_bind; [assumption|frame|intros _].
  destruct (ui_combo env _ _ _) as [updated chosen].
  apply respects_bind; [assumption|frame|intros _].
  apply respects_bind; [assumption| |intros _; frame].
  apply respects_when; [assumption|].
  apply respects_bind; [assumption|frame|intros name].
  destruct (atlas_get name (atlas_sprites pAtlas)); frame.
Qed.

Lemma frame_gui_renderer (r : Renderer) : respects R (gui_renderer env r).
Proof.
  unfold gui_renderer, LabelText.
  apply respects_bind; [assumption|apply frame_CollapsingHeader|intros opened].
  apply respects_when; [assumption|].
  apply respects_bind; [assumption|frame|intros _].
  apply respects_bind; [assumption| |intros _; frame].
  apply respects_bind; [assumption|frame|intros i].
  destruct (sdlRenderer i); frame.
Qed.

Lemma frame_gui_performance : respects R (gui_performance env).
Proof.
  unfold gui_performance.
  apply respects_bind; [assumption|apply frame_CollapsingHeader|intros opened].
  apply respects_when; [assumption|].
  repeat (apply respects_bind; [assumption|apply frame_draw_plot|intros _]).
  apply frame_draw_plot.
Qed.

Lemma frame_gui_memory (r : Renderer) : respects R (gui_memory env r).
Proof.
  unfold gui_memory.
  apply respects_bind; [assumption|apply frame_CollapsingHeader|intros opened].
  apply respects_when; [assumption|].
  repeat (apply respects_bind; [assumption|apply frame_draw_plot|intros _]).
  apply frame_draw_plot.
Qed.

(** The panels, whatever the "Edit" buttons of the live shaders do to [R]. *)
Lemma frame_gui_panels (r : Renderer) (useWindow : bool) :
  (forall shader : Shader, In shader (shaders r) ->
     respects R
       (when (ui_button env ["Edit"%string;
                             node_label (sh_name shader) (sh_addr shader)])
             (open_editor shader))) ->
  respects R (gui_panels env r useWindow).
Proof.
  intros Hedit. unfold gui_panels.
  apply respects_bind; [assumption|frame|intros _].
  apply respects_bind; [assumption|apply frame_gui_renderer|intros _].
  apply respects_bind; [assumption|apply frame_gui_performance|intros _].
  apply respects_bind; [assumption|apply frame_gui_memory|intros _].
  apply respects_bind; [assumption| |intros _].
  { unfold gui_shaders, LabelText.
    apply respects_bind; [assumption|apply frame_CollapsingHeader|intros o].
    apply respects_when; [assumption|].
    apply respects_bind; [assumption| |intros _; frame].
    revert Hedit. generalize (shaders r). intros l.
    induction l as [|sh l IH]; intros Hedit; [apply respects_ret; assumption|].
    apply respects_bind; [assumption| |intros _].
    - apply frame_showShader, Hedit. left. reflexivity.
    - apply IH. intros sh' Hin. apply Hedit. right. exact Hin. }
  apply respects_bind; [assumption| |intros _].
  { unfold gui_textures, LabelText.
    apply respects_bind; [assumption|apply frame_CollapsingHeader|intros o].
    apply respects_when; [assumption|].
    apply respects_bind; [assumption| |intros _; frame].
    apply respects_forM; [assumption..|]. apply frame_showTexture. }
  apply respects_bind; [assumption| |intros _].
  { unfold gui_meshes, LabelText.
    apply respects_bind; [assumption|apply frame_CollapsingHeader|intros o].
    apply respects_when; [assumption|].
    apply respects_bind; [assumption| |intros _; frame].
    apply respects_forM; [assumption..|]. apply frame_showMesh. }
  apply respects_bind; [assumption| |intros _].
  { unfold gui_spriteAtlases. apply respects_when; [assumption|].
    apply respects_bind; [assumption|apply frame_CollapsingHeader|intros o].
    apply respects_when; [assumption|].
    apply respects_forM; [assumption..|]. apply frame_showSpriteAtlas. }
  apply respects_bind; [assumption| |intros _; frame].
  unfold gui_framebufferObjects. apply respects_when; [assumption|].
  apply respects_bind; [assumption|apply frame_CollapsingHeader|intros o].
  apply respects_when; [assumption|].
  apply respects_forM; [assumption..|]. apply frame_showFramebufferObject.
Qed.

(** [editShader], whatever closing its window does to [R]. *)
Lemma frame_editShader_load (shader : Shader) :
  respects R (editShader_load env shader).
Proof.
  unfold editShader_load.
  apply respects_bind; [assumption|frame|intros e].
  destruct (match shaderRef e with Some a => a =? sh_addr shader | None => false end);
    frame.
Qed.

Lemma frame_editShader_body (shader : Shader) :
  respects R
    (when (negb (ui_window_open env (sh_name shader)))
          (let! i := get_insp in put_insp (set_shaderEdit None i))) ->
  respects R (editShader_body env shader).
Proof.
  intros Hclose. unfold editShader_body.
  apply respects_bind; [assumption| |intros _].
  { apply respects_forM; [assumption..|]. intros t.
    destruct (shader_type_entry t); frame. }
  apply respects_bind; [assumption|apply frame_emit|intros _].
  apply respects_bind; [assumption|frame|intros e].
  apply respects_bind; [assumption|apply frame_emit|intros _].
  destruct (select_shader env _ _ _) as [updatedShader selected].
  apply respects_bind; [assumption|apply frame_emit|intros _].
  destruct (ui_checkbox env _ _) as [updatedPrecompile precompiled].
  apply respects_bind; [assumption|apply frame_emit|intros _].
  apply respects_bind; [assumption|unfold Button; frame|intros compile].
  apply respects_bind; [assumption| |intros code].
  { destruct (_ || _); frame. }
  apply respects_bind; [assumption|frame|intros _].
  apply respects_bind; [assumption| |intros editor].
  { destruct (_ || _); [|frame].
    apply respects_bind; [assumption|frame|intros text].
    destruct precompiled; frame. }
  apply respects_bind; [assumption|apply frame_emit|intros _].
  apply respects_bind; [assumption|apply frame_put_edit|intros _].
  do 2 (apply respects_bind; [assumption|apply frame_emit|intros _]).
  exact Hclose.
Qed.

Lemma frame_editShader (shader : Shader) :
  respects R
    (when (negb (ui_window_open env (sh_name shader)))
          (let! i := get_insp in put_insp (set_shaderEdit None i))) ->
  respects R (editShader env shader).
Proof.
  intros Hclose. unfold editShader.
  apply respects_bind; [assumption|apply frame_editShader_load|intros _].
  do 2 (apply respects_bind; [assumption|apply frame_emit|intros _]).
  apply frame_editShader_body, Hclose.
Qed.
End PanelsRespect.

(** ** The edit view and its weak reference *)

Lemma weak_lock_Some (e : option Z) (live : list Shader) (sh : Shader) :
  weak_lock e live = Some sh -> In sh live /\ e = Some (sh_uid sh).
Proof.
  unfold weak_lock. destruct e as [uid|]; [|discriminate].
  intros H. apply find_some in H as [Hin Huid].
  apply Z.eqb_eq in Huid. split; [exact Hin | congruence].
Qed.

Lemma weak_lock_expired (e : option Z) (live : list Shader) :
  (forall sh, In sh live -> e <> Some (sh_uid sh)) -> weak_lock e live = None.
Proof.
  intros H. destruct (weak_lock e live) as [sh|] eqn:E; [|reflexivity].
  apply weak_lock_Some in E as [Hin He]. exfalso. exact (H sh Hin He).
Qed.

Lemma weak_lock_nil (e : option Z) : weak_lock e [] = None.
Proof. destruct e; reflexivity. Qed.

Lemma gui_edit_view_expired (env : Env) (r : Renderer) (w : World) :
  weak_lock (shaderEdit (insp w)) (shaders r) = None ->
  gui_edit_view env r w = Ok (tt, w).
Proof.
  intros H. unfold gui_edit_view, bind, get_insp. rewrite H. reflexivity.
Qed.

Lemma gui_edit_view_alive (env : Env) (r : Renderer) (w : World) (sh : Shader) :
  weak_lock (shaderEdit (insp w)) (shaders r) = Some sh ->
  gui_edit_view env r w = editShader env sh w.
Proof.
  intros H. unfold gui_edit_view, bind, get_insp. rewrite H. reflexivity.
Qed.

(** Without a press on an "Edit" button the panels keep the reference. *)
Lemma gui_panels_keep_edit (env : Env) (r : Renderer) (useWindow : bool) :
  (forall sh, In sh (shaders r) ->
     ui_button env ["Edit"%string; node_label (sh_name sh) (sh_addr sh)] = false) ->
  respects edit_kept (gui_panels env r useWindow).
Proof.
  intros Hno. apply frame_gui_panels.
  - apply edit_kept_refl.
  - apply edit_kept_trans.
  - intros w w' H _. exact H.
  - intros sh Hin. rewrite (Hno sh Hin). apply respects_ret, edit_kept_refl.
Qed.

(** In any case the reference is afterwards the old one or follows a live
    shader: "Edit" is only offered for the shaders of the registry. *)
Lemma gui_panels_edit_follows (env : Env) (r : Renderer) (useWindow : bool) :
  respects (edit_follows (shaders r)) (gui_panels env r useWindow).
Proof.
  apply frame_gui_panels.
  - apply edit_follows_refl.
  - apply edit_follows_trans.
  - intros w w' H _. left. exact H.
  - intros sh Hin. apply respects_when; [apply edit_follows_refl|].
    intros w a w' H. injection H as _ <-. right. exists sh.
    split; [exact Hin | reflexivity].
Qed.

Lemma editShader_keeps_edit (env : Env) (sh : Shader) :
  ui_window_open env (sh_name sh) = true ->
  respects edit_kept (editShader env sh).
Proof.
  intros Hopen. apply frame_editShader.
  - apply edit_kept_refl.
  - apply edit_kept_trans.
  - intros w w' H _. exact H.
  - rewrite Hopen. apply respects_ret, edit_kept_refl.
Qed.

Lemma editShader_load_log (env : Env) (sh : Shader) (w w' : World) (u : unit) :
  editShader_load env sh w = Ok (u, w') -> log w' = log w.
Proof.
  unfold editShader_load, bind, get_edit.
  destruct (match shaderRef (edit w) with
            | Some a => a =? sh_addr sh
            | None => false
            end).
  - intros H. injection H as _ <-. reflexivity.
  - unfold liftR. destruct (vget _ _); [|discriminate].
    intros H. injection H as _ <-. reflexivity.
Qed.

(** An edit view that is drawn begins with the window of its shader. *)
Lemma editShader_begins_window (env : Env) (sh : Shader) (w w' : World) :
  editShader env sh w = Ok (tt, w') ->
  exists rest : list UICmd,
    log w' = log w ++ CPushID (sh_addr sh) :: CBegin (sh_name sh) :: rest.
Proof.
  unfold editShader. intros H.
  unfold bind at 1 in H.
  destruct (editShader_load env sh w) as [[u w1]|] eqn:E; [|discriminate].
  apply editShader_load_log in E.
  unfold bind at 1 2, emit in H.
  assert (Hbody : respects log_grows (editShader_body env sh)).
  { apply frame_editShader_body.
    - apply log_grows_refl.
    - apply log_grows_trans.
    - intros v v' _ Hg. exact Hg.
    - apply respects_when; [apply log_grows_refl|].
      intros v a v' Hv. injection Hv as _ <-. apply log_grows_same. reflexivity. }
  apply Hbody in H as [rest Hrest]. cbn [log] in Hrest.
  exists rest. rewrite Hrest, E, <- !app_assoc. reflexivity.
Qed.

(** C6: when the shader an open edit view refers to has been destroyed (no
    live shader is the object the weak reference follows), the lock fails,
    the edit view draws nothing, raises no error and leaves the state as it
    is; with no "Edit" button pressed, [gui] is then just its panels.  When
    the lock succeeds it yields the live shader the reference follows, the
    view drawn is [editShader] of exactly that shader, it begins with that
    shader's window, and while the window is left open the reference stays
    as it is. *)
Theorem edit_view_follows_weak_reference
    (env : Env) (r : Renderer) (useWindow : bool) (w : World) :
  ((forall sh, In sh (shaders r) -> shaderEdit (insp w) <> Some (sh_uid sh)) ->
   gui_edit_view env r w = Ok (tt, w) /\
   ((forall sh, In sh (shaders r) ->
       ui_button env ["Edit"%string; node_label (sh_name sh) (sh_addr sh)]
       = false) ->
    gui env r useWindow w = gui_panels env r useWindow w)) /\
  (forall sh, weak_lock (shaderEdit (insp w)) (shaders r) = Some sh ->
   In sh (shaders r) /\ shaderEdit (insp w) = Some (sh_uid sh) /\
   gui_edit_view env r w = editShader env sh w /\
   (forall w', editShader env sh w = Ok (tt, w') ->
      (exists rest : list UICmd,
         log w' = log w ++ CPushID (sh_addr sh) :: CBegin (sh_name sh) :: rest) /\
      (ui_window_open env (sh_name sh) = true ->
       shaderEdit (insp w') = shaderEdit (insp w)))).
Proof.
  split.
  - intros Hdead. split.
    + apply gui_edit_view_expired, weak_lock_expired, Hdead.
    + intros Hno. unfold gui, bind.
      destruct (gui_panels env r useWindow w) as [[u w1]|e] eqn:E;
        [|reflexivity].
      pose proof (gui_panels_keep_edit env r useWindow Hno w u w1 E) as Hkept.
      unfold edit_kept in Hkept.
      rewrite gui_edit_view_expired; [destruct u; reflexivity|].
      rewrite Hkept. apply weak_lock_expired, Hdead.
  - intros sh Hlock.
    destruct (weak_lock_Some _ _ _ Hlock) as [Hin He].
    split; [exact Hin|]. split; [exact He|].
    split; [apply gui_edit_view_alive, Hlock|].
    intros w' Hrun. split.
    + apply editShader_begins_window with (env := env), Hrun.
    + intros Hopen.
      apply (editShader_keeps_edit env sh Hopen w tt w' Hrun).
Qed.

Lemma edit_view_follows_weak_reference_witness :
  (gui_edit_view example_env empty_renderer editing_world
   = Ok (tt, editing_world) /\
   gui example_env empty_renderer true editing_world
   = gui_panels example_env empty_renderer true editing_world) /\
  gui_edit_view example_env example_renderer editing_world
  = editShader example_env example_shader editing_world.
Proof.
  split.
  - destruct (proj1 (edit_view_follows_weak_reference
                       example_env empty_renderer true editing_world))
      as [Hview Hgui].
    + intros sh [].
    + split; [exact Hview|]. apply Hgui. intros sh [].
  - apply (proj2 (edit_view_follows_weak_reference
                    example_env example_renderer true editing_world)
                 example_shader).
    reflexivity.
Defined.

(** ** The registry panels *)

Lemma gui_shaders_empty (env : Env) (r : Renderer) (w : World) :
  shaders r = [] ->
  gui_shaders env r w
  = Ok (tt, logged (placeholder_panel env "Shaders" "No shaders") w).
Proof.
  intros H. unfold gui_shaders, placeholder_panel. rewrite H.
  unfold LabelText, CollapsingHeader, when, bind, emit, ret, logged. cbn.
  destruct (ui_header env "Shaders"); cbn; rewrite <- ?app_assoc; reflexivity.
Qed.

Lemma gui_textures_empty (env : Env) (r : Renderer) (w : World) :
  textures r = [] ->
  gui_textures env r w
  = Ok (tt, logged (placeholder_panel env "Textures" "No textures") w).
Proof.
  intros H. unfold gui_textures, placeholder_panel. rewrite H.
  unfold LabelText, CollapsingHeader, when, bind, emit, ret, logged. cbn.
  destruct (ui_header env "Textures"); cbn; rewrite <- ?app_assoc; reflexivity.
Qed.

Lemma gui_meshes_empty (env : Env) (r : Renderer) (w : World) :
  meshes r = [] ->
  gui_meshes env r w
  = Ok (tt, logged (placeholder_panel env "Meshes" "No meshes") w).
Proof.
  intros H. unfold gui_meshes, placeholder_panel. rewrite H.
  unfold LabelText, CollapsingHeader, when, bind, emit, ret, logged. cbn.
  destruct (ui_header env "Meshes"); cbn; rewrite <- ?app_assoc; reflexivity.
Qed.

(** ** The panels run through *)

Lemma plot_loop_total (sample : Z -> result float32) (s : Inspector) :
  ring_wf s ->
  frameCount s + frames s - 1 <= CInt.INT_MAX ->
  2 * frames s - 1 <= CInt.INT_MAX ->
  (forall idx, 0 <= idx < frames s -> exists t, sample idx = Ok t) ->
  exists (d : list float32) (mx sum : float32),
    plot_loop sample s = Ok (d, mx, sum) /\
    length d = Z.to_nat (frames s).
Proof.
  intros (Hn & Hfc & Hst & Hms & Hd) Hmax H2 Htotal.
  set (vals := (fun i : nat =>
                  match sample ((frameCount s + Z.of_nat i) mod frames s) with
                  | Ok t => t
                  | Fail _ => F32.zero
                  end) <$> seq 0 (Z.to_nat (frames s))).
  assert (Hlen : length vals = Z.to_nat (frames s)).
  { unfold vals. rewrite length_fmap, length_seq. reflexivity. }
  exists vals, (foldl F32.max F32.zero vals), (foldl F32.add F32.zero vals).
  split; [|exact Hlen].
  apply plot_loop_ok; try assumption.
  intros i t Hi. unfold vals in Hi.
  rewrite list_lookup_fmap in Hi.
  destruct (seq 0 (Z.to_nat (frames s)) !! i) as [j|] eqn:Hj; [|discriminate].
  apply lookup_seq in Hj as [-> Hlt]. cbn in Hi.
  destruct (Htotal ((frameCount s + Z.of_nat i) mod frames s)) as [t' Ht'].
  { apply Z.mod_pos_bound, Hn. }
  rewrite Ht' in Hi |- *. congruence.
Qed.

Lemma plots_defined_set_data (d : list float32) (s : Inspector) :
  plots_defined s -> length d = Z.to_nat (frames s) ->
  plots_defined (set_data d s).
Proof.
  intros ((Hn & Hfc & Hst & Hms & Hd) & Hmax & H2 & Hfit) Hlen.
  unfold plots_defined, ring_wf. cbn. repeat split; assumption.
Qed.

Lemma draw_plot_runs_through (sample : Inspector -> Z -> result float32)
    (label : float32 -> float32 -> Text) (overlay : string) :
  (forall s idx, plots_defined s -> 0 <= idx < frames s ->
     exists t, sample s idx = Ok t) ->
  runs_through (draw_plot sample label overlay).
Proof.
  intros Htotal w Hdef. pose proof Hdef as (Hwf & Hmax & H2 & Hfit).
  destruct (plot_loop_total (sample (insp w)) (insp w) Hwf Hmax H2)
    as (d & mx & sum & Hloop & Hlen).
  { intros idx Hidx. apply Htotal; assumption. }
  unfold draw_plot, bind. rewrite on_insp_run. unfold plot.
  rewrite Hloop. cbn [rbind]. unfold emit. cbn.
  eexists _, _. split; [reflexivity|]. split; [|reflexivity].
  apply plots_defined_set_data; assumption.
Qed.

Lemma stats_slot (s : Inspector) (idx : Z) :
  plots_defined s -> 0 <= idx < frames s ->
  exists st, vget (stats s) idx = Ok st /\ stateChanges_fit st.
Proof.
  intros ((Hn & Hfc & Hst & Hms & Hd) & _ & _ & Hfit) Hidx.
  destruct (lookup_lt_is_Some_2 (stats s) (Z.to_nat idx) ltac:(lia)) as [st Hst'].
  exists st. split; [apply vget_Z; [lia | exact Hst']|].
  rewrite Forall_forall in Hfit. apply Hfit.
  apply list_elem_of_lookup. exists (Z.to_nat idx). exact Hst'.
Qed.

Lemma sample_milliseconds_total (s : Inspector) (idx : Z) :
  plots_defined s -> 0 <= idx < frames s ->
  exists t, sample_milliseconds s idx = Ok t.
Proof.
  intros ((Hn & Hfc & Hst & Hms & Hd) & _) Hidx.
  destruct (lookup_lt_is_Some_2 (milliseconds s) (Z.to_nat idx) ltac:(lia))
    as [t Ht].
  exists t. apply vget_Z; [lia | exact Ht].
Qed.

Lemma sample_drawCalls_total (s : Inspector) (idx : Z) :
  plots_defined s -> 0 <= idx < frames s ->
  exists t, sample_drawCalls s idx = Ok t.
Proof.
  intros Hdef Hidx. destruct (stats_slot s idx Hdef Hidx) as (st & Hget & _).
  unfold sample_drawCalls. rewrite Hget. eexists. reflexivity.
Qed.

Lemma sample_stateChanges_total (s : Inspector) (idx : Z) :
  plots_defined s -> 0 <= idx < frames s ->
  exists t, sample_stateChanges s idx = Ok t.
Proof.
  intros Hdef Hidx.
  destruct (stats_slot s idx Hdef Hidx) as (st & Hget & Hfit1 & Hfit2).
  unfold sample_stateChanges. rewrite Hget. cbn [rbind].
  rewrite CInt_add_ok by assumption. cbn [rbind].
  rewrite CInt_add_ok by assumption. eexists. reflexivity.
Qed.

Lemma sample_meshMB_total (s : Inspector) (idx : Z) :
  plots_defined s -> 0 <= idx < frames s ->
  exists t, sample_meshMB s idx = Ok t.
Proof.
  intros Hdef Hidx. destruct (stats_slot s idx Hdef Hidx) as (st & Hget & _).
  unfold sample_meshMB. rewrite Hget. eexists. reflexivity.
Qed.

Lemma sample_textureMB_total (s : Inspector) (idx : Z) :
  plots_defined s -> 0 <= idx < frames s ->
  exists t, sample_textureMB s idx = Ok t.
Proof.
  intros Hdef Hidx. destruct (stats_slot s idx Hdef Hidx) as (st & Hget & _).
  unfold sample_textureMB. rewrite Hget. eexists. reflexivity.
Qed.

Lemma runs_through_emit (c : UICmd) : runs_through (emit c).
Proof.
  intros w Hdef. exists [c], (insp w).
  split; [reflexivity|]. split; [assumption | reflexivity].
Qed.

Lemma runs_through_ret : runs_through (ret tt).
Proof.
  intros w Hdef. exists [], (insp w). unfold ret. rewrite app_nil_r.
  destruct w. split; [reflexivity|]. split; [assumption | reflexivity].
Qed.

Lemma runs_through_seq (m1 m2 : M unit) :
  runs_through m1 -> runs_through m2 -> runs_through (m1 >> m2).
Proof.
  intros H1 H2 w Hdef.
  destruct (H1 w Hdef) as (l1 & s1 & E1 & Hdef1 & Hed1).
  destruct (H2 (mkWorld s1 (edit w) (spriteAtlasSelection w) (log w ++ l1))
              Hdef1) as (l2 & s2 & E2 & Hdef2 & Hed2).
  exists (l1 ++ l2), s2. unfold bind. rewrite E1, E2. cbn.
  rewrite app_assoc. split; [reflexivity|].
  split; [assumption | cbn in Hed2; congruence].
Qed.

Lemma runs_through_when (b : bool) (m : M unit) :
  runs_through m -> runs_through (when b m).
Proof. intros H. destruct b; [exact H | apply runs_through_ret]. Qed.

Lemma runs_through_header (env : Env) (label : string) (m : M unit) :
  runs_through m ->
  runs_through (let! opened := CollapsingHeader env label in when opened m).
Proof.
  intros H w Hdef. unfold CollapsingHeader.
  apply (runs_through_seq (emit (CCollapsingHeader label))
           (when (ui_header env label) m));
    [apply runs_through_emit | apply runs_through_when, H | exact Hdef].
Qed.

Lemma gui_renderer_runs_through (env : Env) (r : Renderer) :
  runs_through (gui_renderer env r).
Proof.
  unfold gui_renderer. apply runs_through_header.
  apply runs_through_seq; [apply runs_through_emit|].
  apply runs_through_seq.
  - intros w Hdef. unfold bind, get_insp.
    destruct (sdlRenderer (insp w)) as [sdl|].
    + apply (runs_through_seq _ _ (runs_through_emit _)
               (runs_through_seq _ _ (runs_through_emit _) (runs_through_emit _))).
      exact Hdef.
    + apply runs_through_ret, Hdef.
  - repeat (apply runs_through_seq; [apply runs_through_emit|]).
    apply runs_through_emit.
Qed.

Lemma gui_performance_runs_through (env : Env) :
  runs_through (gui_performance env).
Proof.
  unfold gui_performance. apply runs_through_header.
  apply runs_through_seq;
    [apply draw_plot_runs_through, sample_milliseconds_total|].
  apply runs_through_seq;
    [apply draw_plot_runs_through, sample_drawCalls_total|].
  apply draw_plot_runs_through, sample_stateChanges_total.
Qed.

Lemma gui_memory_runs_through (env : Env) (r : Renderer) :
  runs_through (gui_memory env r).
Proof.
  unfold gui_memory. apply runs_through_header.
  apply runs_through_seq;
    [apply draw_plot_runs_through, sample_meshMB_total|].
  apply draw_plot_runs_through, sample_textureMB_total.
Qed.

(** With every registry empty the whole of [gui] runs through where the
    plots are defined, and the three placeholder panels are in its log. *)
Lemma gui_runs_through_when_empty (env : Env) (r : Renderer) (useWindow : bool)
    (w : World) :
  plots_defined (insp w) ->
  shaders r = [] -> textures r = [] -> meshes r = [] ->
  spriteAtlases r = [] -> framebufferObjects r = [] ->
  exists (before : list UICmd) (s' : Inspector),
    gui env r useWindow w
    = Ok (tt, mkWorld s' (edit w) (spriteAtlasSelection w)
                (log w ++ before
                 ++ placeholder_panel env "Shaders" "No shaders"
                 ++ placeholder_panel env "Textures" "No textures"
                 ++ placeholder_panel env "Meshes" "No meshes"
                 ++ (if useWindow then [CEnd] else []))).
Proof.
  intros Hdef Hsh Htex Hmesh Hatlas Hfbo.
  assert (Hfirst : runs_through
            (when useWindow (emit (CBegin "SRE Renderer")) >>
             gui_renderer env r >> gui_performance env >> gui_memory env r)).
  { apply runs_through_seq; [apply runs_through_when, runs_through_emit|].
    apply runs_through_seq; [apply gui_renderer_runs_through|].
    apply runs_through_seq; [apply gui_performance_runs_through|].
    apply gui_memory_runs_through. }
  destruct (Hfirst w Hdef) as (before & s1 & E1 & Hdef1 & Hed1).
  exists before, s1.
  unfold gui, gui_panels.
  unfold bind in E1 |- *.
  destruct (when useWindow (emit (CBegin "SRE Renderer")) w)
    as [[u0 w0]|]; [|discriminate].
  destruct (gui_renderer env r w0) as [[u1 w1]|]; [|discriminate].
  destruct (gui_performance env w1) as [[u2 w2]|]; [|discriminate].
  rewrite E1.
  rewrite gui_shaders_empty, gui_textures_empty, gui_meshes_empty by assumption.
  unfold gui_spriteAtlases, gui_framebufferObjects.
  rewrite Hatlas, Hfbo. cbn [is_empty negb when ret].
  unfold gui_edit_view, bind, get_insp.
  rewrite Hsh.
  destruct useWindow; unfold when, emit, ret, logged;
    cbn [insp edit spriteAtlasSelection log];
    rewrite weak_lock_nil, <- ?app_assoc, ?app_nil_r; reflexivity.
Qed.

(** C8: whatever the state of the renderer's registries, the panel of an
    empty registry does not fail: for zero shaders, zero textures or zero
    meshes it draws its header and, when the header is open, the placeholder
    label "No shaders", "No textures" or "No meshes", changing nothing but
    the log.  With all registries empty and the inspector in a state where
    its plots are defined, the whole of [gui] returns without error and its
    log ends with the three placeholder panels. *)
Theorem empty_registry_shows_placeholder
    (env : Env) (r : Renderer) (useWindow : bool) (w : World) :
  (shaders r = [] ->
   gui_shaders env r w
   = Ok (tt, logged (placeholder_panel env "Shaders" "No shaders") w)) /\
  (textures r = [] ->
   gui_textures env r w
   = Ok (tt, logged (placeholder_panel env "Textures" "No textures") w)) /\
  (meshes r = [] ->
   gui_meshes env r w
   = Ok (tt, logged (placeholder_panel env "Meshes" "No meshes") w)) /\
  (plots_defined (insp w) ->
   shaders r = [] -> textures r = [] -> meshes r = [] ->
   spriteAtlases r = [] -> framebufferObjects r = [] ->
   exists (before : list UICmd) (s' : Inspector),
     gui env r useWindow w
     = Ok (tt, mkWorld s' (edit w) (spriteAtlasSelection w)
                 (log w ++ before
                  ++ placeholder_panel env "Shaders" "No shaders"
                  ++ placeholder_panel env "Textures" "No textures"
                  ++ placeholder_panel env "Meshes" "No meshes"
                  ++ (if useWindow then [CEnd] else [])))).
Proof.
  split; [|split; [|split]].
  - apply gui_shaders_empty.
  - apply gui_textures_empty.
  - apply gui_meshes_empty.
  - apply gui_runs_through_when_empty.
Qed.

Lemma empty_registry_shows_placeholder_witness :
  gui_shaders example_env empty_renderer editing_world
  = Ok (tt, logged [CCollapsingHeader "Shaders";
                    CLabelText EmptyString (plain "No shaders")] editing_world) /\
  gui_textures example_env example_renderer editing_world
  = Ok (tt, logged [CCollapsingHeader "Textures";
                    CLabelText EmptyString (plain "No textures")] editing_world) /\
  gui_meshes example_env example_renderer editing_world
  = Ok (tt, logged [CCollapsingHeader "Meshes";
                    CLabelText EmptyString (plain "No meshes")] editing_world) /\
  exists (before : list UICmd) (s' : Inspector),
    gui example_env empty_renderer true (World_init example_running)
    = Ok (tt, mkWorld s' EditStatics_init [] 
                (before
                 ++ [CCollapsingHeader "Shaders";
                     CLabelText EmptyString (plain "No shaders");
                     CCollapsingHeader "Textures";
                     CLabelText EmptyString (plain "No textures");
                     CCollapsingHeader "Meshes";
                     CLabelText EmptyString (plain "No meshes");
                     CEnd])).
Proof.
  split; [|split; [|split]].
  - apply (proj1 (empty_registry_shows_placeholder
                    example_env empty_renderer true editing_world)).
    reflexivity.
  - apply (proj1 (proj2 (empty_registry_shows_placeholder
                           example_env example_renderer true editing_world))).
    reflexivity.
  - apply (proj1 (proj2 (proj2 (empty_registry_shows_placeholder
                           example_env example_renderer true editing_world)))).
    reflexivity.
  - apply (proj2 (proj2 (proj2 (empty_registry_shows_placeholder
                           example_env empty_renderer true
                           (World_init example_running))))).
    + split; [repeat split; vm_compute; (reflexivity || discriminate)|].
      split; [vm_compute; discriminate|]. split; [vm_compute; discriminate|].
      cbn [insp World_init].
      let l := eval vm_compute in (stats example_running) in
        change (stats example_running) with l.
      repeat (constructor; [split; split; vm_compute; discriminate|]).
      constructor.
    + reflexivity.
    + reflexivity.
    + reflexivity.
    + reflexivity.
    + reflexivity.
Defined.

(** ** The selection of the shader editor *)

(** What the clamp guarantees: the index is at most the number of combo
    entries, which is one more than the last valid index. *)
Lemma select_shader_upper_bound (env : Env) (title : string) (current : Z)
    (activeShaders : list string) :
  snd (select_shader env title current activeShaders)
  <= Z.of_nat (length activeShaders).
Proof.
  unfold select_shader. destruct (ui_combo env _ _ _) as [updated chosen].
  cbn [snd]. rewrite CInt_min_spec. lia.
Qed.

(** With a combo that answers an index of one of its entries, an index that
    is valid stays valid. *)
Lemma select_shader_in_bounds (env : Env) (title : string) (current : Z)
    (activeShaders : list string) :
  0 <= current < Z.of_nat (length activeShaders) ->
  (let (updated, chosen) :=
     ui_combo env ["####ShaderType"%string; title] current activeShaders in
   updated = true -> 0 <= chosen < Z.of_nat (length activeShaders)) ->
  0 <= snd (select_shader env title current activeShaders)
    < Z.of_nat (length activeShaders).
Proof.
  intros Hcur. unfold select_shader.
  destruct (ui_combo env _ _ _) as [updated chosen]. intros Hcombo.
  cbn [snd]. rewrite CInt_min_spec.
  destruct updated; [specialize (Hcombo eq_refl)|]; lia.
Qed.

(** C10, at the failing inputs.  (1) The edit view of a shader with two
    sources is opened; the shader is rebuilt with a third source; the user
    picks the new, third combo entry: the clamp [std::min(2, 3)] keeps 2,
    and [shaderCode[2]] is read from the two strings loaded when the view
    was opened.  (2) A combo that stores the number of its entries passes
    the clamp [std::min(2, 2)] and [shaderCode[2]] is out of bounds as
    well. *)
Theorem editShader_reads_shaderCode_out_of_bounds :
  (exists w1 : World,
     editShader example_env example_shader editing_world = Ok (tt, w1) /\
     shaderCode (edit w1) = ["unlit_vert.glsl"%string; "unlit_frag.glsl"%string] /\
     select_shader (picking_env 2) (sh_name rebuilt_shader)
                   (selectedShader (edit w1)) (active_shaders rebuilt_shader)
     = (true, 2) /\
     vget (shaderCode (edit w1)) 2 = Fail UndefinedBehaviour /\
     editShader (picking_env 2) rebuilt_shader w1 = Fail UndefinedBehaviour) /\
  (select_shader (picking_env 2) (sh_name example_shader) 0
                 (active_shaders example_shader)
   = (true, 2) /\
   editShader (picking_env 2) example_shader editing_world
   = Fail UndefinedBehaviour).
Proof.
  split.
  - eexists. split; [vm_compute; reflexivity|].
    repeat split; vm_compute; reflexivity.
  - split; vm_compute; reflexivity.
Qed.

(** * Further properties *)

(** ** Strings and decimal numerals *)

Lemma string_app_inv_head (p a b : string) :
  (p ++ a)%string = (p ++ b)%string -> a = b.
Proof.
  induction p as [|c p IH]; cbn [append]; intros H; [exact H|].
  injection H as H. apply IH, H.
Qed.

Lemma string_length_app (a b : string) :
  String.length (a ++ b) = (String.length a + String.length b)%nat.
Proof. induction a as [|c a IH]; cbn; [reflexivity | f_equal; exact IH]. Qed.

Lemma string_app_inv_tail (a b c : string) :
  (a ++ c)%string = (b ++ c)%string -> a = b.
Proof.
  revert b. induction a as [|x a IH]; intros [|y b] H; cbn [append] in H.
  - reflexivity.
  - apply (f_equal String.length) in H. cbn in H.
    rewrite string_length_app in H. lia.
  - apply (f_equal String.length) in H. cbn in H.
    rewrite string_length_app in H. lia.
  - injection H as -> H. f_equal. apply IH, H.
Qed.

(** [std::to_string] tells two [int]s, and two sizes, apart. *)
Lemma to_string_inj (a b : Z) : CInt.to_string a = CInt.to_string b -> a = b.
Proof.
  unfold CInt.to_string. intros H.
  apply DecimalZ.to_int_inj.
  assert (Hparse : forall z, NilZero.int_of_string (NilZero.string_of_int (Z.to_int z))
                             = Some (Z.to_int z)).
  { intros z. apply NilZero.isi; destruct z as [|p|p]; cbn; try discriminate;
      intros E; injection E as E; exact (DecimalPos.Unsigned.to_uint_nonnil p E). }
  pose proof (Hparse a) as Ha. rewrite H, Hparse in Ha. congruence.
Qed.

Lemma size_to_string_inj (n m : nat) :
  size_to_string n = size_to_string m -> n = m.
Proof.
  unfold size_to_string. intros H.
  apply Nat2N.inj, DecimalN.Unsigned.to_uint_inj.
  assert (Hparse : forall k, NilZero.uint_of_string
                               (NilZero.string_of_uint (N.to_uint k))
                             = Some (N.to_uint k)).
  { intros k. apply NilZero.usu. destruct k as [|p]; cbn; [discriminate|].
    apply DecimalPos.Unsigned.to_uint_nonnil. }
  pose proof (Hparse (N.of_nat n)) as Hn. rewrite H, Hparse in Hn. congruence.
Qed.

(** ** The type names of the panels *)

Lemma glEnumToString_cases (a : Z) :
  (a = GL_FLOAT /\ glEnumToString a = "float"%string) \/
  (a = GL_FLOAT_VEC2 /\ glEnumToString a = "vec2"%string) \/
  (a = GL_FLOAT_VEC3 /\ glEnumToString a = "vec3"%string) \/
  (a = GL_FLOAT_VEC4 /\ glEnumToString a = "vec4"%string) \/
  (a = GL_FLOAT_MAT4 /\ glEnumToString a = "mat4"%string) \/
  (a = GL_FLOAT_MAT3 /\ glEnumToString a = "mat3"%string) \/
  (a = GL_INT_VEC4 /\ glEnumToString a = "ivec4"%string) \/
  (~ In a known_gl_types /\ glEnumToString a = "unknown"%string).
Proof.
  unfold glEnumToString, known_gl_types.
  destruct (Z.eqb_spec a GL_FLOAT); [tauto|].
  destruct (Z.eqb_spec a GL_FLOAT_VEC2); [tauto|].
  destruct (Z.eqb_spec a GL_FLOAT_VEC3); [tauto|].
  destruct (Z.eqb_spec a GL_FLOAT_VEC4); [tauto|].
  destruct (Z.eqb_spec a GL_FLOAT_MAT4); [tauto|].
  destruct (Z.eqb_spec a GL_FLOAT_MAT3); [tauto|].
  destruct (Z.eqb_spec a GL_INT_VEC4); [tauto|].
  do 7 right. split; [|reflexivity]. cbn. intuition congruence.
Qed.

(** X1: [glEnumToString] answers "unknown" exactly for the values that are
    none of the seven enumerators it knows, and the seven names are
    pairwise different: a known type is the only value with its name. *)
Theorem glEnumToString_tells_known_types_apart (a b : Z) :
  (glEnumToString a = "unknown"%string <-> ~ In a known_gl_types) /\
  (In a known_gl_types -> glEnumToString a = glEnumToString b -> a = b).
Proof.
  assert (Hknown : forall x, In x known_gl_types ->
            x = GL_FLOAT \/ x = GL_FLOAT_VEC2 \/ x = GL_FLOAT_VEC3 \/
            x = GL_FLOAT_VEC4 \/ x = GL_FLOAT_MAT4 \/ x = GL_FLOAT_MAT3 \/
            x = GL_INT_VEC4).
  { unfold known_gl_types. cbn. intuition congruence. }
  assert (Hin : forall x,
            x = GL_FLOAT \/ x = GL_FLOAT_VEC2 \/ x = GL_FLOAT_VEC3 \/
            x = GL_FLOAT_VEC4 \/ x = GL_FLOAT_MAT4 \/ x = GL_FLOAT_MAT3 \/
            x = GL_INT_VEC4 -> In x known_gl_types).
  { unfold known_gl_types. cbn. intuition congruence. }
  split.
  - destruct (glEnumToString_cases a)
      as [[-> E]|[[-> E]|[[-> E]|[[-> E]|[[-> E]|[[-> E]|[[-> E]|[Hn E]]]]]]]];
      rewrite E; split; intros H; try discriminate; try reflexivity;
      try exact Hn; exfalso; apply H, Hin; tauto.
  - intros Ha.
    destruct (glEnumToString_cases a)
      as [[-> E]|[[-> E]|[[-> E]|[[-> E]|[[-> E]|[[-> E]|[[-> E]|[Hn E]]]]]]]];
      [..|contradiction]; rewrite E;
      destruct (glEnumToString_cases b)
        as [[-> F]|[[-> F]|[[-> F]|[[-> F]|[[-> F]|[[-> F]|[[-> F]|[Hm F]]]]]]]];
      rewrite F; intros H; try discriminate; reflexivity.
Qed.

Lemma appendSize_suffix (s : string) (n : Z) :
  1 < n -> appendSize s n = (s ++ "[" ++ CInt.to_string n ++ "]")%string.
Proof. intros H. unfold appendSize. destruct (Z.ltb_spec 1 n); [reflexivity|lia]. Qed.

Lemma appendSize_plain (s : string) (n : Z) : n <= 1 -> appendSize s n = s.
Proof. intros H. unfold appendSize. destruct (Z.ltb_spec 1 n); [lia|reflexivity]. Qed.

(** X2: the label of a uniform, [appendSize (glUniformToString type) size],
    determines the uniform's type and its array size: two labels are equal
    exactly when the types are equal and the sizes are equal or both at
    most 1 (a size of at most 1 adds no suffix). *)
Theorem uniform_label_tells_type_and_size (t1 t2 : UniformType) (n1 n2 : Z) :
  appendSize (glUniformToString t1) n1 = appendSize (glUniformToString t2) n2
  <-> t1 = t2 /\ Z.max 1 n1 = Z.max 1 n2.
Proof.
  split.
  - destruct (Z.lt_ge_cases 1 n1) as [H1|H1], (Z.lt_ge_cases 1 n2) as [H2|H2];
      rewrite ?(appendSize_suffix _ n1 H1), ?(appendSize_suffix _ n2 H2),
        ?(appendSize_plain _ n1 H1), ?(appendSize_plain _ n2 H2);
      destruct t1, t2; cbn [glUniformToString append]; intros H;
      try discriminate H; (split; [reflexivity|]); try lia.
    all: injection H as H.
    all: apply string_app_inv_tail, to_string_inj in H; lia.
  - intros [<- H].
    destruct (Z.lt_ge_cases 1 n1) as [H1|H1], (Z.lt_ge_cases 1 n2) as [H2|H2];
      rewrite ?(appendSize_suffix _ n1 H1), ?(appendSize_suffix _ n2 H2),
        ?(appendSize_plain _ n1 H1), ?(appendSize_plain _ n2 H2);
      try lia; try reflexivity.
    replace n2 with n1 by lia. reflexivity.
Qed.

(** ** The constructor and [update] at the edges *)

Lemma update_time (rs : RenderStats) (tick : Z) (s s' : Inspector) :
  update rs tick s = Ok s' ->
  time s' = F32.add (time s) (duration_ms tick (lastTick s)) /\
  lastTick s' = tick /\ frames s' = frames s /\
  framebuffer s' = framebuffer s /\ worldLights s' = worldLights s /\
  previewSize s' = previewSize s /\ sdlRenderer s' = sdlRenderer s.
Proof.
  unfold update. cbn -[Z.rem CInt.rem CInt.add].
  destruct (CInt.rem _ _) as [slot|]; [|discriminate]. cbn [rbind].
  destruct (vset (stats s) _ _) as [st|]; [|discriminate]. cbn [rbind].
  destruct (vset (milliseconds s) _ _) as [ms|]; [|discriminate]. cbn [rbind].
  destruct (CInt.add _ _) as [fc|]; [|discriminate]. cbn [rbind].
  intros H. injection H as <-. cbn. repeat split; reflexivity.
Qed.

Lemma update_capacity_zero (rs : RenderStats) (tick : Z) (s : Inspector) :
  frames s = 0 -> update rs tick s = Fail UndefinedBehaviour.
Proof. intros H. unfold update. cbn -[Z.rem]. rewrite H. reflexivity. Qed.

(** X3: the constructor refuses a negative capacity with a length error
    and accepts every other one, sizing the three buffers to it.  A
    capacity of 0 is accepted, and the loop of a plot then does nothing, but
    every [update] of such an inspector is undefined ([frameCount % 0]);
    with a positive capacity the first [update] succeeds and counts one
    frame. *)
Theorem constructor_capacity_cases
    (frames_ : Z) (sdl : option SDLRenderer) (now : Z)
    (time0 previewSize_ : float32) (rs : RenderStats) (tick : Z) :
  (frames_ < 0 ->
   Inspector_new frames_ sdl now time0 previewSize_ = Fail LengthError) /\
  (0 <= frames_ ->
   exists s0 : Inspector,
     Inspector_new frames_ sdl now time0 previewSize_ = Ok s0 /\
     frames s0 = frames_ /\ frameCount s0 = 0 /\
     stats s0 = replicate (Z.to_nat frames_) RenderStats_zero /\
     milliseconds s0 = replicate (Z.to_nat frames_) F32.zero /\
     data s0 = replicate (Z.to_nat frames_) F32.zero /\
     (frames_ = 0 ->
      update rs tick s0 = Fail UndefinedBehaviour /\
      forall sample, plot_loop sample s0 = Ok ([], F32.zero, F32.zero)) /\
     (0 < frames_ ->
      exists s1 : Inspector, update rs tick s0 = Ok s1 /\ frameCount s1 = 1)).
Proof.
  split.
  - intros H. unfold Inspector_new, vresize_empty.
    destruct (Z.ltb_spec frames_ 0); [reflexivity | lia].
  - intros H. eexists. split.
    { unfold Inspector_new, vresize_empty.
      destruct (Z.ltb_spec frames_ 0); [lia | reflexivity]. }
    cbn [frames frameCount stats milliseconds data].
    do 5 (split; [reflexivity|]). split.
    + intros ->. split; [reflexivity|]. intros sample. reflexivity.
    + intros Hpos. eexists. split; [|].
      * apply update_ok.
        -- unfold ring_wf. cbn. rewrite !length_replicate. lia.
        -- cbn. unfold CInt.INT_MAX. lia.
      * reflexivity.
Qed.

(** X4: where the buffers have their capacity, [update] is defined as long
    as the frame count is below [INT_MAX], keeps the buffers at their
    capacity and counts the frame; at [INT_MAX] the increment overflows and
    the call is undefined. *)
Theorem update_defined_below_int_max
    (rs : RenderStats) (tick : Z) (s : Inspector) :
  ring_wf s ->
  (frameCount s < CInt.INT_MAX ->
   exists s' : Inspector,
     update rs tick s = Ok s' /\ ring_wf s' /\
     frameCount s' = frameCount s + 1) /\
  (frameCount s = CInt.INT_MAX -> update rs tick s = Fail UndefinedBehaviour).
Proof.
  intros Hwf. pose proof Hwf as (Hn & Hfc & Hst & Hms & Hd). split.
  - intros Hlt. eexists. split; [apply update_ok; assumption|].
    unfold ring_wf. cbn. rewrite !length_insert.
    repeat split; (assumption || lia).
  - intros Hmax. unfold update. cbn -[Z.rem].
    pose proof (Z.mod_pos_bound (frameCount s) (frames s) Hn) as B.
    rewrite CInt_rem_nonneg by assumption. cbn [rbind].
    rewrite vset_ok by lia. cbn [rbind].
    rewrite vset_ok by lia. cbn [rbind].
    rewrite Hmax. reflexivity.
Qed.

Lemma update_defined_below_int_max_witness :
  (exists s' : Inspector,
     update RenderStats_zero 16000000 example_inspector = Ok s' /\
     ring_wf s' /\ frameCount s' = 0 + 1).
Proof.
  apply (update_defined_below_int_max RenderStats_zero 16000000 example_inspector).
  - unfold ring_wf. cbn. lia.
  - cbn. unfold CInt.INT_MAX. lia.
Defined.

(** X5: [time], the clock that turns the previews, is the sum of the frame
    times in [float] arithmetic: after a run of [update] it is the value
    before with the recorded [deltaTime] of each frame added in order. *)
Theorem time_accumulates_frame_times (fs : list Frame) (s0 s : Inspector) :
  updates fs s0 = Ok s ->
  time s = foldl F32.add (time s0) (recorded_ms (lastTick s0) fs).
Proof.
  revert s0. induction fs as [|[rs tick] fs IH]; intros s0 H.
  - injection H as <-. reflexivity.
  - unfold updates in H. cbn [foldR fst snd] in H.
    destruct (update rs tick s0) as [s1|] eqn:E; [|discriminate].
    cbn [rbind] in H. apply IH in H.
    apply update_time in E as (Et & El & _).
    cbn [recorded_ms foldl snd]. rewrite H, Et, El. reflexivity.
Qed.

Lemma time_accumulates_frame_times_witness :
  time example_running
  = foldl F32.add (time example_inspector)
          (recorded_ms (lastTick example_inspector) example_frames).
Proof.
  apply (time_accumulates_frame_times example_frames example_inspector
           example_running).
  vm_compute. reflexivity.
Defined.

(** ** The plots of the frame statistics *)

(** After [f] frames the stats ring reads, chronologically, as
    value-initialised records followed by the last [min f frames] records. *)
Lemma stats_after_updates (frames_ : Z) (sdl : option SDLRenderer)
    (now : Z) (time0 previewSize_ : float32) (fs : list Frame) :
  0 < frames_ -> Z.of_nat (length fs) <= CInt.INT_MAX ->
  exists s0 s : Inspector,
    Inspector_new frames_ sdl now time0 previewSize_ = Ok s0 /\
    updates fs s0 = Ok s /\ ring_wf s /\ frames s = frames_ /\
    frameCount s = Z.of_nat (length fs) /\
    chronological s (stats s)
    = replicate (Z.to_nat frames_ - Nat.min (length fs) (Z.to_nat frames_))
                RenderStats_zero
      ++ last_n (Nat.min (length fs) (Z.to_nat frames_)) (map fst fs).
Proof.
  intros Hn Hmax.
  eexists. destruct (Inspector_new_wf frames_ sdl now time0 previewSize_ _ Hn
                       (Inspector_new_ok frames_ sdl now time0 previewSize_ Hn))
    as (Hwf0 & Hfr0 & Hfc0 & Htick0 & Hms0 & Hst0).
  destruct (updates_ok fs _ Hwf0) as (s & Hrun & Hwf & Hfr & Hcnt & _ & _ & Hs).
  { rewrite Hfc0. lia. }
  exists s. split; [apply Inspector_new_ok, Hn|].
  split; [exact Hrun|]. split; [exact Hwf|].
  split; [rewrite Hfr; exact Hfr0|].
  split; [rewrite Hcnt, Hfc0; lia|].
  rewrite Hs, Hfr0. unfold chronological at 1.
  rewrite Hst0, rotate_replicate, last_n_replicate, length_map.
  reflexivity.
Qed.

(** A plot whose sample is a function [g] of the stats record of the slot,
    on a ring that reads as zeros followed by the recent records. *)
Lemma stats_plot_after_updates (s : Inspector) (sample : Z -> result float32)
    (g : RenderStats -> float32) (zeros : nat) (recent : list RenderStats) :
  ring_wf s ->
  frameCount s + frames s - 1 <= CInt.INT_MAX ->
  2 * frames s - 1 <= CInt.INT_MAX ->
  chronological s (stats s) = replicate zeros RenderStats_zero ++ recent ->
  Z.of_nat (length recent) = Z.min (frameCount s) (frames s) ->
  g RenderStats_zero = F32.zero ->
  (forall (idx : Z) (st : RenderStats),
     vget (stats s) idx = Ok st ->
     st = RenderStats_zero \/ In st recent -> sample idx = Ok (g st)) ->
  let shown := replicate zeros F32.zero ++ map g recent in
  plot_loop sample s
  = Ok (shown, foldl F32.max F32.zero shown, foldl F32.add F32.zero shown) /\
  running_avg s (foldl F32.add F32.zero shown) = arithmetic_mean (map g recent).
Proof.
  intros Hwf Hmax H2 Hchrono Hlen Hzero Hsample shown.
  pose proof Hwf as (Hn & Hfc & Hst & Hms & Hd).
  assert (Hshown : shown = map g (chronological s (stats s))).
  { unfold shown. rewrite Hchrono, map_app.
    f_equal. clear -Hzero. induction zeros as [|k IH]; [reflexivity|].
    cbn [replicate map]. rewrite Hzero, <- IH. reflexivity. }
  split.
  - rewrite Hshown.
    set (sample' := fun idx => let* st := vget (stats s) idx in Ok (g st)).
    assert (Hsame : forall i : nat, (i < Z.to_nat (frames s))%nat ->
              sample ((frameCount s + Z.of_nat i) mod frames s)
              = sample' ((frameCount s + Z.of_nat i) mod frames s)).
    { intros i Hi. unfold sample'.
      assert (Hlt : (i < length (chronological s (stats s)))%nat)
        by (rewrite length_chronological; lia).
      destruct (lookup_lt_is_Some_2 _ _ Hlt) as [st Ei].
      pose proof Ei as Ei'.
      rewrite chronological_lookup in Ei' by (assumption || lia).
      assert (Hget : vget (stats s) ((frameCount s + Z.of_nat i) mod frames s)
                     = Ok st).
      { apply vget_Z; [apply Z.mod_pos_bound, Hn | exact Ei']. }
      rewrite Hget. cbn [rbind]. apply Hsample; [exact Hget|].
      rewrite Hchrono in Ei. apply lookup_app_Some in Ei as [Ei|[_ Ei]].
      - left. apply lookup_replicate in Ei as [-> _]. reflexivity.
      - right. apply list_elem_of_lookup_2 in Ei.
        apply list_elem_of_In. exact Ei. }
    apply plot_loop_ok; try assumption.
    + rewrite length_map, length_chronological. exact Hst.
    + intros i t Ht.
      pose proof (lookup_lt_Some _ _ _ Ht) as Hi.
      rewrite length_map, length_chronological in Hi.
      rewrite Hsame by lia. unfold sample'.
      change (map g (chronological s (stats s)))
        with (g <$> chronological s (stats s)) in Ht.
      rewrite list_lookup_fmap in Ht.
      destruct (chronological s (stats s) !! i) as [st|] eqn:Ei; [|discriminate].
      injection Ht as <-.
      rewrite chronological_lookup in Ei by (assumption || lia).
      rewrite (vget_Z _ _ st); [reflexivity | apply Z.mod_pos_bound, Hn | exact Ei].
  - unfold shown. apply running_avg_mean; [exact Hn|].
    rewrite length_map. exact Hlen.
Qed.

Lemma last_n_In {A : Type} (n : nat) (l : list A) (a : A) :
  In a (last_n n l) -> In a l.
Proof.
  unfold last_n. generalize (length l - n)%nat. intros k. revert l.
  induction k as [|k IH]; intros [|x l]; cbn; auto.
Qed.

(** X6: the plots of the draw calls, of the state changes and of the mesh
    and texture memory (lines 330-399) each show, for a capacity
    [frames > 0] after [f] calls of [update], zeros for the slots never
    written followed by the value of the last [min f frames] Frame Stats
    records in the order they were recorded, and label the plot with the
    arithmetic mean of those values: the draw calls, the sum of the three
    state-change counters (where the sum fits an [int]) and the bytes
    divided by 1000000. *)
Theorem stats_plots_show_recent_frames
    (frames_ : Z) (sdl : option SDLRenderer) (now : Z)
    (time0 previewSize_ : float32) (fs : list Frame) :
  0 < frames_ ->
  2 * frames_ - 1 <= CInt.INT_MAX ->
  Z.of_nat (length fs) + frames_ - 1 <= CInt.INT_MAX ->
  exists s0 s : Inspector,
    Inspector_new frames_ sdl now time0 previewSize_ = Ok s0 /\
    updates fs s0 = Ok s /\
    let m := Nat.min (length fs) (Z.to_nat frames_) in
    let recent := last_n m (map fst fs) in
    let plotted (sample : Z -> result float32) (g : RenderStats -> float32) :=
      let shown := replicate (Z.to_nat frames_ - m) F32.zero ++ map g recent in
      plot_loop sample s
      = Ok (shown, foldl F32.max F32.zero shown, foldl F32.add F32.zero shown) /\
      running_avg s (foldl F32.add F32.zero shown)
      = arithmetic_mean (map g recent) in
    plotted (sample_drawCalls s) (fun st => F32.of_int (drawCalls st)) /\
    plotted (sample_meshMB s) (fun st => megabytes (meshBytes st)) /\
    plotted (sample_textureMB s) (fun st => megabytes (textureBytes st)) /\
    (Forall stateChanges_fit (map fst fs) ->
     plotted (sample_stateChanges s)
       (fun st => F32.of_int (stateChangesShader st + stateChangesMaterial st
                              + stateChangesMesh st))).
Proof.
  intros Hn H2 Hmax.
  destruct (stats_after_updates frames_ sdl now time0 previewSize_ fs Hn)
    as (s0 & s & Hnew & Hrun & Hwf & Hfr & Hcnt & Hchrono); [lia|].
  exists s0, s. split; [exact Hnew|]. split; [exact Hrun|].
  cbv zeta.
  set (m := Nat.min (length fs) (Z.to_nat frames_)) in *.
  set (recent := last_n m (map fst fs)) in *.
  assert (Hrecent : Z.of_nat (length recent) = Z.min (frameCount s) (frames s)).
  { unfold recent.
    rewrite length_last_n by (rewrite length_map; apply Nat.le_min_l).
    rewrite Hcnt, Hfr. unfold m. lia. }
  assert (Hplot : forall sample g,
            g RenderStats_zero = F32.zero ->
            (forall idx st, vget (stats s) idx = Ok st ->
               st = RenderStats_zero \/ In st recent -> sample idx = Ok (g st)) ->
            let shown := replicate (Z.to_nat frames_ - m) F32.zero ++ map g recent in
            plot_loop sample s
            = Ok (shown, foldl F32.max F32.zero shown,
                  foldl F32.add F32.zero shown) /\
            running_avg s (foldl F32.add F32.zero shown)
            = arithmetic_mean (map g recent)).
  { intros sample g Hzero Hsample.
    apply stats_plot_after_updates; try assumption; rewrite ?Hcnt, ?Hfr; lia. }
  split; [|split; [|split]].
  - apply Hplot; [reflexivity|].
    intros idx st Hget _. unfold sample_drawCalls. rewrite Hget. reflexivity.
  - apply Hplot; [vm_compute; reflexivity|].
    intros idx st Hget _. unfold sample_meshMB. rewrite Hget. reflexivity.
  - apply Hplot; [vm_compute; reflexivity|].
    intros idx st Hget _. unfold sample_textureMB. rewrite Hget. reflexivity.
  - intros Hfit. apply Hplot; [reflexivity|].
    intros idx st Hget Hst. unfold sample_stateChanges. rewrite Hget.
    cbn [rbind].
    assert (Hfit' : stateChanges_fit st).
    { destruct Hst as [->|Hin].
      - unfold stateChanges_fit, CInt.INT_MIN, CInt.INT_MAX. cbn. lia.
      - apply last_n_In in Hin. rewrite Forall_forall in Hfit.
        apply Hfit, list_elem_of_In, Hin. }
    destruct Hfit' as [F1 F2].
    rewrite CInt_add_ok by exact F1. cbn [rbind].
    rewrite CInt_add_ok by exact F2. reflexivity.
Qed.

Lemma stats_plots_show_recent_frames_witness :
  exists s0 s : Inspector,
    Inspector_new 4 None 0 F32.zero (F32.of_int 100) = Ok s0 /\
    updates example_frames s0 = Ok s /\
    let m := Nat.min (length example_frames) (Z.to_nat 4) in
    let recent := last_n m (map fst example_frames) in
    let plotted (sample : Z -> result float32) (g : RenderStats -> float32) :=
      let shown := replicate (Z.to_nat 4 - m) F32.zero ++ map g recent in
      plot_loop sample s
      = Ok (shown, foldl F32.max F32.zero shown, foldl F32.add F32.zero shown) /\
      running_avg s (foldl F32.add F32.zero shown)
      = arithmetic_mean (map g recent) in
    plotted (sample_drawCalls s) (fun st => F32.of_int (drawCalls st)) /\
    plotted (sample_meshMB s) (fun st => megabytes (meshBytes st)) /\
    plotted (sample_textureMB s) (fun st => megabytes (textureBytes st)) /\
    (Forall stateChanges_fit (map fst example_frames) ->
     plotted (sample_stateChanges s)
       (fun st => F32.of_int (stateChangesShader st + stateChangesMaterial st
                              + stateChangesMesh st))).
Proof.
  apply (stats_plots_show_recent_frames 4 None 0 F32.zero (F32.of_int 100)
           example_frames).
  - reflexivity.
  - vm_compute. discriminate.
  - vm_compute. discriminate.
Defined.

(** The values a plot's loop leaves in [data], whatever [data] held. *)
Lemma plot_loop_values (sample : Z -> result float32) (s : Inspector) :
  ring_wf s ->
  frameCount s + frames s - 1 <= CInt.INT_MAX ->
  2 * frames s - 1 <= CInt.INT_MAX ->
  (forall idx, 0 <= idx < frames s -> exists t, sample idx = Ok t) ->
  let vals := (fun i : nat =>
                 match sample ((frameCount s + Z.of_nat i) mod frames s) with
                 | Ok t => t
                 | Fail _ => F32.zero
                 end) <$> seq 0 (Z.to_nat (frames s)) in
  plot_loop sample s
  = Ok (vals, foldl F32.max F32.zero vals, foldl F32.add F32.zero vals).
Proof.
  intros (Hn & Hfc & Hst & Hms & Hd) Hmax H2 Htotal vals.
  assert (Hlen : length vals = Z.to_nat (frames s)).
  { unfold vals. rewrite length_fmap, length_seq. reflexivity. }
  apply plot_loop_ok; try assumption.
  intros i t Hi. unfold vals in Hi.
  rewrite list_lookup_fmap in Hi.
  destruct (seq 0 (Z.to_nat (frames s)) !! i) as [j|] eqn:Hj; [|discriminate].
  apply lookup_seq in Hj as [-> Hlt]. cbn in Hi.
  destruct (Htotal ((frameCount s + Z.of_nat i) mod frames s)) as [t' Ht'].
  { apply Z.mod_pos_bound, Hn. }
  rewrite Ht' in Hi |- *. congruence.
Qed.

Lemma plot_ignores_buffer (sample : Inspector -> Z -> result float32)
    (label : float32 -> float32 -> Text) (overlay : string)
    (s : Inspector) (d : list float32) :
  plots_defined s -> length d = Z.to_nat (frames s) ->
  (forall idx, sample (set_data d s) idx = sample s idx) ->
  (forall idx, 0 <= idx < frames s -> exists t, sample s idx = Ok t) ->
  exists (c : UICmd) (d' : list float32),
    plot (sample s) label overlay s = Ok (c, set_data d' s) /\
    plot (sample (set_data d s)) label overlay (set_data d s)
    = Ok (c, set_data d' s) /\
    length d' = Z.to_nat (frames s).
Proof.
  intros Hdef Hlen Hsame Htotal.
  pose proof (plots_defined_set_data d s Hdef Hlen) as Hdef'.
  destruct Hdef as (Hwf & Hmax & H2 & _).
  destruct Hdef' as (Hwf' & Hmax' & H2' & _).
  pose proof (plot_loop_values (sample s) s Hwf Hmax H2 Htotal) as E1.
  assert (Htotal' : forall idx, 0 <= idx < frames (set_data d s) ->
            exists t, sample (set_data d s) idx = Ok t).
  { intros idx Hidx. rewrite Hsame. apply Htotal, Hidx. }
  pose proof (plot_loop_values (sample (set_data d s)) (set_data d s)
                Hwf' Hmax' H2' Htotal') as E2.
  cbv zeta in E1, E2. cbn [frames frameCount set_data] in E2.
  assert (Hvals : (fun i : nat =>
                     match sample (set_data d s)
                             ((frameCount s + Z.of_nat i) mod frames s) with
                     | Ok t => t
                     | Fail _ => F32.zero
                     end) <$> seq 0 (Z.to_nat (frames s))
                  = (fun i : nat =>
                       match sample s ((frameCount s + Z.of_nat i) mod frames s) with
                       | Ok t => t
                       | Fail _ => F32.zero
                       end) <$> seq 0 (Z.to_nat (frames s))).
  { apply list_fmap_ext. intros i j _. rewrite Hsame. reflexivity. }
  rewrite Hvals in E2.
  eexists _, _. unfold plot. rewrite E1, E2. cbn [rbind].
  split; [reflexivity|]. split; [reflexivity|].
  rewrite length_fmap, length_seq. reflexivity.
Qed.

(** X7: the five plots share the one scratch buffer [data], and none of them
    depends on what the plot before left there: where the plots are defined,
    each plot overwrites all of [data], so the command it draws and the
    state it leaves are the same whatever values of the right length the
    buffer held. *)
Theorem plots_overwrite_shared_buffer
    (s : Inspector) (d : list float32)
    (label : float32 -> float32 -> Text) (overlay : string)
    (sample : Inspector -> Z -> result float32) :
  plots_defined s -> length d = Z.to_nat (frames s) ->
  In sample [sample_milliseconds; sample_drawCalls; sample_stateChanges;
             sample_meshMB; sample_textureMB] ->
  exists (c : UICmd) (d' : list float32),
    plot (sample s) label overlay s = Ok (c, set_data d' s) /\
    plot (sample (set_data d s)) label overlay (set_data d s)
    = Ok (c, set_data d' s) /\
    length d' = Z.to_nat (frames s).
Proof.
  intros Hdef Hlen Hin.
  destruct Hin as [<-|[<-|[<-|[<-|[<-|[]]]]]];
    apply plot_ignores_buffer; try assumption; try reflexivity;
    intros idx Hidx.
  - apply sample_milliseconds_total; assumption.
  - apply sample_drawCalls_total; assumption.
  - apply sample_stateChanges_total; assumption.
  - apply sample_meshMB_total; assumption.
  - apply sample_textureMB_total; assumption.
Qed.

Lemma plots_overwrite_shared_buffer_witness :
  exists (c : UICmd) (d' : list float32),
    plot (sample_drawCalls example_running)
         (fun avg mx => Fmt "%f %f" [AFloat avg; AFloat mx]) "Draw calls"
         example_running
    = Ok (c, set_data d' example_running) /\
    plot (sample_drawCalls (set_data (replicate 4 F32.one) example_running))
         (fun avg mx => Fmt "%f %f" [AFloat avg; AFloat mx]) "Draw calls"
         (set_data (replicate 4 F32.one) example_running)
    = Ok (c, set_data d' example_running) /\
    length d' = Z.to_nat (frames example_running).
Proof.
  apply (plots_overwrite_shared_buffer example_running (replicate 4 F32.one)
           (fun avg mx => Fmt "%f %f" [AFloat avg; AFloat mx]) "Draw calls"
           sample_drawCalls).
  - split; [repeat split; vm_compute; (reflexivity || discriminate)|].
    split; [vm_compute; discriminate|]. split; [vm_compute; discriminate|].
    let l := eval vm_compute in (stats example_running) in
      change (stats example_running) with l.
    repeat (constructor; [split; split; vm_compute; discriminate|]).
    constructor.
  - reflexivity.
  - right. left. reflexivity.
Defined.

(** ** The pool of scratch textures, over any run of calls *)

Lemma CInt_add_inv (a b u : Z) :
  CInt.add a b = Ok u -> u = a + b /\ CInt.INT_MIN <= a + b <= CInt.INT_MAX.
Proof.
  unfold CInt.add, CInt.check, CInt.in_range.
  destruct (Z.leb_spec CInt.INT_MIN (a + b)) as [Hlo|Hlo],
           (Z.leb_spec (a + b) CInt.INT_MAX) as [Hhi|Hhi];
    cbn; intros E; try discriminate. injection E as <-. lia.
Qed.

Lemma new_textures_snoc (env : Env) (p k : nat) :
  new_textures env p (S k)
  = new_textures env p k
    ++ [build_scratch_texture env
          ("SRE Inspector Tex #" ++ size_to_string (p + k))].
Proof.
  unfold new_textures. rewrite seq_S, map_app. reflexivity.
Qed.

Lemma length_new_textures (env : Env) (p k : nat) :
  length (new_textures env p k) = k.
Proof. unfold new_textures. rewrite length_map, length_seq. reflexivity. Qed.

Lemma new_textures_lookup (env : Env) (p k i : nat) :
  (i < k)%nat ->
  new_textures env p k !! i
  = Some (build_scratch_texture env
            ("SRE Inspector Tex #" ++ size_to_string (p + i))).
Proof.
  intros Hi. unfold new_textures.
  change (map ?f ?l) with (f <$> l).
  rewrite list_lookup_fmap, lookup_seq_lt by assumption. reflexivity.
Qed.

(** The scratch textures have pairwise different names. *)
Lemma new_textures_names_NoDup (env : Env) (p k : nat) :
  NoDup (map tex_name (new_textures env p k)).
Proof.
  unfold new_textures. rewrite map_map. cbn [tex_name build_scratch_texture].
  change (map ?f ?l) with (f <$> l).
  apply NoDup_fmap_2; [|apply NoDup_seq].
  intros i j Hij. apply string_app_inv_head in Hij.
  apply size_to_string_inj, Hij.
Qed.

(** One request: the texture handed out is the one at index [usedTextures],
    the pool keeps what it had, and the invariant is kept. *)
Lemma getTmpTexture_wf (env : Env) (s s' : Inspector) (t : Texture) :
  pool_wf env s -> getTmpTexture env s = Ok (t, s') ->
  pool_wf env s' /\
  usedTextures s' = usedTextures s + 1 /\
  offscreenTextures s' !! Z.to_nat (usedTextures s) = Some t /\
  (exists fresh, offscreenTextures s' = offscreenTextures s ++ fresh) /\
  length (offscreenTextures s')
  = Nat.max (length (offscreenTextures s)) (Z.to_nat (usedTextures s + 1)) /\
  framebuffer s' = framebuffer s /\ worldLights s' = worldLights s.
Proof.
  intros [Hpool Hused] H. unfold getTmpTexture in H.
  destruct (CInt.add (usedTextures s) 1) as [u|] eqn:Eadd.
  2:{ destruct (_ <? _); cbn in H; [|rewrite Eadd in H]; discriminate. }
  apply CInt_add_inv in Eadd as [-> Hrange].
  rewrite to_size_t_nonneg in H by lia.
  destruct (Z.ltb_spec (usedTextures s) (Z.of_nat (length (offscreenTextures s))))
    as [Hlt|Hge].
  - cbn [rbind] in H.
    destruct (lookup_lt_is_Some_2 (offscreenTextures s)
                (Z.to_nat (usedTextures s)) ltac:(lia)) as [t' Ht'].
    rewrite (vget_Z _ _ t') in H by (lia || exact Ht').
    cbn [rbind] in H. injection H as <- <-. unfold pool_wf.
    cbn -[Z.add Z.of_nat Z.to_nat Nat.max length].
    split; [split; [exact Hpool | lia]|].
    split; [reflexivity|]. split; [exact Ht'|].
    split; [exists []; rewrite app_nil_r; reflexivity|].
    split; [lia|]. split; reflexivity.
  - cbn [usedTextures set_offscreenTextures] in H.
    destruct (CInt.add (usedTextures s) 1) as [u|] eqn:Eadd; [|discriminate].
    apply CInt_add_inv in Eadd as [-> _].
    cbn [rbind] in H. injection H as <- <-. unfold pool_wf.
    cbn -[Z.add Z.of_nat Z.to_nat Nat.max length].
    assert (Hfull : usedTextures s = Z.of_nat (length (offscreenTextures s)))
      by lia.
    split.
    { split; [|rewrite length_app; cbn; lia].
      rewrite length_app. cbn [length]. rewrite Nat.add_1_r, new_textures_snoc.
      rewrite <- Hpool. reflexivity. }
    split; [reflexivity|]. split.
    { rewrite Hfull, Nat2Z.id. rewrite lookup_app_r by lia.
      rewrite Nat.sub_diag. reflexivity. }
    split; [eexists; reflexivity|].
    split; [rewrite length_app; cbn; lia|]. split; reflexivity.
Qed.

Lemma getTmpTexture_defined (env : Env) (s : Inspector) :
  0 <= usedTextures s < CInt.INT_MAX ->
  exists (t : Texture) (s' : Inspector), getTmpTexture env s = Ok (t, s').
Proof.
  intros Hused. unfold getTmpTexture.
  rewrite to_size_t_nonneg by lia.
  destruct (Z.ltb_spec (usedTextures s) (Z.of_nat (length (offscreenTextures s))))
    as [Hlt|Hge].
  - rewrite CInt_add_ok by (unfold CInt.INT_MIN, CInt.INT_MAX in *; lia).
    cbn [rbind].
    destruct (lookup_lt_is_Some_2 (offscreenTextures s)
                (Z.to_nat (usedTextures s)) ltac:(lia)) as [t Ht].
    rewrite (vget_Z _ _ t) by (lia || exact Ht). eexists _, _. reflexivity.
  - cbn [usedTextures set_offscreenTextures].
    rewrite CInt_add_ok by (unfold CInt.INT_MIN, CInt.INT_MAX in *; lia).
    eexists _, _. reflexivity.
Qed.

Lemma initFramebuffer_wf (env : Env) (s s' : Inspector) :
  pool_wf env s -> initFramebuffer env s = Ok s' ->
  pool_wf env s' /\
  (exists fresh, offscreenTextures s' = offscreenTextures s ++ fresh) /\
  framebuffer s' <> None.
Proof.
  intros Hwf H. unfold initFramebuffer in H.
  destruct (framebuffer s) as [fb|] eqn:Efb.
  - injection H as <-. split; [exact Hwf|].
    split; [exists []; rewrite app_nil_r; reflexivity|].
    rewrite Efb. discriminate.
  - destruct (getTmpTexture env s) as [[t s1]|] eqn:E; [|discriminate].
    cbn [rbind] in H. injection H as <-. unfold pool_wf.
    cbn -[Z.add Z.of_nat Z.to_nat Nat.max length].
    destruct (getTmpTexture_wf env s s1 t Hwf E)
      as ([Hpool Hused] & _ & _ & Hgrow & _).
    split; [split; [exact Hpool | lia]|]. split; [exact Hgrow | discriminate].
Qed.

Lemma update_wf (env : Env) (rs : RenderStats) (tick : Z) (s s' : Inspector) :
  pool_wf env s -> update rs tick s = Ok s' ->
  pool_wf env s' /\ offscreenTextures s' = offscreenTextures s.
Proof.
  intros [Hpool Hused] H.
  apply update_clock in H as (_ & Hu & Hp & _).
  split; [|exact Hp]. split; rewrite ?Hp, ?Hu; [exact Hpool | lia].
Qed.

(** X8: over any run of [update], [getTmpTexture] and [initFramebuffer]
    calls on an inspector whose pool is in order (as a new inspector's empty
    pool is), the pool only grows and keeps every texture at its index, the
    texture at index [j] is the one built under the name
    "SRE Inspector Tex #j", so the names in the pool are pairwise different,
    and [usedTextures] stays between 0 and the size of the pool. *)
Theorem pool_keeps_numbered_textures
    (env : Env) (cs : list PoolCall) (s s' : Inspector) :
  pool_wf env s -> pool_calls env cs s = Ok s' ->
  pool_wf env s' /\
  (exists fresh, offscreenTextures s' = offscreenTextures s ++ fresh) /\
  (forall j : nat, (j < length (offscreenTextures s'))%nat ->
     tex_name <$> offscreenTextures s' !! j
     = Some ("SRE Inspector Tex #" ++ size_to_string j)%string) /\
  NoDup (map tex_name (offscreenTextures s')).
Proof.
  intros Hwf Hrun.
  assert (Hinv : pool_wf env s' /\
                 exists fresh, offscreenTextures s' = offscreenTextures s ++ fresh).
  { revert s Hwf Hrun. induction cs as [|c cs IH]; intros s Hwf Hrun.
    - injection Hrun as <-. split; [exact Hwf|].
      exists []. rewrite app_nil_r. reflexivity.
    - unfold pool_calls in Hrun. cbn [foldR] in Hrun.
      destruct (pool_call env c s) as [s1|] eqn:E; [|discriminate].
      cbn [rbind] in Hrun.
      assert (H1 : pool_wf env s1 /\
                   exists fresh, offscreenTextures s1 = offscreenTextures s ++ fresh).
      { destruct c as [rs tick| |]; cbn [pool_call] in E.
        - destruct (update_wf env rs tick s s1 Hwf E) as [H1 H2].
          split; [exact H1|]. exists []. rewrite app_nil_r. exact H2.
        - destruct (getTmpTexture env s) as [[t s2]|] eqn:E2; [|discriminate].
          cbn [rbind] in E. injection E as <-.
          destruct (getTmpTexture_wf env s s2 t Hwf E2) as (H1 & _ & _ & H2 & _).
          split; assumption.
        - destruct (initFramebuffer_wf env s s1 Hwf E) as (H1 & H2 & _).
          split; assumption. }
      destruct H1 as [Hwf1 [f1 Hf1]].
      destruct (IH s1 Hwf1 Hrun) as [Hwf' [f2 Hf2]].
      split; [exact Hwf'|]. exists (f1 ++ f2).
      rewrite Hf2, Hf1, app_assoc. reflexivity. }
  destruct Hinv as [Hwf' Hgrow]. split; [exact Hwf'|]. split; [exact Hgrow|].
  destruct Hwf' as [Hpool _]. split.
  - intros j Hj. rewrite Hpool, new_textures_lookup by assumption. reflexivity.
  - rewrite Hpool. apply new_textures_names_NoDup.
Qed.

Lemma pool_keeps_numbered_textures_witness :
  exists s' : Inspector,
    pool_calls example_env
      [CallInitFramebuffer; CallGetTmpTexture; CallGetTmpTexture;
       CallUpdate RenderStats_zero 16000000; CallGetTmpTexture]
      example_inspector = Ok s' /\
    map tex_name (offscreenTextures s')
    = ["SRE Inspector Tex #0"%string; "SRE Inspector Tex #1"%string] /\
    NoDup (map tex_name (offscreenTextures s')).
Proof.
  eexists. split; [vm_compute; reflexivity|]. split; [reflexivity|].
  apply (pool_keeps_numbered_textures example_env
           [CallInitFramebuffer; CallGetTmpTexture; CallGetTmpTexture;
            CallUpdate RenderStats_zero 16000000; CallGetTmpTexture]
           example_inspector).
  - split; [reflexivity | cbn; lia].
  - vm_compute. reflexivity.
Defined.

Lemma new_textures_app (env : Env) (p a b : nat) :
  new_textures env p a ++ new_textures env (p + a) b = new_textures env p (a + b).
Proof. unfold new_textures. rewrite seq_app, map_app. reflexivity. Qed.

Lemma take_new_textures (env : Env) (p k m : nat) :
  (m <= k)%nat -> take m (new_textures env p k) = new_textures env p m.
Proof.
  intros H. replace k with (m + (k - m))%nat by lia.
  rewrite <- new_textures_app. apply take_app_length'.
  rewrite length_new_textures. reflexivity.
Qed.

(** X9: within a frame, that is from [usedTextures = 0] on a pool in order,
    the [k]-th call of [getTmpTexture] hands out the texture number [k]:
    [m] calls return the textures 0 to [m - 1], built on demand, which have
    pairwise different names, so no two previews of one frame draw into the
    same texture; the pool ends with [max] of its old size and [m]
    textures. *)
Theorem requests_of_a_frame_are_distinct
    (env : Env) (s : Inspector) (m : nat) :
  pool_wf env s -> usedTextures s = 0 -> Z.of_nat m <= CInt.INT_MAX ->
  exists s' : Inspector,
    requests env m s = Ok (new_textures env 0 m, s') /\
    NoDup (map tex_name (new_textures env 0 m)) /\
    pool_wf env s' /\
    length (offscreenTextures s') = Nat.max (length (offscreenTextures s)) m.
Proof.
  intros [Hpool Hused] Hzero Hmax.
  destruct (requests_ok env m s 0 Hzero ltac:(lia) ltac:(lia))
    as (s' & Hreq & Hpool' & Hused' & _).
  exists s'. rewrite drop_0, Nat.sub_0_r in Hreq. rewrite Nat.sub_0_r in Hpool'.
  set (p := length (offscreenTextures s)) in *.
  assert (Hts : take m (offscreenTextures s) ++ new_textures env p (m - p)
                = new_textures env 0 m).
  { rewrite Hpool. destruct (Nat.le_gt_cases m p) as [Hle|Hgt].
    - rewrite take_new_textures by assumption.
      replace (m - p)%nat with 0%nat by lia.
      unfold new_textures at 2. cbn [seq map]. apply app_nil_r.
    - rewrite take_ge by (rewrite length_new_textures; lia).
      change (new_textures env p (m - p))
        with (new_textures env (0 + p) (m - p)).
      rewrite new_textures_app. f_equal. lia. }
  assert (Hall : offscreenTextures s' = new_textures env 0 (Nat.max p m)).
  { rewrite Hpool', Hpool.
    change (new_textures env p (m - p)) with (new_textures env (0 + p) (m - p)).
    rewrite new_textures_app. f_equal. lia. }
  split; [rewrite <- Hts; exact Hreq|].
  split; [apply new_textures_names_NoDup|].
  assert (Hlen : length (offscreenTextures s') = Nat.max p m)
    by (rewrite Hall; apply length_new_textures).
  split; [|exact Hlen].
  split; [rewrite Hlen; exact Hall | lia].
Qed.

Lemma requests_of_a_frame_are_distinct_witness :
  exists s' : Inspector,
    requests example_env 3 example_pool = Ok (new_textures example_env 0 3, s') /\
    NoDup (map tex_name (new_textures example_env 0 3)) /\
    pool_wf example_env s' /\
    length (offscreenTextures s')
    = Nat.max (length (offscreenTextures example_pool)) 3.
Proof.
  apply (requests_of_a_frame_are_distinct example_env example_pool 3).
  - split; [reflexivity | cbn; lia].
  - reflexivity.
  - vm_compute. discriminate.
Defined.

(** X10: the first [initFramebuffer] of a frame builds the framebuffer on the
    pool's texture number 0 (building that texture if the pool is empty) and
    sets [usedTextures] back to 0, so no extra texture is created: the next
    [getTmpTexture] hands out that same texture and the pool has
    [max 1 n] textures for [n] before.  It adds one point light at
    (0, 0, 4); a second call changes nothing. *)
Theorem initFramebuffer_reuses_first_texture (env : Env) (s : Inspector) :
  framebuffer s = None -> usedTextures s = 0 ->
  exists (t : Texture) (s1 : Inspector),
    initFramebuffer env s = Ok s1 /\
    framebuffer s1
    = Some (mkFramebuffer "SRE Inspector Framebufferobject" (Some t)) /\
    usedTextures s1 = 0 /\
    offscreenTextures s1 !! 0%nat = Some t /\
    length (offscreenTextures s1) = Nat.max 1 (length (offscreenTextures s)) /\
    pointLights (worldLights s1)
    = pointLights (worldLights s) ++ [vec3_of_ints 0 0 4] /\
    getTmpTexture env s1 = Ok (t, set_usedTextures 1 s1) /\
    initFramebuffer env s1 = Ok s1.
Proof.
  intros Hfb Hused. unfold initFramebuffer at 1. rewrite Hfb.
  destruct (offscreenTextures s) as [|t0 pool] eqn:Epool.
  - rewrite getTmpTexture_new
      by (rewrite ?Epool, Hused; cbn; unfold CInt.INT_MAX; lia).
    cbn [rbind]. rewrite Epool.
    eexists _, _. split; [reflexivity|].
    cbn -[getTmpTexture initFramebuffer F32.literal vec3_of_ints].
    repeat (split; [reflexivity|]). reflexivity.
  - rewrite (getTmpTexture_cached env s 0 t0)
      by (rewrite ?Epool, ?Hused; cbn; unfold CInt.INT_MAX; (reflexivity || lia)).
    cbn [rbind].
    eexists _, _. split; [reflexivity|].
    cbn -[getTmpTexture initFramebuffer F32.literal vec3_of_ints].
    rewrite Epool.
    repeat (split; [reflexivity|]).
    split; [|reflexivity].
    rewrite (getTmpTexture_cached env _ 0 t0);
      [reflexivity | reflexivity | cbn; unfold CInt.INT_MAX; lia
      | cbn; rewrite Epool; reflexivity].
Qed.

Lemma initFramebuffer_reuses_first_texture_witness :
  exists (t : Texture) (s1 : Inspector),
    initFramebuffer example_env example_inspector = Ok s1 /\
    framebuffer s1
    = Some (mkFramebuffer "SRE Inspector Framebufferobject" (Some t)) /\
    usedTextures s1 = 0 /\
    offscreenTextures s1 !! 0%nat = Some t /\
    length (offscreenTextures s1)
    = Nat.max 1 (length (offscreenTextures example_inspector)) /\
    pointLights (worldLights s1)
    = pointLights (worldLights example_inspector) ++ [vec3_of_ints 0 0 4] /\
    getTmpTexture example_env s1 = Ok (t, set_usedTextures 1 s1) /\
    initFramebuffer example_env s1 = Ok s1.
Proof.
  apply (initFramebuffer_reuses_first_texture example_env example_inspector);
    reflexivity.
Defined.

(** ** Runs that do not fail: the rules *)

Lemma runs_from_weaken {A : Type} (P P' : Inspector -> Prop) (m : M A)
    (Q Q' : A -> Inspector -> Prop) :
  (forall s, P' s -> P s) -> (forall a s, Q a s -> Q' a s) ->
  runs_from P m Q -> runs_from P' m Q'.
Proof.
  intros HP HQ H w Hw.
  destruct (H w (HP _ Hw)) as (a & l & s' & E & Hq).
  exists a, l, s'. split; [exact E | apply HQ, Hq].
Qed.

Lemma runs_from_ret {A : Type} (P : Inspector -> Prop) (a : A) :
  runs_from P (ret a) (fun a' s => a' = a /\ P s).
Proof.
  intros w Hw. exists a, [], (insp w). unfold ret. rewrite app_nil_r.
  destruct w. split; [reflexivity | split; [reflexivity | exact Hw]].
Qed.

Lemma keeps_ret {A : Type} (P : Inspector -> Prop) (a : A) : keeps P (ret a).
Proof.
  apply (runs_from_weaken P P (ret a) (fun a' s => a' = a /\ P s) (fun _ => P));
    [auto | intros a' s [_ H]; exact H | apply runs_from_ret].
Qed.

Lemma runs_from_bind {A B : Type} (P : Inspector -> Prop) (m : M A)
    (Q : A -> Inspector -> Prop) (k : A -> M B) (R : B -> Inspector -> Prop) :
  runs_from P m Q -> (forall a, runs_from (Q a) (k a) R) ->
  runs_from P (bind m k) R.
Proof.
  intros Hm Hk w Hw.
  destruct (Hm w Hw) as (a & l1 & s1 & E1 & Hq).
  destruct (Hk a (mkWorld s1 (edit w) (spriteAtlasSelection w) (log w ++ l1)) Hq)
    as (b & l2 & s2 & E2 & Hr).
  exists b, (l1 ++ l2), s2. unfold bind. rewrite E1, E2. cbn.
  rewrite app_assoc. split; [reflexivity | exact Hr].
Qed.

Lemma keeps_bind {A B : Type} (P : Inspector -> Prop) (m : M A) (k : A -> M B) :
  keeps P m -> (forall a, keeps P (k a)) -> keeps P (bind m k).
Proof. intros Hm Hk. eapply runs_from_bind; [exact Hm | exact Hk]. Qed.

Lemma keeps_emit (P : Inspector -> Prop) (c : UICmd) : keeps P (emit c).
Proof.
  intros w Hw. exists tt, [c], (insp w). split; [reflexivity | exact Hw].
Qed.

Lemma keeps_when (P : Inspector -> Prop) (b : bool) (m : M unit) :
  keeps P m -> keeps P (when b m).
Proof. intros H. destruct b; [exact H | apply keeps_ret]. Qed.

Lemma keeps_forM {A : Type} (P : Inspector -> Prop) (l : list A)
    (body : A -> M unit) :
  (forall a, In a l -> keeps P (body a)) -> keeps P (forM l body).
Proof.
  induction l as [|a l IH]; intros Hb; [apply keeps_ret|].
  cbn [forM]. apply keeps_bind; [apply Hb; left; reflexivity|].
  intros _. apply IH. intros a' Hin. apply Hb. right. exact Hin.
Qed.

Lemma runs_from_get_insp (P : Inspector -> Prop) :
  runs_from P get_insp (fun i s => i = s /\ P s).
Proof.
  intros w Hw. exists (insp w), [], (insp w). unfold get_insp.
  rewrite app_nil_r. destruct w.
  split; [reflexivity | split; [reflexivity | exact Hw]].
Qed.

Lemma runs_from_put_insp (P : Inspector -> Prop) (s0 : Inspector)
    (Q : unit -> Inspector -> Prop) :
  (forall s, P s -> Q tt s0) -> runs_from P (put_insp s0) Q.
Proof.
  intros H w Hw. exists tt, [], s0. unfold put_insp. rewrite app_nil_r.
  split; [reflexivity | eapply H, Hw].
Qed.

Lemma runs_from_liftR {A : Type} (P : Inspector -> Prop) (r : result A) (a : A) :
  r = Ok a -> runs_from P (liftR r) (fun a' s => a' = a /\ P s).
Proof.
  intros -> w Hw. exists a, [], (insp w). unfold liftR. rewrite app_nil_r.
  destruct w. split; [reflexivity | split; [reflexivity | exact Hw]].
Qed.

Lemma runs_from_on_insp {A : Type} (P : Inspector -> Prop)
    (f : Inspector -> result (A * Inspector)) (Q : A -> Inspector -> Prop) :
  (forall s, P s -> exists a s', f s = Ok (a, s') /\ Q a s') ->
  runs_from P (on_insp f) Q.
Proof.
  intros H w Hw. destruct (H _ Hw) as (a & s' & E & Hq).
  exists a, [], s'. rewrite on_insp_run, E, app_nil_r.
  split; [reflexivity | exact Hq].
Qed.

Lemma keeps_TreeNode (P : Inspector -> Prop) (env : Env) (path : list string)
    (label : string) :
  keeps P (TreeNode env path label).
Proof.
  unfold TreeNode. apply keeps_bind; [apply keeps_emit | intros _; apply keeps_ret].
Qed.

Lemma keeps_CollapsingHeader (P : Inspector -> Prop) (env : Env) (label : string) :
  keeps P (CollapsingHeader env label).
Proof.
  unfold CollapsingHeader.
  apply keeps_bind; [apply keeps_emit | intros _; apply keeps_ret].
Qed.

(** After a step that only adds knowledge, the invariant is still kept. *)
Lemma keeps_from {A : Type} (P P' : Inspector -> Prop) (m : M A) :
  (forall s, P' s -> P s) -> keeps P m -> runs_from P' m (fun _ => P).
Proof.
  intros H Hm. apply (runs_from_weaken P P' m (fun _ => P) (fun _ => P));
    [exact H | auto | exact Hm].
Qed.

Lemma keeps_preview_image (P : Inspector -> Prop) (tex : Texture) :
  keeps P (preview_image tex).
Proof.
  unfold preview_image. eapply runs_from_bind; [apply runs_from_get_insp|].
  intros i. apply keeps_from; [intros s [_ H]; exact H | apply keeps_emit].
Qed.

(** Steps of [keeps] goals that the shape of the code decides. *)
Ltac keeps_step :=
  lazymatch goal with
  | |- keeps _ (bind _ _) => apply keeps_bind; [|intros ?]
  | |- keeps _ (when _ _) => apply keeps_when
  | |- keeps _ (emit _) => apply keeps_emit
  | |- keeps _ (LabelText _ _) => apply keeps_emit
  | |- keeps _ (ret _) => apply keeps_ret
  | |- keeps _ (TreeNode _ _ _) => apply keeps_TreeNode
  | |- keeps _ (CollapsingHeader _ _) => apply keeps_CollapsingHeader
  | |- keeps _ (preview_image _) => apply keeps_preview_image
  | |- keeps _ (RenderPass_draw_sphere _ _ _) => apply keeps_emit
  end.

Ltac keeps_all := repeat keeps_step.

(** ** The panels do not fail *)

Lemma keeps_showTexture (P : Inspector -> Prop) (env : Env) (tex : Texture) :
  keeps P (showTexture env tex).
Proof. unfold showTexture. keeps_all. Qed.

Lemma keeps_showFramebufferObject (P : Inspector -> Prop) (env : Env)
    (fbo : Z * Framebuffer) :
  keeps P (showFramebufferObject env fbo).
Proof. unfold showFramebufferObject. keeps_all. Qed.

Lemma keeps_labels {A : Type} (P : Inspector -> Prop) (l : list A)
    (f : A -> UICmd) :
  keeps P (forM l (fun a => emit (f a))).
Proof. apply keeps_forM. intros a _. apply keeps_emit. Qed.

(** The "Index sets" loop reads one size per index set. *)
Lemma keeps_index_sets (P : Inspector -> Prop) (mesh : Mesh) :
  keeps P
    (forM (seqZ 0 (getIndexSets mesh))
       (fun i =>
          let! size := liftR (vget (mesh_indicesSize mesh) i) in
          LabelText ("Index " ++ CInt.to_string i ++ " size")
                    (Fmt "%i" [AInt size]))).
Proof.
  apply keeps_forM. intros i Hi.
  apply list_elem_of_In, elem_of_seqZ in Hi. unfold getIndexSets in Hi.
  destruct (lookup_lt_is_Some_2 (mesh_indicesSize mesh) (Z.to_nat i)
              ltac:(lia)) as [size Hsize].
  eapply runs_from_bind;
    [apply (runs_from_liftR P _ size), vget_Z; [lia | exact Hsize]|].
  intros a. apply keeps_from; [intros s [_ H]; exact H | apply keeps_emit].
Qed.

Lemma getTmpTexture_shape (env : Env) (s s' : Inspector) (t : Texture) :
  getTmpTexture env s = Ok (t, s') ->
  exists pool : list Texture,
    s' = set_usedTextures (usedTextures s + 1) (set_offscreenTextures pool s) /\
    usedTextures s + 1 <= CInt.INT_MAX.
Proof.
  unfold getTmpTexture. intros H.
  destruct (_ <? _).
  - destruct (CInt.add (usedTextures s) 1) as [u|] eqn:Eadd; [|discriminate].
    apply CInt_add_inv in Eadd as [-> Hrange]. cbn [rbind] in H.
    destruct (vget _ _); [|discriminate]. cbn [rbind] in H.
    injection H as _ <-. exists (offscreenTextures s).
    split; [destruct s; reflexivity | lia].
  - cbn [usedTextures set_offscreenTextures] in H.
    destruct (CInt.add (usedTextures s) 1) as [u|] eqn:Eadd; [|discriminate].
    apply CInt_add_inv in Eadd as [-> Hrange]. cbn [rbind] in H.
    injection H as _ <-. eexists. split; [reflexivity | lia].
Qed.

Lemma getTmpTexture_step (env : Env) (k : nat) (s : Inspector) :
  panel_inv (S k) s ->
  exists (t : Texture) (s' : Inspector),
    getTmpTexture env s = Ok (t, s') /\ panel_inv k s' /\
    framebuffer s' = framebuffer s.
Proof.
  intros [Hdef [Hlo Hhi]].
  destruct (getTmpTexture_defined env s ltac:(lia)) as (t & s' & E).
  exists t, s'. split; [exact E|].
  apply getTmpTexture_shape in E as (pool & -> & _).
  unfold panel_inv, previews_fit, plots_defined, ring_wf in *.
  cbn -[Z.add Z.of_nat]. split; [split; [exact Hdef | lia] | reflexivity].
Qed.

Lemma initFramebuffer_step (env : Env) (k : nat) (s : Inspector) :
  panel_inv (S k) s ->
  exists s' : Inspector,
    initFramebuffer env s = Ok s' /\ preview_inv (S k) s'.
Proof.
  intros Hinv. unfold initFramebuffer.
  destruct (framebuffer s) as [fb|] eqn:Efb.
  - exists s. split; [reflexivity|]. split; [exact Hinv|].
    rewrite Efb. discriminate.
  - destruct (getTmpTexture_step env k s Hinv) as (t & s1 & E & [Hdef _] & _).
    rewrite E. cbn [rbind]. eexists. split; [reflexivity|].
    destruct Hinv as [_ [Hlo Hhi]].
    unfold preview_inv, panel_inv, previews_fit, plots_defined, ring_wf in *.
    cbn -[Z.add Z.of_nat F32.literal vec3_of_ints].
    split; [split; [exact Hdef | lia] | discriminate].
Qed.

Lemma setTexture_step (t : Texture) (k : nat) (s : Inspector) :
  preview_inv k s ->
  exists s' : Inspector,
    framebuffer_setTexture t s = Ok (tt, s') /\ preview_inv k s'.
Proof.
  intros [Hinv Hfb]. unfold framebuffer_setTexture.
  destruct (framebuffer s) as [fb|]; [|contradiction].
  eexists. split; [reflexivity|].
  unfold preview_inv, panel_inv, previews_fit, plots_defined, ring_wf in *.
  cbn -[Z.add Z.of_nat]. split; [exact Hinv | discriminate].
Qed.

Lemma preview_pass_defined (s : Inspector) :
  framebuffer s <> None -> exists pass, preview_pass s = Ok pass.
Proof.
  intros H. unfold preview_pass. destruct (framebuffer s); [|contradiction].
  eexists. reflexivity.
Qed.

Lemma panel_inv_le (k k' : nat) (s : Inspector) :
  (k' <= k)%nat -> panel_inv k s -> panel_inv k' s.
Proof.
  intros Hle [Hdef [Hlo Hhi]]. split; [exact Hdef|]. split; lia.
Qed.

(** The part the two previews share: the framebuffer, a scratch texture,
    the render pass. *)
Lemma runs_from_preview_setup (env : Env) (k : nat) {A : Type}
    (rest : Texture -> M A) (Q : A -> Inspector -> Prop) :
  (forall t, runs_from (preview_inv k) (rest t) Q) ->
  runs_from (panel_inv (S k))
    (on_insp (fun i => let* i' := initFramebuffer env i in Ok (tt, i')) >>
     let! offscreenTexture := on_insp (getTmpTexture env) in
     on_insp (framebuffer_setTexture offscreenTexture) >>
     rest offscreenTexture)
    Q.
Proof.
  intros Hrest.
  eapply runs_from_bind.
  { apply (runs_from_on_insp _ _ (fun _ => preview_inv (S k))).
    intros s Hs. destruct (initFramebuffer_step env k s Hs) as (s' & E & H').
    exists tt, s'. rewrite E. split; [reflexivity | exact H']. }
  intros ?. eapply runs_from_bind.
  { apply (runs_from_on_insp _ _ (fun _ => preview_inv k)).
    intros s [Hs Hfb].
    destruct (getTmpTexture_step env k s Hs) as (t & s' & E & H' & Efb).
    exists t, s'. split; [exact E|]. split; [exact H' | rewrite Efb; exact Hfb]. }
  intros t. eapply runs_from_bind; [|intros ?; apply Hrest].
  apply (runs_from_on_insp _ _ (fun _ => preview_inv k)).
  intros s Hs. destruct (setTexture_step t k s Hs) as (s' & E & H').
  exists tt, s'. split; [exact E | exact H'].
Qed.

Lemma runs_from_showMesh (env : Env) (mesh : Mesh) (k : nat) :
  runs_from (panel_inv (S k)) (showMesh env mesh) (fun _ => panel_inv k).
Proof.
  unfold showMesh.
  eapply runs_from_bind; [apply keeps_TreeNode|]. intros opened.
  destruct opened; cbn [when].
  2:{ eapply runs_from_weaken; [| |apply (keeps_ret (panel_inv (S k)))];
        [auto | intros ? s; apply panel_inv_le; lia]. }
  do 2 (eapply runs_from_bind; [apply keeps_emit|]; intros ?).
  eapply runs_from_bind.
  { apply keeps_bind; [apply keeps_TreeNode|]. intros attrs.
    apply keeps_when, keeps_bind; [apply keeps_labels | intros ?; apply keeps_emit]. }
  intros ?. eapply runs_from_bind.
  { apply keeps_bind; [apply keeps_TreeNode|]. intros sets.
    apply keeps_when, keeps_bind; [|intros ?; apply keeps_emit].
    destruct (getIndexSets mesh =? 0); [apply keeps_emit | apply keeps_index_sets]. }
  intros ?. apply runs_from_preview_setup. intros t.
  eapply runs_from_bind; [apply runs_from_get_insp|]. intros i.
  cbv zeta.
  intros w [Ei [Hinv Hfb]]. subst i.
  destruct (preview_pass_defined _ Hfb) as [pass Hpass].
  unfold bind at 1. unfold liftR. rewrite Hpass.
  rewrite preview_draw_is_issued.
  assert (Hrest : keeps (panel_inv k)
            (emit (CDraw pass (RegistryMesh mesh)
                     (preview_model (time (insp w)) mesh)
                     (preview_materials mesh
                        (if 0 <? mesh_normals mesh
                         then StandardMaterial else UnlitMaterial))) >>
             preview_image t >> emit CTreePop)).
  { keeps_all. }
  exact (Hrest w Hinv).
Qed.

Lemma open_editor_keeps (k : nat) (shader : Shader) :
  keeps (panel_inv k) (open_editor shader).
Proof.
  unfold open_editor. eapply runs_from_bind; [apply runs_from_get_insp|].
  intros i. apply runs_from_put_insp. intros s [-> H]. exact H.
Qed.

Lemma runs_from_showShader (env : Env) (shader : Shader) (k : nat) :
  runs_from (panel_inv (S k)) (showShader env shader) (fun _ => panel_inv k).
Proof.
  unfold showShader.
  eapply runs_from_bind; [apply keeps_TreeNode|]. intros opened.
  destruct opened; cbn [when].
  2:{ eapply runs_from_weaken; [| |apply (keeps_ret (panel_inv (S k)))];
        [auto | intros ? s; apply panel_inv_le; lia]. }
  eapply runs_from_bind.
  { unfold Button. apply keeps_bind; [keeps_all|]. intros pressed.
    apply keeps_when, open_editor_keeps. }
  intros ?. eapply runs_from_bind.
  { apply keeps_bind; [apply keeps_TreeNode|]. intros attrs.
    apply keeps_when, keeps_bind; [apply keeps_labels | intros ?; apply keeps_emit]. }
  intros ?. eapply runs_from_bind.
  { apply keeps_bind; [apply keeps_TreeNode|]. intros unis.
    apply keeps_when, keeps_bind; [apply keeps_labels | intros ?; apply keeps_emit]. }
  intros ?.
  do 4 (eapply runs_from_bind; [apply keeps_emit|]; intros ?).
  apply runs_from_preview_setup. intros t.
  eapply runs_from_bind; [apply runs_from_get_insp|]. intros i.
  intros w [Ei [Hinv Hfb]]. subst i.
  destruct (preview_pass_defined _ Hfb) as [pass Hpass].
  unfold bind at 1. unfold liftR. rewrite Hpass.
  assert (Hrest : keeps (panel_inv k)
            (RenderPass_draw_sphere pass
               [EulerAngleY (F32.mul (time (insp w)) rotationSpeed)]
               (ShaderMaterial (sh_uid shader)) >>
             preview_image t >> emit CTreePop)).
  { keeps_all. }
  exact (Hrest w Hinv).
Qed.

Lemma keeps_gui_renderer (P : Inspector -> Prop) (env : Env) (r : Renderer) :
  keeps P (gui_renderer env r).
Proof.
  unfold gui_renderer.
  apply keeps_bind; [apply keeps_CollapsingHeader|]. intros opened.
  apply keeps_when.
  apply keeps_bind; [apply keeps_emit|]. intros ?.
  apply keeps_bind; [|intros ?; keeps_all].
  eapply runs_from_bind; [apply runs_from_get_insp|]. intros i.
  apply keeps_from; [intros s [_ H]; exact H|].
  destruct (sdlRenderer i); keeps_all.
Qed.

Lemma keeps_draw_plot (k : nat) (sample : Inspector -> Z -> result float32)
    (label : float32 -> float32 -> Text) (overlay : string) :
  (forall s idx, plots_defined s -> 0 <= idx < frames s ->
     exists t, sample s idx = Ok t) ->
  keeps (panel_inv k) (draw_plot sample label overlay).
Proof.
  intros Htotal. unfold draw_plot.
  eapply runs_from_bind; [|intros c; apply keeps_emit].
  apply runs_from_on_insp. intros s [Hdef Hfit].
  pose proof Hdef as (Hwf & Hmax & H2 & _).
  destruct (plot_loop_total (sample s) s Hwf Hmax H2)
    as (d & mx & sum & Hloop & Hlen).
  { intros idx Hidx. apply Htotal; assumption. }
  unfold plot. rewrite Hloop. cbn [rbind].
  eexists _, _. split; [reflexivity|].
  split; [apply plots_defined_set_data; assumption | exact Hfit].
Qed.

Lemma keeps_gui_performance (k : nat) (env : Env) :
  keeps (panel_inv k) (gui_performance env).
Proof.
  unfold gui_performance.
  apply keeps_bind; [apply keeps_CollapsingHeader|]. intros opened.
  apply keeps_when.
  apply keeps_bind; [apply keeps_draw_plot, sample_milliseconds_total|].
  intros ?.
  apply keeps_bind; [apply keeps_draw_plot, sample_drawCalls_total|].
  intros ?. apply keeps_draw_plot, sample_stateChanges_total.
Qed.

Lemma keeps_gui_memory (k : nat) (env : Env) (r : Renderer) :
  keeps (panel_inv k) (gui_memory env r).
Proof.
  unfold gui_memory.
  apply keeps_bind; [apply keeps_CollapsingHeader|]. intros opened.
  apply keeps_when.
  apply keeps_bind; [apply keeps_draw_plot, sample_meshMB_total|].
  intros ?. apply keeps_draw_plot, sample_textureMB_total.
Qed.

(** A loop of previews: each may take one scratch texture. *)
Lemma runs_from_previews {A : Type} (l : list A) (body : A -> M unit) (k : nat) :
  (forall a j, runs_from (panel_inv (S j)) (body a) (fun _ => panel_inv j)) ->
  runs_from (panel_inv (length l + k)) (forM l body) (fun _ => panel_inv k).
Proof.
  intros Hb. induction l as [|a l IH]; cbn [forM length Nat.add].
  - apply keeps_ret.
  - eapply runs_from_bind; [apply Hb|]. intros ?. exact IH.
Qed.

Lemma runs_from_gui_shaders (env : Env) (r : Renderer) (k : nat) :
  runs_from (panel_inv (length (shaders r) + k)) (gui_shaders env r)
            (fun _ => panel_inv k).
Proof.
  unfold gui_shaders.
  eapply runs_from_bind; [apply keeps_CollapsingHeader|]. intros opened.
  destruct opened; cbn [when].
  - eapply runs_from_bind;
      [apply runs_from_previews; intros; apply runs_from_showShader|].
    intros ?. apply keeps_when, keeps_emit.
  - eapply runs_from_weaken; [| |apply (keeps_ret (panel_inv (length (shaders r) + k)))];
      [auto | intros ? s; apply panel_inv_le; lia].
Qed.

Lemma runs_from_gui_meshes (env : Env) (r : Renderer) (k : nat) :
  runs_from (panel_inv (length (meshes r) + k)) (gui_meshes env r)
            (fun _ => panel_inv k).
Proof.
  unfold gui_meshes.
  eapply runs_from_bind; [apply keeps_CollapsingHeader|]. intros opened.
  destruct opened; cbn [when].
  - eapply runs_from_bind;
      [apply runs_from_previews; intros; apply runs_from_showMesh|].
    intros ?. apply keeps_when, keeps_emit.
  - eapply runs_from_weaken; [| |apply (keeps_ret (panel_inv (length (meshes r) + k)))];
      [auto | intros ? s; apply panel_inv_le; lia].
Qed.

Lemma keeps_gui_textures (P : Inspector -> Prop) (env : Env) (r : Renderer) :
  keeps P (gui_textures env r).
Proof.
  unfold gui_textures.
  apply keeps_bind; [apply keeps_CollapsingHeader|]. intros opened.
  apply keeps_when. apply keeps_bind; [|intros ?; apply keeps_when, keeps_emit].
  apply keeps_forM. intros tex _. apply keeps_showTexture.
Qed.

Lemma keeps_gui_framebufferObjects (P : Inspector -> Prop) (env : Env)
    (r : Renderer) :
  keeps P (gui_framebufferObjects env r).
Proof.
  unfold gui_framebufferObjects. apply keeps_when.
  apply keeps_bind; [apply keeps_CollapsingHeader|]. intros opened.
  apply keeps_when, keeps_forM. intros fbo _. apply keeps_showFramebufferObject.
Qed.


(** ** The sprite atlases *)

Lemma runs_from_liftR_bind {A B : Type} (P : Inspector -> Prop) (r : result A)
    (a : A) (k : A -> M B) (Q : B -> Inspector -> Prop) :
  r = Ok a -> runs_from P (k a) Q -> runs_from P (bind (liftR r) k) Q.
Proof.
  intros E H w Hw. unfold bind, liftR. rewrite E. exact (H w Hw).
Qed.

Lemma selection_find_set_eq (k v : Z) (m : list (Z * Z)) :
  selection_find k (selection_set k v m) = Some v.
Proof.
  induction m as [|[k' v'] m IH]; cbn.
  - rewrite Z.eqb_refl. reflexivity.
  - destruct (Z.eqb_spec k k') as [->|Hne]; cbn.
    + rewrite Z.eqb_refl. reflexivity.
    + destruct (Z.eqb_spec k k'); [contradiction | exact IH].
Qed.

Lemma selection_find_set_ne (k k' v : Z) (m : list (Z * Z)) :
  k' <> k -> selection_find k' (selection_set k v m) = selection_find k' m.
Proof.
  intros Hne. induction m as [|[k0 v0] m IH]; cbn.
  - destruct (Z.eqb_spec k' k); [contradiction | reflexivity].
  - destruct (Z.eqb_spec k k0) as [->|Hk]; cbn.
    + destruct (Z.eqb_spec k' k0); [contradiction | reflexivity].
    + destruct (Z.eqb_spec k' k0); [reflexivity | exact IH].
Qed.

Lemma atlas_get_name (sprites : list (string * Sprite)) (i : nat) (name : string) :
  map fst sprites !! i = Some name ->
  exists sp : Sprite, atlas_get name sprites = Some sp /\
                      In sp (map snd sprites).
Proof.
  revert i. induction sprites as [|[n sp] sprites IH]; intros i H;
    [destruct i; discriminate|].
  cbn [atlas_get map fst snd In].
  destruct (String.eqb_spec name n) as [->|Hne].
  - exists sp. split; [reflexivity | left; reflexivity].
  - destruct i as [|i]; [cbn in H; congruence|].
    destruct (IH i H) as (sp' & E & Hin). exists sp'.
    split; [exact E | right; exact Hin].
Qed.

Lemma string_app_nil_r (a : string) : (a ++ EmptyString)%string = a.
Proof. induction a as [|c a IH]; cbn; [reflexivity | rewrite IH; reflexivity]. Qed.

Lemma string_app_assoc (a b c : string) :
  ((a ++ b) ++ c)%string = (a ++ b ++ c)%string.
Proof. induction a as [|x a IH]; cbn; [reflexivity | rewrite IH; reflexivity]. Qed.

(** The buffer of [zero_separated], name by name. *)
Lemma zero_separated_nil :
  zero_separated [] = String Ascii.zero EmptyString.
Proof. reflexivity. Qed.

Lemma zero_separated_fold (names : list string) (acc : string) :
  (foldl (fun ss str => ss ++ str ++ String Ascii.zero EmptyString) acc names
   ++ String Ascii.zero EmptyString)%string
  = (acc ++ zero_separated names)%string.
Proof.
  revert acc. induction names as [|n names IH]; intros acc.
  - reflexivity.
  - unfold zero_separated. cbn [foldl]. rewrite !IH.
    cbn [String.append]. rewrite !string_app_assoc. reflexivity.
Qed.

Lemma zero_separated_cons (name : string) (names : list string) :
  zero_separated (name :: names)
  = (name ++ String Ascii.zero (zero_separated names))%string.
Proof.
  unfold zero_separated at 1. cbn [foldl]. rewrite zero_separated_fold.
  cbn [String.append]. rewrite string_app_assoc. reflexivity.
Qed.

(** Reading one name off the buffer. *)
Lemma combo_items_from_name (name : string) : forall item rest : string,
  zero_free name = true ->
  combo_items_from item (name ++ String Ascii.zero rest)
  = match (item ++ name)%string with
    | EmptyString => []
    | _ => (item ++ name)%string :: combo_items_from EmptyString rest
    end.
Proof.
  induction name as [|c name IH]; intros item rest Hfree.
  - cbn [String.append combo_items_from]. rewrite Ascii.eqb_refl.
    rewrite string_app_nil_r. reflexivity.
  - cbn [zero_free] in Hfree. apply andb_prop in Hfree as [Hc Hfree].
    cbn [String.append combo_items_from].
    destruct (Ascii.eqb c Ascii.zero); [discriminate|].
    rewrite IH by exact Hfree. rewrite string_app_assoc. reflexivity.
Qed.

(** The combo of an atlas offers the names up to the first empty one. *)
Lemma combo_items_zero_separated (names : list string) :
  Forall (fun name => zero_free name = true) names ->
  combo_items (zero_separated names) = names_shown names.
Proof.
  unfold combo_items. induction 1 as [|name names Hfree _ IH].
  - reflexivity.
  - rewrite zero_separated_cons, combo_items_from_name by exact Hfree.
    cbn [String.append names_shown]. destruct name; [reflexivity|].
    rewrite IH. reflexivity.
Qed.

Lemma length_names_shown (names : list string) :
  (length (names_shown names) <= length names)%nat.
Proof.
  induction names as [|name names IH]; [reflexivity|].
  cbn [names_shown length]. destruct name; cbn [length]; lia.
Qed.

Lemma names_shown_all (names : list string) :
  (forall name, In name names -> name <> EmptyString) ->
  names_shown names = names.
Proof.
  induction names as [|name names IH]; intros H; [reflexivity|].
  cbn [names_shown]. destruct name as [|c name].
  - exfalso. apply (H EmptyString); [left|]; reflexivity.
  - rewrite IH; [reflexivity|]. intros n Hn. apply H. right. exact Hn.
Qed.

Lemma atlas_combo_items (a : SpriteAtlas) :
  atlas_fits a ->
  combo_items (zero_separated (map fst (atlas_sprites a)))
  = names_shown (map fst (atlas_sprites a)).
Proof.
  intros [Hnames _]. apply combo_items_zero_separated.
  apply Forall_map. exact Hnames.
Qed.

(** With a combo that picks one of its items, sprite names and rectangles
    that fit and a stored selection that is -1 or an index of the names, the
    panel runs to its end; an open node stores the index it ends with, which
    again is -1 or an index of the names. *)
Lemma showSpriteAtlas_runs (env : Env) (a : SpriteAtlas) (w : World) :
  combo_picks_item env -> atlas_fits a ->
  selection_valid a (spriteAtlasSelection w) ->
  let label := node_label (atlasName a) (atlas_addr a) in
  let items := combo_items (zero_separated (map fst (atlas_sprites a))) in
  let current :=
    default (-1) (selection_find (atlas_addr a) (spriteAtlasSelection w)) in
  let picked := ui_combo env ["Sprite names"%string; label] current items in
  let index := if fst picked then snd picked else current in
  exists l : list UICmd,
    showSpriteAtlas env a w
    = Ok (tt, mkWorld (insp w) (edit w)
                (if ui_tree env [label]
                 then selection_set (atlas_addr a) index (spriteAtlasSelection w)
                 else spriteAtlasSelection w)
                (log w ++ l)) /\
    -1 <= index < Z.of_nat (length (atlas_sprites a)) /\
    (ui_tree env [label] = true -> index = -1 ->
     l = [CTreeNode label; CCombo "Sprite names" current items; CTreePop]).
Proof.
  intros Hcombo Hfits Hsel label items current picked index.
  assert (Hitems : (length items <= length (atlas_sprites a))%nat).
  { unfold items. rewrite (atlas_combo_items a Hfits).
    etransitivity; [apply length_names_shown|]. rewrite length_map.
    reflexivity. }
  assert (Hcurrent : -1 <= current < Z.of_nat (length (atlas_sprites a))).
  { unfold current.
    destruct (selection_find (atlas_addr a) (spriteAtlasSelection w)) as [i|] eqn:E;
      cbn [default]; [apply Hsel, E | lia]. }
  assert (Hindex : -1 <= index < Z.of_nat (length (atlas_sprites a))).
  { unfold index.
    pose proof (Hcombo ["Sprite names"%string; label] current items) as Hpick.
    fold picked in Hpick. destruct (fst picked); [|exact Hcurrent].
    specialize (Hpick eq_refl). lia. }
  unfold showSpriteAtlas. cbv zeta.
  change (node_label (atlasName a) (atlas_addr a)) with label.
  change (combo_items (zero_separated (map fst (atlas_sprites a)))) with items.
  unfold bind at 1. cbn [TreeNode bind emit ret].
  destruct (ui_tree env [label]); cbn [when].
  2:{ exists [CTreeNode label]. split; [reflexivity|].
      split; [exact Hindex | discriminate]. }
  unfold bind at 1. cbn [get_selection spriteAtlasSelection].
  unfold bind at 1. cbn [emit insp edit spriteAtlasSelection log].
  change (default (-1) (selection_find (atlas_addr a) (spriteAtlasSelection w)))
    with current.
  change (ui_combo env ["Sprite names"%string; label] current items)
    with picked.
  unfold index in *. clearbody picked. clear index.
  destruct picked as [updated chosen]. cbn [fst snd] in *.
  set (index := if updated then chosen else current) in *.
  set (names := map fst (atlas_sprites a)).
  unfold bind at 1. cbn [put_selection insp edit spriteAtlasSelection log].
  destruct (Z.eqb_spec index (-1)) as [Eminus|Hsome]; cbn [negb when].
  { exists [CTreeNode label; CCombo "Sprite names" current items; CTreePop].
    unfold bind, ret, emit. cbn [insp edit spriteAtlasSelection log].
    rewrite <- !app_assoc. split; [reflexivity|].
    split; [exact Hindex | reflexivity]. }
  lazymatch goal with
  | |- context [bind ?inner (fun _ => emit CTreePop)] =>
      assert (Hinner : keeps (fun s => s = insp w) inner)
  end.
  { assert (Hlt : (Z.to_nat index < length names)%nat)
      by (unfold names; rewrite length_map; lia).
    destruct (lookup_lt_is_Some_2 names (Z.to_nat index) Hlt) as [name Hname].
    apply (runs_from_liftR_bind _ _ name); [apply vget_Z; [lia | exact Hname]|].
    destruct (atlas_get_name _ _ _ Hname) as (sp & Eget & Hin).
    rewrite Eget.
    assert (Hfit : sprite_fits sp).
    { destruct Hfits as [_ Hfits]. rewrite Forall_forall in Hfits.
      apply in_map_iff in Hin as ([n sp'] & <- & Hin').
      apply (Hfits (n, sp')), list_elem_of_In, Hin'. }
    destruct Hfit as [Hy Hx].
    do 3 (apply keeps_bind; [apply keeps_emit|]; intros ?).
    apply (runs_from_liftR_bind _ _ _ _ _ (CInt_add_ok _ _ Hy)).
    apply (runs_from_liftR_bind _ _ _ _ _ (CInt_add_ok _ _ Hx)).
    eapply runs_from_bind; [apply runs_from_get_insp|]. intros i.
    apply keeps_from; [intros s [_ H]; exact H | apply keeps_emit]. }
  match goal with
  | |- exists l, bind ?inner _ ?w2 = _ /\ _ =>
      destruct (Hinner w2 eq_refl) as (u & l1 & s' & E & ->)
  end.
  unfold bind at 1. rewrite E. unfold emit.
  cbn [insp edit spriteAtlasSelection log].
  eexists. rewrite <- !app_assoc.
  split; [reflexivity|]. split; [exact Hindex | intros _ H; contradiction].
Qed.

(** ** The shader editor does not fail *)

Lemma length_active_shaders (shader : Shader) :
  (length (active_shaders shader) <= length (shaderSources shader))%nat.
Proof.
  unfold active_shaders. induction (shaderSources shader) as [|src l IH];
    [reflexivity|].
  cbn [omap list_omap length] in *.
  destruct (shader_type_entry (fst src)); cbn [length]; lia.
Qed.

Lemma select_shader_range (env : Env) (title : string) (current n : Z)
    (activeShaders : list string) :
  combo_picks_item env -> 0 <= current < n ->
  Z.of_nat (length activeShaders) <= n ->
  0 <= snd (select_shader env title current activeShaders) < n.
Proof.
  intros Hcombo Hcur Hlen. unfold select_shader.
  pose proof (Hcombo ["####ShaderType"%string; title] current activeShaders)
    as Hpick.
  destruct (ui_combo env _ current activeShaders) as [updated chosen].
  cbn [fst snd] in *. rewrite CInt_min_spec.
  destruct updated; [specialize (Hpick eq_refl)|]; lia.
Qed.

(** The loop of "Compile" pairs each code string with the type of its
    source. *)
Lemma build_loop_prefix (code : list string) (sources : list ShaderType)
    (k : nat) :
  length code = length sources -> (k <= length sources)%nat ->
  foldR (fun i acc =>
           let* text := vget code i in
           let* type := vget sources i in
           Ok (acc ++ [(text, type)]))
        (seqZ 0 (Z.of_nat k)) []
  = Ok (take k (zip code sources)).
Proof.
  intros Hlen. induction k as [|k IH]; intros Hk; [reflexivity|].
  rewrite seqZ_S, Z.add_0_l, foldR_app, IH by lia.
  cbn [rbind foldR].
  destruct (lookup_lt_is_Some_2 code k ltac:(lia)) as [text Htext].
  destruct (lookup_lt_is_Some_2 sources k ltac:(lia)) as [type Htype].
  rewrite (vget_lookup _ _ _ Htext), (vget_lookup _ _ _ Htype). cbn [rbind].
  f_equal. symmetry. apply take_S_r.
  rewrite lookup_zip_with, Htext, Htype. reflexivity.
Qed.

Lemma build_loop_ok (code : list string) (sources : list ShaderType) :
  length code = length sources ->
  foldR (fun i acc =>
           let* text := vget code i in
           let* type := vget sources i in
           Ok (acc ++ [(text, type)]))
        (seqZ 0 (Z.of_nat (length sources))) []
  = Ok (zip code sources).
Proof.
  intros Hlen. rewrite build_loop_prefix by (assumption || lia).
  rewrite take_ge by (rewrite length_zip_with; lia). reflexivity.
Qed.

Lemma log_errors_run (sources : list ShaderType) (w : World) :
  exists l : list UICmd,
    forM sources (fun t => match shader_type_entry t with
                           | inl _ => ret tt
                           | inr msg => emit (CLogError msg)
                           end) w
    = Ok (tt, logged l w).
Proof.
  assert (H : keeps (fun s => s = insp w)
                (forM sources (fun t => match shader_type_entry t with
                                        | inl _ => ret tt
                                        | inr msg => emit (CLogError msg)
                                        end))).
  { apply keeps_forM. intros t _.
    destruct (shader_type_entry t); [apply keeps_ret | apply keeps_emit]. }
  destruct (H w eq_refl) as ([] & l & s' & E & ->).
  exists l. rewrite E. reflexivity.
Qed.

(** The first block: the statics end up loaded for the shader. *)
Lemma editShader_load_runs (env : Env) (shader : Shader) (w : World) :
  shaderSources shader <> [] -> edit_ready shader (edit w) ->
  exists e1 : EditStatics,
    editShader_load env shader w
    = Ok (tt, mkWorld (insp w) e1 (spriteAtlasSelection w) (log w)) /\
    edit_wf shader e1 /\
    (shaderRef (edit w) = Some (sh_addr shader) -> e1 = edit w).
Proof.
  intros Hsrc Hready. unfold editShader_load, bind, get_edit.
  destruct (shaderRef (edit w)) as [addr|] eqn:Eref.
  - destruct (Z.eqb_spec addr (sh_addr shader)) as [->|Hne].
    + exists (edit w). unfold ret. destruct w. cbn in *.
      split; [reflexivity|]. split; [apply Hready, Eref | reflexivity].
    + destruct (shaderSources shader) as [|src l] eqn:Esrc; [contradiction|].
      cbn [map liftR vget]. eexists. unfold put_edit. cbn.
      split; [reflexivity|]. split; [|congruence].
      unfold edit_wf. cbn [shaderRef shaderCode selectedShader length].
      rewrite !length_map, Esrc. cbn [length]. repeat split; lia.
  - destruct (shaderSources shader) as [|src l] eqn:Esrc; [contradiction|].
    cbn [map liftR vget]. eexists. unfold put_edit. cbn.
    split; [reflexivity|]. split; [|discriminate].
    unfold edit_wf. cbn [shaderRef shaderCode selectedShader length].
    rewrite !length_map, Esrc. cbn [length]. repeat split; lia.
Qed.

(** What one frame of the editor's window leaves in the statics and in the
    log, spelled out: [code'] is the code after the conditional save of the
    editor's text, the build uses it, and the editor is reloaded from it
    when the source or the view changed. *)
Lemma editShader_body_result (env : Env) (shader : Shader) (w : World) :
  combo_picks_item env -> edit_wf shader (edit w) ->
  let e := edit w in
  let title := sh_name shader in
  let sources := map fst (shaderSources shader) in
  let updatedShader := fst (select_shader env title (selectedShader e)
                                 (active_shaders shader)) in
  let selected := snd (select_shader env title (selectedShader e)
                                 (active_shaders shader)) in
  let updatedPrecompile :=
    fst (ui_checkbox env "Show precompiled" (showPrecompiled e)) in
  let precompiled :=
    snd (ui_checkbox env "Show precompiled" (showPrecompiled e)) in
  let compile := ui_button env ["Compile"%string; title] in
  let code' :=
    if (compile && negb precompiled) || (updatedShader && negb precompiled)
       || (updatedPrecompile && precompiled)
    then <[Z.to_nat (selectedShader e) := te_text (textEditor e)]> (shaderCode e)
    else shaderCode e in
  exists (text : string) (editor : TextEditor) (before after : list UICmd),
    code' !! Z.to_nat selected = Some text /\
    0 <= selected < Z.of_nat (length code') /\
    length code' = length (shaderCode e) /\
    te_text editor
    = (if updatedShader || updatedPrecompile
       then if precompiled then env_precompile env text else text
       else te_text (textEditor e)) /\
    te_readOnly editor
    = (if updatedShader || updatedPrecompile
       then precompiled else te_readOnly (textEditor e)) /\
    editShader_body env shader w
    = Ok (tt, mkWorld (after_window (ui_window_open env title) (insp w))
                (mkEditStatics (shaderRef e) code'
                   (mkTextEditor (ui_editor_text env editor) (te_readOnly editor)
                      (te_palette editor) (te_glsl editor))
                   selected precompiled)
                (spriteAtlasSelection w)
                (log w ++ before
                 ++ (if compile
                     then [CShaderBuild (sh_uid shader) (zip code' sources)]
                     else [])
                 ++ CEditorRender "##editor" editor :: after)) /\
    after = [CEnd; CPopID].
Proof.
  intros Hcombo (Href & Hlen & Hsel). cbv zeta.
  unfold editShader_body. cbv zeta.
  destruct (log_errors_run (map fst (shaderSources shader)) w) as [l0 E0].
  unfold bind at 1. rewrite E0. unfold logged.
  unfold bind at 1. cbn [emit insp edit spriteAtlasSelection log].
  unfold bind at 1. cbn [get_edit insp edit spriteAtlasSelection log].
  unfold bind at 1. cbn [emit insp edit spriteAtlasSelection log].
  pose proof (select_shader_range env (sh_name shader) (selectedShader (edit w))
                (Z.of_nat (length (shaderCode (edit w))))
                (active_shaders shader) Hcombo Hsel) as Hselected.
  destruct (select_shader env (sh_name shader) (selectedShader (edit w))
              (active_shaders shader)) as [updatedShader selected].
  cbn [fst snd] in *.
  specialize (Hselected ltac:(pose proof (length_active_shaders shader); lia)).
  unfold bind at 1. cbn [emit insp edit spriteAtlasSelection log].
  destruct (ui_checkbox env "Show precompiled" (showPrecompiled (edit w)))
    as [updatedPrecompile precompiled].
  cbn [fst snd].
  unfold bind at 1. cbn [emit insp edit spriteAtlasSelection log].
  unfold bind at 1. unfold Button at 1.
  unfold bind at 1. cbn [emit ret insp edit spriteAtlasSelection log].
  set (compile := ui_button env ["Compile"%string; sh_name shader]).
  set (saves := (compile && negb precompiled) || (updatedShader && negb precompiled)
                || (updatedPrecompile && precompiled)).
  set (editor0 := if updatedPrecompile
                  then mkTextEditor (te_text (textEditor (edit w)))
                         (te_readOnly (textEditor (edit w)))
                         (if precompiled then LightPalette else DarkPalette)
                         (te_glsl (textEditor (edit w)))
                  else textEditor (edit w)).
  assert (Htext0 : te_text editor0 = te_text (textEditor (edit w)))
    by (unfold editor0; destruct updatedPrecompile; reflexivity).
  assert (Hro0 : te_readOnly editor0 = te_readOnly (textEditor (edit w)))
    by (unfold editor0; destruct updatedPrecompile; reflexivity).
  set (code' := if saves
                then <[Z.to_nat (selectedShader (edit w))
                       := te_text (textEditor (edit w))]> (shaderCode (edit w))
                else shaderCode (edit w)).
  assert (Hcode : length code' = length (shaderCode (edit w))).
  { unfold code'. destruct saves; [apply length_insert | reflexivity]. }
  match goal with
  | |- exists text editor before after, _ /\ _ /\ _ /\ _ /\ _ /\ bind ?m ?K ?W = _ /\ _ =>
      assert (Ecode : m W = Ok (code', W))
  end.
  { unfold code'. destruct saves.
    - unfold liftR. rewrite vset_ok by lia. rewrite Htext0. reflexivity.
    - reflexivity. }
  unfold bind at 1. rewrite Ecode.
  match goal with
  | |- exists text editor before after, _ /\ _ /\ _ /\ _ /\ _ /\ bind ?m ?K ?W = _ /\ _ =>
      assert (Ebuild : m W
                = Ok (tt, logged (if compile
                                  then [CShaderBuild (sh_uid shader)
                                          (zip code' (map fst (shaderSources shader)))]
                                  else []) W))
  end.
  { destruct compile; cbn [when].
    - unfold bind, liftR.
      rewrite build_loop_ok by (rewrite length_map; lia). reflexivity.
    - unfold ret, logged. cbn. rewrite app_nil_r. reflexivity. }
  unfold bind at 1. rewrite Ebuild.
  unfold logged. cbn [insp edit spriteAtlasSelection log].
  destruct (lookup_lt_is_Some_2 code' (Z.to_nat selected) ltac:(lia))
    as [text Htext].
  set (editor1 := if updatedShader || updatedPrecompile
                  then if precompiled
                       then mkTextEditor (env_precompile env text) true
                              (te_palette editor0) (te_glsl editor0)
                       else mkTextEditor text false
                              (te_palette editor0) (te_glsl editor0)
                  else editor0).
  match goal with
  | |- exists text editor before after, _ /\ _ /\ _ /\ _ /\ _ /\ bind ?m ?K ?W = _ /\ _ =>
      assert (Eed : m W = Ok (editor1, W))
  end.
  { unfold editor1. destruct (updatedShader || updatedPrecompile); [|reflexivity].
    unfold bind, liftR. rewrite (vget_Z _ _ text) by (lia || exact Htext).
    destruct precompiled; reflexivity. }
  unfold bind at 1. rewrite Eed.
  exists text, editor1,
    (l0 ++ [CPushItemWidth (-1);
            CCombo "####ShaderType" (selectedShader (edit w))
                   (active_shaders shader);
            CCheckbox "Show precompiled" (showPrecompiled (edit w));
            CSameLine; CButton "Compile"]),
    [CEnd; CPopID].
  split; [exact Htext|]. split; [lia|]. split; [exact Hcode|].
  split; [unfold editor1; destruct (updatedShader || updatedPrecompile);
          [destruct precompiled; reflexivity | exact Htext0]|].
  split; [unfold editor1; destruct (updatedShader || updatedPrecompile);
          [destruct precompiled; reflexivity | exact Hro0]|].
  split; [|reflexivity].
  unfold bind at 1. cbn [emit insp edit spriteAtlasSelection log].
  unfold bind at 1. cbn [put_edit insp edit spriteAtlasSelection log].
  unfold bind at 1. cbn [emit insp edit spriteAtlasSelection log].
  unfold bind at 1. cbn [emit insp edit spriteAtlasSelection log].
  unfold after_window.
  destruct (ui_window_open env (sh_name shader)); cbn [negb when].
  - unfold ret. do 2 f_equal. f_equal.
    rewrite <- !app_assoc. reflexivity.
  - unfold bind, get_insp, put_insp.
    cbn [insp edit spriteAtlasSelection log]. do 2 f_equal. f_equal.
    rewrite <- !app_assoc. reflexivity.
Qed.

Lemma app_mid {A : Type} (l b c : list A) (x : A) (t : list A) :
  l ++ b ++ c ++ x :: t = l ++ (b ++ c ++ [x]) ++ t.
Proof. rewrite <- !app_assoc. reflexivity. Qed.

(** The window's content: with the statics loaded for the shader, every
    index the code uses is in range, and the window is closed again. *)
Lemma editShader_body_runs (env : Env) (shader : Shader) (w : World) :
  combo_picks_item env -> edit_wf shader (edit w) ->
  exists (e' : EditStatics) (mid : list UICmd),
    editShader_body env shader w
    = Ok (tt, mkWorld (after_window (ui_window_open env (sh_name shader)) (insp w))
                e' (spriteAtlasSelection w) (log w ++ mid ++ [CEnd; CPopID])) /\
    edit_wf shader e'.
Proof.
  intros Hcombo Hwf.
  destruct (editShader_body_result env shader w Hcombo Hwf)
    as (text & editor & before & after & _ & Hsel & Hlen & _ & _ & E & ->).
  destruct Hwf as (Href & Hlen0 & _).
  rewrite E, app_mid. eexists _, _.
  split.
  - reflexivity.
  - unfold edit_wf. cbn [shaderRef shaderCode selectedShader].
    split; [exact Href|]. split; [congruence | exact Hsel].
Qed.

Lemma editShader_loaded (env : Env) (shader : Shader) (w : World) :
  shaderRef (edit w) = Some (sh_addr shader) ->
  editShader env shader w
  = editShader_body env shader
      (logged [CPushID (sh_addr shader); CBegin (sh_name shader)] w).
Proof.
  intros Href. unfold editShader, editShader_load.
  unfold bind at 1. unfold bind at 1. cbn [get_edit].
  rewrite Href, Z.eqb_refl. unfold ret.
  unfold bind at 1. cbn [emit insp edit spriteAtlasSelection log].
  unfold bind at 1. cbn [emit insp edit spriteAtlasSelection log].
  unfold logged. rewrite <- app_assoc. reflexivity.
Qed.

Lemma editShader_loads (env : Env) (shader : Shader) (w : World)
    (src : ShaderType * string) (rest : list (ShaderType * string)) :
  shaderRef (edit w) <> Some (sh_addr shader) ->
  shaderSources shader = src :: rest ->
  editShader env shader w
  = editShader_body env shader
      (mkWorld (insp w)
         (mkEditStatics (Some (sh_addr shader))
            (map (fun source => env_getSource env (snd source))
                 (shaderSources shader))
            (mkTextEditor (env_getSource env (snd src))
               (te_readOnly (textEditor (edit w))) DarkPalette true)
            0 false)
         (spriteAtlasSelection w)
         (log w ++ [CPushID (sh_addr shader); CBegin (sh_name shader)])).
Proof.
  intros Href Hsrc. unfold editShader, editShader_load.
  unfold bind at 1. unfold bind at 1. cbn [get_edit].
  assert (Hother : match shaderRef (edit w) with
                   | Some a => a =? sh_addr shader
                   | None => false
                   end = false).
  { destruct (shaderRef (edit w)) as [a|]; [|reflexivity].
    destruct (Z.eqb_spec a (sh_addr shader)); [congruence | reflexivity]. }
  rewrite Hother, Hsrc. cbn [map].
  change (vget (env_getSource env (snd src) :: ?l) 0)
    with (@Ok string (env_getSource env (snd src))).
  unfold bind, liftR, put_edit, emit.
  cbn [insp edit spriteAtlasSelection log]. rewrite <- app_assoc. reflexivity.
Qed.

(** [editShader] as a whole. *)
Lemma editShader_runs (env : Env) (shader : Shader) (w : World) :
  combo_picks_item env -> shaderSources shader <> [] ->
  edit_ready shader (edit w) ->
  exists (e' : EditStatics) (mid : list UICmd),
    editShader env shader w
    = Ok (tt, mkWorld (after_window (ui_window_open env (sh_name shader)) (insp w))
                e' (spriteAtlasSelection w)
                (log w ++ CPushID (sh_addr shader) :: CBegin (sh_name shader)
                       :: mid ++ [CEnd; CPopID])) /\
    edit_wf shader e'.
Proof.
  intros Hcombo Hsrc Hready.
  destruct (shaderSources shader) as [|src rest] eqn:Esrc; [contradiction|].
  assert (Hdec : shaderRef (edit w) = Some (sh_addr shader) \/
                 shaderRef (edit w) <> Some (sh_addr shader)).
  { destruct (shaderRef (edit w)) as [a|]; [|right; discriminate].
    destruct (Z.eq_dec a (sh_addr shader)) as [->|Hne];
      [left; reflexivity | right; congruence]. }
  destruct Hdec as [Href|Href].
  - rewrite (editShader_loaded env shader w Href).
    destruct (editShader_body_runs env shader
                (logged [CPushID (sh_addr shader); CBegin (sh_name shader)] w)
                Hcombo (Hready Href)) as (e' & mid & E & Hwf).
    exists e', mid. rewrite E. unfold logged.
    cbn [insp edit spriteAtlasSelection log]. rewrite <- !app_assoc.
    split; [reflexivity | exact Hwf].
  - rewrite (editShader_loads env shader w src rest Href Esrc).
    match goal with
    | |- exists e' mid, editShader_body env shader ?W = _ /\ _ =>
        destruct (editShader_body_runs env shader W Hcombo) as (e' & mid & E & Hwf)
    end.
    { unfold edit_wf. cbn [edit shaderRef shaderCode selectedShader].
      rewrite Esrc, length_map. cbn [length]. repeat split; lia. }
    exists e', mid. rewrite E.
    cbn [insp edit spriteAtlasSelection log]. rewrite <- !app_assoc.
    split; [reflexivity | exact Hwf].
Qed.


(** ** The whole of [gui] does not fail *)

Lemma total_seq (P Q R : World -> Prop) (m k : M unit) :
  total P m Q -> total Q k R -> total P (m >> k) R.
Proof.
  intros Hm Hk w Hw. destruct (Hm w Hw) as (w1 & E1 & H1).
  destruct (Hk w1 H1) as (w2 & E2 & H2).
  exists w2. unfold bind. rewrite E1. split; [exact E2 | exact H2].
Qed.

Lemma total_ret (P : World -> Prop) : total P (ret tt) P.
Proof. intros w Hw. exists w. split; [reflexivity | exact Hw]. Qed.

Lemma total_when (P : World -> Prop) (b : bool) (m : M unit) :
  total P m P -> total P (when b m) P.
Proof. intros H. destruct b; [exact H | apply total_ret]. Qed.

Lemma total_forM {A : Type} (P : World -> Prop) (l : list A) (body : A -> M unit) :
  (forall a, In a l -> total P (body a) P) -> total P (forM l body) P.
Proof.
  induction l as [|a l IH]; intros Hb; [apply total_ret|].
  cbn [forM]. eapply total_seq; [apply Hb; left; reflexivity|].
  apply IH. intros a' Hin. apply Hb. right. exact Hin.
Qed.

(** Code that runs on the inspector alone leaves the rest as it is. *)
Lemma total_of_runs_from (r : Renderer) (e0 : EditStatics) (k k' : nat)
    (m : M unit) :
  runs_from (panel_inv k) m (fun _ => panel_inv k') ->
  total (panels_ready r e0 k) m (panels_ready r e0 k').
Proof.
  intros H w (Hinv & He & Hsel).
  destruct (H w Hinv) as ([] & l & s' & E & Hinv').
  eexists. split; [exact E|]. split; [exact Hinv' | split; assumption].
Qed.

Lemma NoDup_map_inj {A B : Type} (f : A -> B) (l : list A) (a b : A) :
  NoDup (map f l) -> In a l -> In b l -> f a = f b -> a = b.
Proof.
  induction l as [|x l IH]; intros Hnd Ha Hb E; [contradiction|].
  cbn [map] in Hnd. apply NoDup_cons in Hnd as [Hx Hnd].
  destruct Ha as [->|Ha], Hb as [->|Hb].
  - reflexivity.
  - exfalso. apply Hx. rewrite E. apply list_elem_of_In, in_map, Hb.
  - exfalso. apply Hx. rewrite <- E. apply list_elem_of_In, in_map, Ha.
  - apply IH; assumption.
Qed.

Lemma total_showSpriteAtlas (env : Env) (r : Renderer) (e0 : EditStatics)
    (k : nat) (a : SpriteAtlas) :
  combo_picks_item env -> NoDup (map atlas_addr (spriteAtlases r)) ->
  Forall atlas_fits (spriteAtlases r) -> In a (spriteAtlases r) ->
  total (panels_ready r e0 k) (showSpriteAtlas env a) (panels_ready r e0 k).
Proof.
  intros Hcombo Hnd Hfits Hin w (Hinv & He & Hsel).
  assert (Hfit : atlas_fits a).
  { rewrite Forall_forall in Hfits. apply Hfits, list_elem_of_In, Hin. }
  destruct (showSpriteAtlas_runs env a w Hcombo Hfit (Hsel a Hin))
    as (l & E & Hindex & _).
  cbv zeta in E, Hindex.
  eexists. split; [exact E|]. split; [exact Hinv|]. split; [exact He|].
  cbn [spriteAtlasSelection].
  destruct (ui_tree env _); [|exact Hsel].
  intros b Hb i Hi.
  destruct (Z.eq_dec (atlas_addr b) (atlas_addr a)) as [Eaddr|Hne].
  - assert (b = a) by (eapply NoDup_map_inj; eassumption). subst b.
    rewrite selection_find_set_eq in Hi. injection Hi as <-. exact Hindex.
  - rewrite selection_find_set_ne in Hi by exact Hne. apply (Hsel b Hb i Hi).
Qed.

Lemma total_emit (r : Renderer) (e0 : EditStatics) (k : nat) (c : UICmd) :
  total (panels_ready r e0 k) (emit c) (panels_ready r e0 k).
Proof. apply total_of_runs_from, keeps_emit. Qed.

Lemma total_gui_spriteAtlases (env : Env) (r : Renderer) (e0 : EditStatics)
    (k : nat) :
  combo_picks_item env -> NoDup (map atlas_addr (spriteAtlases r)) ->
  Forall atlas_fits (spriteAtlases r) ->
  total (panels_ready r e0 k) (gui_spriteAtlases env r) (panels_ready r e0 k).
Proof.
  intros Hcombo Hnd Hfits. unfold gui_spriteAtlases. apply total_when.
  unfold CollapsingHeader.
  intros w Hw. unfold bind at 1. unfold bind at 1.
  cbn [emit ret insp edit spriteAtlasSelection log].
  apply (total_when (panels_ready r e0 k)).
  - apply total_forM. intros a Hin. apply total_showSpriteAtlas; assumption.
  - exact Hw.
Qed.

(** The panels, for any registries: [k] is the number of previews that may
    be drawn, one per shader and one per mesh. *)
Lemma total_gui_panels (env : Env) (r : Renderer) (useWindow : bool)
    (e0 : EditStatics) :
  combo_picks_item env -> NoDup (map atlas_addr (spriteAtlases r)) ->
  Forall atlas_fits (spriteAtlases r) ->
  total (panels_ready r e0 (length (shaders r) + length (meshes r)))
        (gui_panels env r useWindow)
        (panels_ready r e0 0).
Proof.
  intros Hcombo Hnd Hfits. unfold gui_panels.
  eapply total_seq; [apply total_when, total_emit|].
  eapply total_seq; [apply total_of_runs_from, keeps_gui_renderer|].
  eapply total_seq; [apply total_of_runs_from, keeps_gui_performance|].
  eapply total_seq; [apply total_of_runs_from, keeps_gui_memory|].
  eapply total_seq; [apply total_of_runs_from, runs_from_gui_shaders|].
  eapply total_seq; [apply total_of_runs_from, keeps_gui_textures|].
  eapply total_seq.
  { apply total_of_runs_from.
    pose proof (runs_from_gui_meshes env r 0) as Hmeshes.
    rewrite Nat.add_0_r in Hmeshes. exact Hmeshes. }
  eapply total_seq; [apply total_gui_spriteAtlases; assumption|].
  eapply total_seq; [apply total_of_runs_from, keeps_gui_framebufferObjects|].
  apply total_when, total_emit.
Qed.

(** X11: a whole frame of [gui] returns [Ok], that is, none of the failures
    the embedding tracks occurs in it: no overflow of an [int], no [%] by
    zero, no [std::vector] index out of range, no length error, no shape
    mismatch of [draw], no use of a framebuffer that was not created.  (What
    the printf-style format strings do with their arguments is not part of
    the embedding, which carries formats and arguments as data; the
    statement is silent about lines 287, 290, 379 and 396.)  This holds for
    any registries of shaders, textures, meshes, sprite atlases and
    framebuffer objects, when the plots are defined, [usedTextures] leaves
    room for one preview per shader and per mesh, the combo boxes report a
    change only with the index of one of their items, the atlases are
    distinct objects whose sprite names hold no zero character, whose
    sprite rectangles fit an [int] and whose stored selections are -1 or an
    index of their names, and every live shader has at least one source and
    is not the shader the editor's statics were loaded for, unless they
    still fit its sources.  After the frame the plots are still defined,
    [usedTextures] is still a count that fits an [int], the stored
    selections are still valid, and the editor's statics are as before or
    loaded, with the selection in bounds, for one of the live shaders. *)
Theorem gui_runs_to_its_end
    (env : Env) (r : Renderer) (useWindow : bool) (w : World) :
  plots_defined (insp w) ->
  previews_fit (length (shaders r) + length (meshes r)) (insp w) ->
  combo_picks_item env ->
  NoDup (map atlas_addr (spriteAtlases r)) ->
  Forall atlas_fits (spriteAtlases r) ->
  atlases_ready r (spriteAtlasSelection w) ->
  (forall sh, In sh (shaders r) ->
     shaderSources sh <> [] /\ edit_ready sh (edit w)) ->
  exists w' : World,
    gui env r useWindow w = Ok (tt, w') /\
    plots_defined (insp w') /\ previews_fit 0 (insp w') /\
    atlases_ready r (spriteAtlasSelection w') /\
    (edit w' = edit w \/
     exists sh, In sh (shaders r) /\ edit_wf sh (edit w')).
Proof.
  intros Hdef Hfit Hcombo Hnd Hfits Hsel Hshaders.
  destruct (total_gui_panels env r useWindow (edit w) Hcombo Hnd Hfits w)
    as (w1 & E1 & ([Hdef1 Hfit1] & He1 & Hsel1)).
  { split; [split; assumption|]. split; [reflexivity | exact Hsel]. }
  unfold gui. unfold bind at 1. rewrite E1.
  unfold gui_edit_view. unfold bind at 1. cbn [get_insp].
  destruct (weak_lock (shaderEdit (insp w1)) (shaders r)) as [sh|] eqn:Elock.
  - apply weak_lock_Some in Elock as [Hin _].
    destruct (Hshaders sh Hin) as [Hsrc Hready]. rewrite <- He1 in Hready.
    destruct (editShader_runs env sh w1 Hcombo Hsrc Hready)
      as (e' & l & E & Hwf).
    eexists. split; [exact E|]. cbn [insp edit spriteAtlasSelection].
    assert (Hsame : forall s, plots_defined s /\ previews_fit 0 s ->
              plots_defined (after_window (ui_window_open env (sh_name sh)) s) /\
              previews_fit 0 (after_window (ui_window_open env (sh_name sh)) s)).
    { intros s H. unfold after_window. destruct (ui_window_open env _); exact H. }
    destruct (Hsame (insp w1) (conj Hdef1 Hfit1)) as [Hd Hf].
    split; [exact Hd|]. split; [exact Hf|]. split; [exact Hsel1|].
    right. exists sh. split; assumption.
  - exists w1. split; [reflexivity|].
    split; [exact Hdef1|]. split; [exact Hfit1|]. split; [exact Hsel1|].
    left. exact He1.
Qed.

Lemma gui_runs_to_its_end_witness :
  exists w' : World,
    gui example_env example_renderer true (World_init example_running)
    = Ok (tt, w') /\
    plots_defined (insp w') /\ previews_fit 0 (insp w') /\
    atlases_ready example_renderer (spriteAtlasSelection w') /\
    (edit w' = edit (World_init example_running) \/
     exists sh, In sh (shaders example_renderer) /\ edit_wf sh (edit w')).
Proof.
  apply (gui_runs_to_its_end example_env example_renderer true
           (World_init example_running)).
  - split; [repeat split; vm_compute; (reflexivity || discriminate)|].
    split; [vm_compute; discriminate|]. split; [vm_compute; discriminate|].
    cbn [insp World_init].
    let l := eval vm_compute in (stats example_running) in
      change (stats example_running) with l.
    repeat (constructor; [split; split; vm_compute; discriminate|]).
    constructor.
  - split; vm_compute; discriminate.
  - intros path current items H. discriminate H.
  - constructor.
  - constructor.
  - intros a [].
  - intros sh [<-|[]]. split; [discriminate|]. intros H. discriminate H.
Defined.

(** ** The shader editor, frame by frame *)

Lemma log_mid {A : Type} (l p b c t : list A) :
  (l ++ p) ++ b ++ c ++ t = l ++ (p ++ b ++ c) ++ t.
Proof. rewrite <- !app_assoc. reflexivity. Qed.

(** X12: the positive side of the editor's indexing.  With a combo that
    reports a change only with the index of one of its items, a shader
    with at least one source, and statics that were last loaded for another
    shader or for this one with as many code strings as it has sources and a
    selection among them, [editShader] runs to its end: it draws its window
    from [PushID], [Begin] to [End], [PopID], leaves the statics loaded for
    the shader with the selection in range, so that the next frame runs as
    well, and touches the inspector only by resetting the weak reference
    when the window was closed, after which the edit view draws nothing. *)
Theorem editShader_keeps_indices_in_bounds
    (env : Env) (shader : Shader) (w : World) :
  combo_picks_item env -> shaderSources shader <> [] ->
  edit_ready shader (edit w) ->
  exists (w' : World) (mid : list UICmd),
    editShader env shader w = Ok (tt, w') /\
    edit_wf shader (edit w') /\
    log w' = log w ++ CPushID (sh_addr shader) :: CBegin (sh_name shader)
                   :: mid ++ [CEnd; CPopID] /\
    insp w' = after_window (ui_window_open env (sh_name shader)) (insp w) /\
    spriteAtlasSelection w' = spriteAtlasSelection w /\
    (ui_window_open env (sh_name shader) = false ->
     forall (env' : Env) (r' : Renderer), gui_edit_view env' r' w' = Ok (tt, w')) /\
    (forall env' : Env, combo_picks_item env' ->
     exists w'' : World, editShader env' shader w' = Ok (tt, w'')).
Proof.
  intros Hcombo Hsrc Hready.
  destruct (editShader_runs env shader w Hcombo Hsrc Hready)
    as (e' & mid & E & Hwf).
  eexists _, mid. split; [exact E|].
  cbn [insp edit spriteAtlasSelection log].
  split; [exact Hwf|]. do 3 (split; [reflexivity|]). split.
  - intros Hclosed env' r'. rewrite Hclosed. unfold after_window.
    unfold gui_edit_view, bind, get_insp. cbn [insp shaderEdit set_shaderEdit].
    reflexivity.
  - intros env' Hcombo'.
    match goal with
    | |- exists w'', editShader env' shader ?W = _ =>
        destruct (editShader_runs env' shader W Hcombo' Hsrc) as (e2 & mid2 & E2 & _)
    end.
    + intros _. exact Hwf.
    + eexists. exact E2.
Qed.

Lemma editShader_keeps_indices_in_bounds_witness :
  exists (w' : World) (mid : list UICmd),
    editShader example_env example_shader editing_world = Ok (tt, w') /\
    edit_wf example_shader (edit w') /\
    log w' = log editing_world
             ++ CPushID (sh_addr example_shader)
                :: CBegin (sh_name example_shader) :: mid ++ [CEnd; CPopID] /\
    insp w' = after_window (ui_window_open example_env (sh_name example_shader))
                (insp editing_world) /\
    spriteAtlasSelection w' = spriteAtlasSelection editing_world /\
    (ui_window_open example_env (sh_name example_shader) = false ->
     forall (env' : Env) (r' : Renderer), gui_edit_view env' r' w' = Ok (tt, w')) /\
    (forall env' : Env, combo_picks_item env' ->
     exists w'' : World, editShader env' example_shader w' = Ok (tt, w'')).
Proof.
  apply (editShader_keeps_indices_in_bounds example_env example_shader
           editing_world).
  - intros path current items H. discriminate H.
  - discriminate.
  - intros H. discriminate H.
Defined.

(** X13: a shader without sources cannot be edited: when the statics are not
    already loaded for it, [editShader] clears [shaderCode], finds no source
    to add and reads [shaderCode[0]] of the empty vector, which is
    undefined. *)
Theorem editShader_needs_a_source (env : Env) (shader : Shader) (w : World) :
  shaderSources shader = [] ->
  shaderRef (edit w) <> Some (sh_addr shader) ->
  editShader env shader w = Fail UndefinedBehaviour.
Proof.
  intros Hsrc Href. unfold editShader, editShader_load.
  unfold bind at 1. unfold bind at 1. cbn [get_edit].
  destruct (shaderRef (edit w)) as [a|].
  - destruct (Z.eqb_spec a (sh_addr shader)); [congruence|].
    rewrite Hsrc. reflexivity.
  - rewrite Hsrc. reflexivity.
Qed.

Lemma editShader_needs_a_source_witness :
  editShader example_env bare_shader editing_world = Fail UndefinedBehaviour.
Proof.
  apply (editShader_needs_a_source example_env bare_shader editing_world).
  - reflexivity.
  - discriminate.
Defined.

(** X14: "Compile" builds what the editor holds.  With the statics loaded for
    the shader and the button pressed, the frame runs to its end and, when
    the plain source is shown, first stores the editor's text in the slot
    of the selected source and then builds the shader from all the slots,
    each with the type of its source; in the precompiled view (not switched
    in this frame) it stores nothing and builds from the sources as they
    were stored, not from the precompiled text on display. *)
Theorem compile_builds_the_stored_sources
    (env : Env) (shader : Shader) (w : World) :
  combo_picks_item env -> edit_wf shader (edit w) ->
  ui_button env ["Compile"%string; sh_name shader] = true ->
  let e := edit w in
  let sources := map fst (shaderSources shader) in
  let saved :=
    <[Z.to_nat (selectedShader e) := te_text (textEditor e)]> (shaderCode e) in
  (snd (ui_checkbox env "Show precompiled" (showPrecompiled e)) = false ->
   exists w' : World,
     editShader env shader w = Ok (tt, w') /\
     shaderCode (edit w') = saved /\
     In (CShaderBuild (sh_uid shader) (zip saved sources)) (log w')) /\
  (ui_checkbox env "Show precompiled" (showPrecompiled e) = (false, true) ->
   exists w' : World,
     editShader env shader w = Ok (tt, w') /\
     shaderCode (edit w') = shaderCode e /\
     In (CShaderBuild (sh_uid shader) (zip (shaderCode e) sources)) (log w')).
Proof.
  intros Hcombo Hwf Hcompile. cbv zeta.
  pose proof Hwf as (Href & _).
  rewrite (editShader_loaded env shader w Href).
  destruct (editShader_body_result env shader
              (logged [CPushID (sh_addr shader); CBegin (sh_name shader)] w)
              Hcombo Hwf)
    as (text & editor & before & after & _ & _ & _ & _ & _ & E & ->).
  cbv zeta in E. cbn [edit logged insp spriteAtlasSelection log] in E.
  rewrite Hcompile in E. split.
  - intros Hplain. rewrite Hplain in E. cbn [negb andb orb] in E.
    eexists. split; [exact E|]. cbn [edit shaderCode log].
    split; [reflexivity|].
    rewrite !in_app_iff. right. right. left. left. reflexivity.
  - intros Hpre. rewrite Hpre in E. cbn [fst snd negb andb orb] in E.
    rewrite andb_false_r in E. cbn [orb] in E.
    eexists. split; [exact E|]. cbn [edit shaderCode log].
    split; [reflexivity|].
    rewrite !in_app_iff. right. right. left. left. reflexivity.
Qed.

Lemma compile_builds_the_stored_sources_witness :
  exists w' : World,
    editShader compiling_env example_shader loaded_world = Ok (tt, w') /\
    shaderCode (edit w')
    = ["edited vertex code"%string; "unlit_frag.glsl"%string] /\
    In (CShaderBuild 1 [("edited vertex code"%string, Vertex);
                        ("unlit_frag.glsl"%string, Fragment)]) (log w').
Proof.
  apply (compile_builds_the_stored_sources compiling_env example_shader
           loaded_world).
  - intros path current items H. discriminate H.
  - unfold edit_wf. cbn. repeat split; (reflexivity || lia).
  - reflexivity.
  - reflexivity.
Defined.

(** X15: edits survive switching between the sources of a shader.  With the
    plain source shown, picking another source in the combo stores the
    editor's text in the slot of the source that was selected and loads the
    new slot; picking the first source again in a later frame stores what
    the editor then holds in the second slot and shows the text of the
    first slot as the editor held it before the first switch, writable. *)
Theorem edits_survive_switching_sources
    (env1 env2 : Env) (shader : Shader) (w : World) :
  combo_picks_item env1 -> combo_picks_item env2 ->
  edit_wf shader (edit w) ->
  let e := edit w in
  let s0 := selectedShader e in
  let s1 := snd (select_shader env1 (sh_name shader) s0 (active_shaders shader)) in
  fst (select_shader env1 (sh_name shader) s0 (active_shaders shader)) = true ->
  s1 <> s0 ->
  ui_checkbox env1 "Show precompiled" (showPrecompiled e) = (false, false) ->
  select_shader env2 (sh_name shader) s1 (active_shaders shader) = (true, s0) ->
  ui_checkbox env2 "Show precompiled" false = (false, false) ->
  exists (w1 w2 : World) (editor : TextEditor) (mid : list UICmd),
    editShader env1 shader w = Ok (tt, w1) /\
    editShader env2 shader w1 = Ok (tt, w2) /\
    selectedShader (edit w1) = s1 /\
    selectedShader (edit w2) = s0 /\
    shaderCode (edit w2) !! Z.to_nat s1 = Some (te_text (textEditor (edit w1))) /\
    shaderCode (edit w2) !! Z.to_nat s0 = Some (te_text (textEditor e)) /\
    log w2 = log w1 ++ mid ++ CEditorRender "##editor" editor :: [CEnd; CPopID] /\
    te_text editor = te_text (textEditor e) /\
    te_readOnly editor = false.
Proof.
  intros Hcombo1 Hcombo2 Hwf. cbv zeta. intros Hswitch Hne Hbox1 Hback Hbox2.
  pose proof Hwf as (Href & Hlen & Hsel).
  (* the first frame *)
  rewrite (editShader_loaded env1 shader w Href).
  destruct (editShader_body_result env1 shader
              (logged [CPushID (sh_addr shader); CBegin (sh_name shader)] w)
              Hcombo1 Hwf)
    as (text1 & editor1 & before1 & after1 & Htext1 & Hsel1 & Hlen1 & _ & _
        & E1 & ->).
  cbv zeta in *. cbn [edit logged insp spriteAtlasSelection log] in *.
  rewrite Hswitch, Hbox1 in *. cbn [fst snd negb andb orb] in *.
  rewrite orb_true_r in *. cbn [orb] in *.
  set (s0 := selectedShader (edit w)) in *.
  set (s1 := snd (select_shader env1 (sh_name shader) s0 (active_shaders shader)))
    in *.
  set (code1 := <[Z.to_nat s0 := te_text (textEditor (edit w))]>
                  (shaderCode (edit w))) in *.
  match type of E1 with _ = Ok (tt, ?W) => set (w1 := W) in * end.
  exists w1. rewrite E1.
  (* the second frame *)
  assert (Hwf1 : edit_wf shader (edit w1)).
  { unfold edit_wf, w1. cbn [edit shaderRef shaderCode selectedShader].
    split; [exact Href|]. split; [congruence | exact Hsel1]. }
  assert (Href1 : shaderRef (edit w1) = Some (sh_addr shader)) by exact Href.
  rewrite (editShader_loaded env2 shader w1 Href1).
  destruct (editShader_body_result env2 shader
              (logged [CPushID (sh_addr shader); CBegin (sh_name shader)] w1)
              Hcombo2 Hwf1)
    as (text2 & editor2 & before2 & after2 & Htext2 & Hsel2 & Hlen2 & Hed2 & Hro2
        & E2 & ->).
  cbv zeta in *.
  cbn [edit logged insp spriteAtlasSelection log w1 selectedShader
       showPrecompiled shaderCode textEditor te_text] in Htext2, Hsel2, Hlen2,
       Hed2, Hro2, E2.
  rewrite Hback, Hbox2 in *. cbn [fst snd negb andb orb] in *.
  rewrite orb_true_r in *. cbn [orb] in *.
  assert (Hs0 : (Z.to_nat s0 < length (shaderCode (edit w)))%nat) by lia.
  assert (Hne' : Z.to_nat s1 <> Z.to_nat s0) by lia.
  rewrite list_lookup_insert_ne in Htext2 by exact Hne'.
  unfold code1 in Htext2. rewrite list_lookup_insert_eq in Htext2 by exact Hs0.
  injection Htext2 as <-.
  eexists _, editor2, _. split; [reflexivity|]. split; [exact E2|].
  cbn [edit selectedShader shaderCode log textEditor te_text].
  split; [reflexivity|]. split; [reflexivity|].
  split; [apply list_lookup_insert_eq; rewrite Hlen1; lia|].
  split.
  { rewrite list_lookup_insert_ne by exact Hne'.
    apply list_lookup_insert_eq. exact Hs0. }
  split; [|split; [exact Hed2 | exact Hro2]].
  apply log_mid.
Qed.

Lemma choosing_env_picks_item (k : Z) : combo_picks_item (choosing_env k).
Proof.
  intros path current items. cbn [choosing_env ui_combo].
  destruct (Z.leb_spec 0 k) as [Hlo|Hlo],
           (Z.ltb_spec k (Z.of_nat (length items))) as [Hhi|Hhi];
    cbn [andb fst snd]; intros Hpick; (discriminate || lia).
Qed.

Lemma edits_survive_switching_sources_witness :
  exists (w1 w2 : World) (editor : TextEditor) (mid : list UICmd),
    editShader (choosing_env 1) example_shader loaded_world = Ok (tt, w1) /\
    editShader (choosing_env 0) example_shader w1 = Ok (tt, w2) /\
    selectedShader (edit w1) = 1 /\
    selectedShader (edit w2) = 0 /\
    shaderCode (edit w2) !! 1%nat = Some (te_text (textEditor (edit w1))) /\
    shaderCode (edit w2) !! 0%nat = Some "edited vertex code"%string /\
    log w2 = log w1 ++ mid ++ CEditorRender "##editor" editor :: [CEnd; CPopID] /\
    te_text editor = "edited vertex code"%string /\
    te_readOnly editor = false.
Proof.
  apply (edits_survive_switching_sources (choosing_env 1) (choosing_env 0)
           example_shader loaded_world).
  - apply choosing_env_picks_item.
  - apply choosing_env_picks_item.
  - unfold edit_wf. cbn. repeat split; (reflexivity || lia).
  - reflexivity.
  - vm_compute. discriminate.
  - reflexivity.
  - reflexivity.
  - reflexivity.
Defined.

(** X16: the first block of [editShader] never sets the editor's read-only
    flag.  When the edit view is switched to another shader, the statics are
    loaded for it with "Show precompiled" off and the text of its first
    source, but the editor keeps the flag it had: after a precompiled view
    of the shader before, the new shader's source is shown read-only until
    the user switches the source or the view. *)
Theorem editor_keeps_read_only_across_shaders
    (env : Env) (shader : Shader) (w : World)
    (src : ShaderType * string) (rest : list (ShaderType * string)) :
  combo_picks_item env ->
  shaderRef (edit w) <> Some (sh_addr shader) ->
  shaderSources shader = src :: rest ->
  fst (select_shader env (sh_name shader) 0 (active_shaders shader)) = false ->
  ui_checkbox env "Show precompiled" false = (false, false) ->
  exists (w' : World) (editor : TextEditor) (mid : list UICmd),
    editShader env shader w = Ok (tt, w') /\
    shaderRef (edit w') = Some (sh_addr shader) /\
    showPrecompiled (edit w') = false /\
    log w' = log w ++ mid ++ CEditorRender "##editor" editor :: [CEnd; CPopID] /\
    te_text editor = env_getSource env (snd src) /\
    te_readOnly editor = te_readOnly (textEditor (edit w)) /\
    te_readOnly (textEditor (edit w')) = te_readOnly (textEditor (edit w)).
Proof.
  intros Hcombo Href Hsrc Hsame Hbox.
  rewrite (editShader_loads env shader w src rest Href Hsrc).
  match goal with
  | |- exists w' editor mid, editShader_body env shader ?W = _ /\ _ =>
      set (w0 := W)
  end.
  assert (Hwf : edit_wf shader (edit w0)).
  { unfold edit_wf, w0. cbn [edit shaderRef shaderCode selectedShader].
    rewrite Hsrc, length_map. cbn [length]. repeat split; lia. }
  destruct (editShader_body_result env shader w0 Hcombo Hwf)
    as (text & editor & before & after & _ & _ & _ & Hed & Hro & E & ->).
  cbv zeta in *.
  cbn [edit insp spriteAtlasSelection log w0 selectedShader showPrecompiled
       shaderCode shaderRef textEditor te_text te_readOnly] in Hed, Hro, E.
  rewrite Hsame, Hbox in *. cbn [fst snd negb andb orb] in *.
  eexists _, editor, _. split; [exact E|].
  cbn [edit shaderRef showPrecompiled log textEditor te_readOnly].
  split; [reflexivity|]. split; [reflexivity|].
  split; [apply log_mid|].
  split; [exact Hed|]. split; exact Hro.
Qed.

Lemma editor_keeps_read_only_across_shaders_witness :
  exists (w' : World) (editor : TextEditor) (mid : list UICmd),
    editShader example_env example_shader precompiled_world = Ok (tt, w') /\
    shaderRef (edit w') = Some (sh_addr example_shader) /\
    showPrecompiled (edit w') = false /\
    log w' = log precompiled_world
             ++ mid ++ CEditorRender "##editor" editor :: [CEnd; CPopID] /\
    te_text editor = "unlit_vert.glsl"%string /\
    te_readOnly editor = true /\
    te_readOnly (textEditor (edit w')) = true.
Proof.
  apply (editor_keeps_read_only_across_shaders example_env example_shader
           precompiled_world (Vertex, "unlit_vert.glsl"%string)
           [(Fragment, "unlit_frag.glsl"%string)]).
  - intros path current items H. discriminate H.
  - discriminate.
  - reflexivity.
  - reflexivity.
  - reflexivity.
Defined.

(** ** The selection of a sprite atlas *)

(** X17: the sprite selection is kept per atlas, under the atlas's address.
    The combo is given the names as one zero-separated string, so it offers
    the names up to the first empty one (all of them if none is empty).
    Where the combo picks one of its items, the sprite names hold no zero
    character, the sprite rectangles fit and the stored selection is -1 or
    an index of the names, an open atlas node runs to its end, leaves the
    inspector and the editor alone and stores the index it ends with (the
    picked one, else the stored one, else -1 for an atlas not seen before)
    for this atlas only; the next frame reads it back.  With -1 the node
    shows its combo and nothing else. *)
Theorem sprite_selection_is_kept_per_atlas
    (env : Env) (a : SpriteAtlas) (w : World) :
  combo_picks_item env -> atlas_fits a ->
  selection_valid a (spriteAtlasSelection w) ->
  ui_tree env [node_label (atlasName a) (atlas_addr a)] = true ->
  let label := node_label (atlasName a) (atlas_addr a) in
  let names := map fst (atlas_sprites a) in
  let items := combo_items (zero_separated names) in
  let current :=
    default (-1) (selection_find (atlas_addr a) (spriteAtlasSelection w)) in
  let picked := ui_combo env ["Sprite names"%string; label] current items in
  let index := if fst picked then snd picked else current in
  items = names_shown names /\
  ((forall name, In name names -> name <> EmptyString) -> items = names) /\
  exists w' : World,
    showSpriteAtlas env a w = Ok (tt, w') /\
    insp w' = insp w /\ edit w' = edit w /\
    selection_find (atlas_addr a) (spriteAtlasSelection w') = Some index /\
    (forall other : Z, other <> atlas_addr a ->
       selection_find other (spriteAtlasSelection w')
       = selection_find other (spriteAtlasSelection w)) /\
    selection_valid a (spriteAtlasSelection w') /\
    (index = -1 ->
     log w' = log w ++ [CTreeNode label; CCombo "Sprite names" current items;
                        CTreePop]).
Proof.
  intros Hcombo Hfits Hsel Hopen. cbv zeta.
  split; [apply atlas_combo_items, Hfits|].
  split.
  { intros Hnames. rewrite (atlas_combo_items a Hfits).
    apply names_shown_all, Hnames. }
  destruct (showSpriteAtlas_runs env a w Hcombo Hfits Hsel)
    as (l & E & Hindex & Hnone).
  cbv zeta in E, Hindex, Hnone. rewrite Hopen in E.
  eexists. split; [exact E|]. cbn [insp edit spriteAtlasSelection log].
  split; [reflexivity|]. split; [reflexivity|].
  split; [apply selection_find_set_eq|].
  split; [intros other Hother; apply selection_find_set_ne, Hother|].
  split.
  - intros i Hi. rewrite selection_find_set_eq in Hi. injection Hi as <-.
    exact Hindex.
  - intros Hminus. rewrite (Hnone Hopen Hminus). reflexivity.
Qed.

Lemma sprite_selection_is_kept_per_atlas_witness :
  combo_items (zero_separated ["idle"%string; "run"%string])
  = names_shown ["idle"%string; "run"%string] /\
  ((forall name, In name ["idle"%string; "run"%string] -> name <> EmptyString) ->
   combo_items (zero_separated ["idle"%string; "run"%string])
   = ["idle"%string; "run"%string]) /\
  exists w' : World,
    showSpriteAtlas (choosing_env 1) example_atlas (World_init example_inspector)
    = Ok (tt, w') /\
    insp w' = example_inspector /\ edit w' = EditStatics_init /\
    selection_find (atlas_addr example_atlas) (spriteAtlasSelection w') = Some 1 /\
    (forall other : Z, other <> atlas_addr example_atlas ->
       selection_find other (spriteAtlasSelection w') = None) /\
    selection_valid example_atlas (spriteAtlasSelection w') /\
    (1 = -1 ->
     log w' = [CTreeNode (node_label "atlas" 6060);
               CCombo "Sprite names" (-1) ["idle"%string; "run"%string];
               CTreePop]).
Proof.
  apply (sprite_selection_is_kept_per_atlas (choosing_env 1) example_atlas
           (World_init example_inspector)).
  - apply choosing_env_picks_item.
  - unfold atlas_fits, example_atlas. cbn [atlas_sprites]. split.
    + repeat (constructor; [reflexivity|]). constructor.
    + repeat (constructor; [split; vm_compute; split; discriminate|]).
      constructor.
  - intros i H. discriminate H.
  - reflexivity.
Defined.

(** X18: the stored selection is trusted.  The map of selections is keyed by
    the atlas's address and never cleared, and the index found there is used
    as it is: if it is neither -1 nor an index of the atlas's names (an
    atlas with fewer sprites at the address of an earlier one) and the combo
    reports no change, an open node reads [getNames()] out of range. *)
Theorem stale_sprite_selection_is_out_of_range
    (env : Env) (a : SpriteAtlas) (w : World) (i : Z) :
  ui_tree env [node_label (atlasName a) (atlas_addr a)] = true ->
  selection_find (atlas_addr a) (spriteAtlasSelection w) = Some i ->
  i <> -1 -> ~ (0 <= i < Z.of_nat (length (atlas_sprites a))) ->
  fst (ui_combo env ["Sprite names"%string;
                     node_label (atlasName a) (atlas_addr a)]
                i (combo_items (zero_separated (map fst (atlas_sprites a)))))
  = false ->
  showSpriteAtlas env a w = Fail UndefinedBehaviour.
Proof.
  intros Hopen Hfind Hsome Hout Hsame. unfold showSpriteAtlas. cbv zeta.
  unfold bind at 1. cbn [TreeNode bind emit ret]. rewrite Hopen. cbn [when].
  unfold bind at 1. cbn [get_selection spriteAtlasSelection].
  unfold bind at 1. cbn [emit insp edit spriteAtlasSelection log].
  rewrite Hfind. cbn [default from_option id].
  destruct (ui_combo env _ i _) as [updated chosen].
  cbn [fst] in Hsame. subst updated.
  unfold bind at 1. cbn [put_selection insp edit spriteAtlasSelection log].
  destruct (Z.eqb_spec i (-1)) as [|_]; [contradiction|]. cbn [negb when].
  assert (Hget : vget (map fst (atlas_sprites a)) i = Fail UndefinedBehaviour).
  { unfold vget. destruct (Z.leb_spec 0 i) as [Hpos|Hneg]; [|reflexivity].
    rewrite lookup_ge_None_2; [reflexivity|]. rewrite length_map. lia. }
  unfold bind at 1. unfold bind at 1. rewrite Hget. reflexivity.
Qed.

Lemma stale_sprite_selection_is_out_of_range_witness :
  showSpriteAtlas example_env example_atlas
    (mkWorld example_inspector EditStatics_init [(6060, 5)] [])
  = Fail UndefinedBehaviour.
Proof.
  apply (stale_sprite_selection_is_out_of_range example_env example_atlas
           (mkWorld example_inspector EditStatics_init [(6060, 5)] []) 5).
  - reflexivity.
  - reflexivity.
  - discriminate.
  - cbn. lia.
  - reflexivity.
Defined.

(** ** The previews *)

Lemma F32_sub_self (x : float32) : finite32 x -> F32.sub x x = F32.zero.
Proof.
  destruct x as [s|s| |s m e]; intros Hx; try contradiction.
  - destruct s; reflexivity.
  - unfold F32.sub, SFsub. rewrite Z.min_id.
    unfold shl_align. rewrite (Z.sub_diag e). cbn [fst].
    rewrite Z.sub_diag. reflexivity.
Qed.

(** X19: the auto-fit of the mesh preview divides by the largest extent of
    the bounding box without looking at it.  For a mesh whose bounding box
    is a single point (its minimum equals its maximum, in numbers), every
    extent is +0, the largest is +0, and the scale [2.0f/maxS] on the three
    axes of the model matrix is +infinity. *)
Theorem point_mesh_is_scaled_by_infinity (t : float32) (mesh : Mesh) :
  mesh_boundsMax mesh = mesh_boundsMin mesh ->
  finite32 (v3x (mesh_boundsMin mesh)) ->
  finite32 (v3y (mesh_boundsMin mesh)) ->
  finite32 (v3z (mesh_boundsMin mesh)) ->
  preview_extent mesh = mkVec3 F32.zero F32.zero F32.zero /\
  preview_maxS mesh = F32.zero /\
  preview_scale mesh = S754_infinity false /\
  preview_model t mesh
  = [EulerAngleY (F32.mul t rotationSpeed);
     Scale (mkVec3 (S754_infinity false) (S754_infinity false)
                   (S754_infinity false));
     Translate (preview_offset mesh)].
Proof.
  intros Hpoint Hx Hy Hz.
  assert (Hext : preview_extent mesh = mkVec3 F32.zero F32.zero F32.zero).
  { unfold preview_extent, vec3_sub. rewrite Hpoint.
    rewrite !F32_sub_self by assumption. reflexivity. }
  assert (Hmax : preview_maxS mesh = F32.zero).
  { unfold preview_maxS. rewrite Hext. reflexivity. }
  assert (Hscale : preview_scale mesh = S754_infinity false).
  { unfold preview_scale. rewrite Hmax. reflexivity. }
  split; [exact Hext|]. split; [exact Hmax|]. split; [exact Hscale|].
  unfold preview_model. rewrite Hscale. reflexivity.
Qed.

Lemma point_mesh_is_scaled_by_infinity_witness :
  preview_extent point_mesh = mkVec3 F32.zero F32.zero F32.zero /\
  preview_maxS point_mesh = F32.zero /\
  preview_scale point_mesh = S754_infinity false /\
  preview_model F32.one point_mesh
  = [EulerAngleY (F32.mul F32.one rotationSpeed);
     Scale (mkVec3 (S754_infinity false) (S754_infinity false)
                   (S754_infinity false));
     Translate (preview_offset point_mesh)].
Proof.
  apply (point_mesh_is_scaled_by_infinity F32.one point_mesh).
  - reflexivity.
  - vm_compute. exact I.
  - vm_compute. exact I.
  - vm_compute. exact I.
Defined.

(** One texture node: it cannot fail, touches nothing but the log, and
    draws the image of the texture exactly when the node is open and the
    texture is no cubemap. *)
Lemma showTexture_run (env : Env) (tex : Texture) (w : World) :
  exists l : list UICmd,
    showTexture env tex w = Ok (tt, logged l w) /\
    List.filter is_image l
    = if texture_shown env tex
      then [CImage tex (previewSize (insp w)) (previewSize (insp w))
              uv_flip0 uv_flip1]
      else [].
Proof.
  unfold showTexture, texture_shown, logged. cbv zeta.
  unfold bind at 1. cbn [TreeNode bind emit ret].
  destruct (ui_tree env _); cbn [when andb].
  2:{ exists [CTreeNode (node_label (tex_name tex) (tex_addr (tex_attrs tex)))].
      split; reflexivity. }
  destruct (tex_cubemap (tex_attrs tex));
    cbv [LabelText bind emit preview_image get_insp ret when negb
         insp edit spriteAtlasSelection log];
    rewrite <- !app_assoc;
    (eexists; split; [reflexivity|]); reflexivity.
Qed.

Lemma forM_showTexture (env : Env) (texs : list Texture) : forall w : World,
  exists l : list UICmd,
    forM texs (showTexture env) w = Ok (tt, logged l w) /\
    List.filter is_image l
    = map (fun tex => CImage tex (previewSize (insp w)) (previewSize (insp w))
                        uv_flip0 uv_flip1)
          (List.filter (texture_shown env) texs).
Proof.
  induction texs as [|tex texs IH]; intros w; cbn [forM].
  - exists []. unfold ret, logged. rewrite app_nil_r. destruct w.
    split; reflexivity.
  - destruct (showTexture_run env tex w) as (l1 & E1 & H1).
    destruct (IH (logged l1 w)) as (l2 & E2 & H2).
    exists (l1 ++ l2). unfold bind. rewrite E1, E2. split.
    + unfold logged. cbn [insp edit spriteAtlasSelection log].
      rewrite <- app_assoc. reflexivity.
    + rewrite List.filter_app, H1, H2. cbn [List.filter insp logged].
      destruct (texture_shown env tex); reflexivity.
Qed.

(** X20: the "Textures" panel cannot fail and touches nothing but the log,
    whatever the registry holds.  The images it draws are those of the
    textures of the registry whose node is open and that are no cubemaps,
    one each, in the order of the registry, at the preview size and
    flipped: a cubemap is never handed to [ImGui::Image].  With the header
    closed the panel is the header alone. *)
Theorem texture_panel_shows_no_cubemap (env : Env) (r : Renderer) (w : World) :
  exists l : list UICmd,
    gui_textures env r w
    = Ok (tt, logged (CCollapsingHeader "Textures" :: l) w) /\
    (if ui_header env "Textures"
     then List.filter is_image l
          = map (fun tex => CImage tex (previewSize (insp w))
                              (previewSize (insp w)) uv_flip0 uv_flip1)
                (List.filter (texture_shown env) (textures r))
     else l = []).
Proof.
  unfold gui_textures. unfold bind at 1.
  cbn [CollapsingHeader bind emit ret].
  destruct (ui_header env "Textures"); cbn [when].
  2:{ exists []. split; reflexivity. }
  match goal with
  | |- exists l, bind _ _ ?W = _ /\ _ =>
      destruct (forM_showTexture env (textures r) W) as (l1 & E1 & H1)
  end.
  cbn [insp] in H1.
  destruct (textures r) as [|tex texs] eqn:Etex; cbn [is_empty when].
  - exists (l1 ++ [CLabelText EmptyString (plain "No textures")]).
    unfold bind. rewrite E1. unfold LabelText, emit, logged.
    cbn [insp edit spriteAtlasSelection log]. split.
    + rewrite <- !app_assoc. reflexivity.
    + rewrite List.filter_app, H1. reflexivity.
  - exists l1. unfold bind. rewrite E1. unfold ret, logged.
    cbn [insp edit spriteAtlasSelection log]. split.
    + rewrite <- !app_assoc. reflexivity.
    + exact H1.
Qed.

Lemma vget_In {A : Type} (v : list A) (i : Z) (a : A) :
  vget v i = Ok a -> In a v.
Proof.
  unfold vget. destruct (0 <=? i); [|discriminate].
  destruct (v !! Z.to_nat i) as [b|] eqn:E; [|discriminate].
  intros [= <-]. apply list_elem_of_In. eapply list_elem_of_lookup_2, E.
Qed.

Lemma getTmpTexture_result (env : Env) (s s' : Inspector) (t : Texture) :
  getTmpTexture env s = Ok (t, s') ->
  In t (offscreenTextures s') /\ time s' = time s /\
  previewSize s' = previewSize s /\ framebuffer s' = framebuffer s /\
  worldLights s' = worldLights s.
Proof.
  unfold getTmpTexture. intros H.
  destruct (_ <? _).
  - destruct (CInt.add (usedTextures s) 1) as [u|]; [|discriminate].
    cbn [rbind] in H.
    destruct (vget _ _) as [t'|] eqn:Ev; [|discriminate]. cbn [rbind] in H.
    injection H as <- <-. split; [exact (vget_In _ _ _ Ev)|].
    repeat split.
  - cbn [usedTextures set_offscreenTextures] in H.
    destruct (CInt.add (usedTextures s) 1) as [u|]; [|discriminate].
    cbn [rbind] in H. injection H as <- <-.
    split; [cbn; apply in_or_app; right; left; reflexivity|].
    repeat split.
Qed.

Lemma initFramebuffer_result (env : Env) (s s' : Inspector) :
  initFramebuffer env s = Ok s' ->
  time s' = time s /\ previewSize s' = previewSize s.
Proof.
  unfold initFramebuffer. destruct (framebuffer s).
  - intros [= <-]. split; reflexivity.
  - destruct (getTmpTexture env s) as [[t s1]|] eqn:E; [|discriminate].
    apply getTmpTexture_result in E as (_ & Ht & Hp & _).
    cbn [rbind]. intros [= <-]. cbn. split; assumption.
Qed.

Lemma getTmpTexture_fit (env : Env) (k : nat) (s : Inspector) :
  previews_fit (S k) s ->
  exists (t : Texture) (s' : Inspector),
    getTmpTexture env s = Ok (t, s') /\ previews_fit k s'.
Proof.
  intros [Hlo Hhi].
  destruct (getTmpTexture_defined env s ltac:(lia)) as (t & s' & E).
  exists t, s'. split; [exact E|].
  apply getTmpTexture_shape in E as (pool & -> & _).
  unfold previews_fit. cbn -[Z.add Z.of_nat]. lia.
Qed.

Lemma initFramebuffer_fit (env : Env) (k : nat) (s : Inspector) :
  previews_fit (S k) s ->
  exists s' : Inspector,
    initFramebuffer env s = Ok s' /\ previews_fit (S k) s' /\
    framebuffer s' <> None.
Proof.
  intros Hfit. unfold initFramebuffer.
  destruct (framebuffer s) as [fb|] eqn:Efb.
  - exists s. split; [reflexivity|]. split; [exact Hfit|].
    rewrite Efb. discriminate.
  - destruct (getTmpTexture_fit env k s Hfit) as (t & s1 & E & _).
    rewrite E. cbn [rbind]. eexists. split; [reflexivity|].
    destruct Hfit as [Hlo Hhi]. unfold previews_fit.
    cbn -[Z.add Z.of_nat F32.literal vec3_of_ints].
    split; [lia | discriminate].
Qed.

(** What a preview does once its rows are listed: it makes sure of the
    framebuffer, takes a scratch texture, attaches it, draws into it and
    shows it. *)
Lemma preview_run (env : Env) (k : nat)
    (draw : RenderPass -> Inspector -> M unit)
    (cmd : RenderPass -> Inspector -> UICmd) (w : World) :
  (forall pass i, draw pass i = emit (cmd pass i)) ->
  previews_fit (S k) (insp w) ->
  exists (t : Texture) (s : Inspector) (pass : RenderPass),
    (on_insp (fun i => let* i' := initFramebuffer env i in Ok (tt, i')) >>
     let! offscreenTexture := on_insp (getTmpTexture env) in
     on_insp (framebuffer_setTexture offscreenTexture) >>
     let! i := get_insp in
     let! renderToTexturePass := liftR (preview_pass i) in
     draw renderToTexturePass i >>
     preview_image offscreenTexture >>
     emit CTreePop) w
    = Ok (tt, mkWorld s (edit w) (spriteAtlasSelection w)
                (log w ++ [cmd pass s;
                           CImage t (previewSize (insp w)) (previewSize (insp w))
                             uv_flip0 uv_flip1;
                           CTreePop])) /\
    time s = time (insp w) /\
    previews_fit k s /\
    In t (offscreenTextures s) /\
    framebuffer s = Some (rp_framebuffer pass) /\
    fbo_texture (rp_framebuffer pass) = Some t /\
    rp_camera pass = preview_camera /\
    rp_worldLights pass = worldLights s /\
    rp_clearColor pass = (true, (0, 0, 0, 1)) /\
    rp_gui pass = false.
Proof.
  intros Hdraw Hfit.
  destruct (initFramebuffer_fit env k _ Hfit) as (s1 & E1 & Hfit1 & Hfb1).
  destruct (initFramebuffer_result _ _ _ E1) as [Ht1 Hp1].
  destruct (getTmpTexture_fit env k s1 Hfit1) as (t & s2 & E2 & Hfit2).
  destruct (getTmpTexture_result _ _ _ _ E2) as (Hin & Ht2 & Hp2 & Hfb2 & Hl2).
  destruct (framebuffer s2) as [fb|] eqn:Efb; [|congruence].
  exists t, (set_framebuffer (Some (mkFramebuffer (fbo_name fb) (Some t)))
               (worldLights s2) s2),
    (mkRenderPass preview_camera (worldLights s2)
       (mkFramebuffer (fbo_name fb) (Some t)) (true, (0, 0, 0, 1)) false).
  split.
  { unfold bind at 1. rewrite on_insp_run, E1. cbn [rbind].
    unfold bind at 1. rewrite on_insp_run. cbn [insp]. rewrite E2.
    unfold bind at 1. rewrite on_insp_run. cbn [insp].
    unfold framebuffer_setTexture. rewrite Efb.
    unfold bind at 1. unfold get_insp. cbn [insp].
    unfold bind at 1. unfold liftR, preview_pass.
    cbn [framebuffer set_framebuffer worldLights].
    rewrite Hdraw.
    unfold preview_image, get_insp, bind, emit.
    cbn [insp edit spriteAtlasSelection log previewSize set_framebuffer].
    rewrite Hp2, Hp1, <- !app_assoc. reflexivity. }
  cbn [time set_framebuffer offscreenTextures framebuffer rp_framebuffer
       fbo_texture rp_camera rp_worldLights rp_clearColor rp_gui worldLights].
  split; [congruence|]. split; [exact Hfit2|].
  repeat (split; [first [exact Hin | reflexivity]|]). reflexivity.
Qed.

(** The rows above a preview leave the counters of the pool, the clock and
    the preview size alone. *)
Lemma bind_rows {A : Type} (P : Inspector -> Prop) (m : M A)
    (k : A -> M unit) (w : World) (cmd : RenderPass -> UICmd) :
  keeps P m -> P (insp w) ->
  (forall s, P s -> previewSize s = previewSize (insp w)) ->
  (forall a w', P (insp w') -> previewSize (insp w') = previewSize (insp w) ->
     shows_preview w' cmd (k a w')) ->
  shows_preview w cmd (bind m k w).
Proof.
  intros Hm Hw Hsize Hk.
  destruct (Hm w Hw) as (a & l & s1 & E & H1).
  unfold bind. rewrite E.
  destruct (Hk a (mkWorld s1 (edit w) (spriteAtlasSelection w) (log w ++ l))
              H1 (Hsize _ H1))
    as (s' & rows & t & pass & E' & Hrest).
  exists s', (l ++ rows), t, pass. split; [|exact Hrest].
  rewrite E'. cbn [edit spriteAtlasSelection log insp].
  rewrite (Hsize _ H1), <- !app_assoc. reflexivity.
Qed.

Lemma TreeNode_run (env : Env) (path : list string) (label : string) (w : World) :
  TreeNode env path label w
  = Ok (ui_tree env (label :: path), logged [CTreeNode label] w).
Proof. reflexivity. Qed.

Lemma shows_preview_logged (l : list UICmd) (w : World)
    (cmd : RenderPass -> UICmd) (r : result (unit * World)) :
  shows_preview (logged l w) cmd r -> shows_preview w cmd r.
Proof.
  intros (s' & rows & t & pass & -> & Hrest).
  exists s', (l ++ rows), t, pass. split; [|exact Hrest].
  unfold logged. cbn [edit spriteAtlasSelection log insp].
  rewrite <- !app_assoc. reflexivity.
Qed.

(** The frame of the rows: the pool has room for one more texture, and the
    clock and the preview size are those of [w]. *)
Lemma preview_frame_size (k : nat) (w : World) (s : Inspector) :
  preview_frame k w s -> previewSize s = previewSize (insp w).
Proof. intros (_ & _ & H). exact H. Qed.

Lemma preview_frame_refl (k : nat) (w : World) :
  previews_fit k (insp w) -> preview_frame k w (insp w).
Proof. intros H. split; [exact H | split; reflexivity]. Qed.

Lemma rows_then {A : Type} (k : nat) (w : World) (m : M A) (K : A -> M unit)
    (cmd : RenderPass -> UICmd) (w0 : World) :
  keeps (preview_frame k w) m ->
  preview_frame k w (insp w0) ->
  (forall a w1, preview_frame k w (insp w1) -> shows_preview w1 cmd (K a w1)) ->
  shows_preview w0 cmd (bind m K w0).
Proof.
  intros Hm H0 HK. apply (bind_rows (preview_frame k w)).
  - exact Hm.
  - exact H0.
  - intros s Hs.
    rewrite (preview_frame_size _ _ _ Hs), (preview_frame_size _ _ _ H0).
    reflexivity.
  - intros a w' H' _. apply HK, H'.
Qed.

Lemma preview_shown (env : Env) (k : nat) (w w1 : World)
    (draw : RenderPass -> Inspector -> M unit)
    (cmd' : RenderPass -> Inspector -> UICmd) (cmd : RenderPass -> UICmd) :
  (forall pass i, draw pass i = emit (cmd' pass i)) ->
  (forall pass s, time s = time (insp w) -> cmd' pass s = cmd pass) ->
  preview_frame (S k) w (insp w1) ->
  shows_preview w1 cmd
    ((on_insp (fun i => let* i' := initFramebuffer env i in Ok (tt, i')) >>
      let! offscreenTexture := on_insp (getTmpTexture env) in
      on_insp (framebuffer_setTexture offscreenTexture) >>
      let! i := get_insp in
      let! renderToTexturePass := liftR (preview_pass i) in
      draw renderToTexturePass i >>
      preview_image offscreenTexture >>
      emit CTreePop) w1).
Proof.
  intros Hdraw Hcmd (Hfit & Htime & Hsize).
  destruct (preview_run env k draw cmd' w1 Hdraw Hfit)
    as (t & s & pass & E & Ht & _ & Hrest).
  exists s, [], t, pass. split; [|exact Hrest].
  rewrite E, (Hcmd pass s) by congruence. reflexivity.
Qed.

Lemma keeps_open_editor_frame (k : nat) (w : World) (shader : Shader) :
  keeps (preview_frame k w) (open_editor shader).
Proof.
  unfold open_editor. eapply runs_from_bind; [apply runs_from_get_insp|].
  intros i. apply runs_from_put_insp. intros s [-> H]. exact H.
Qed.

(** An opened mesh node ends with its preview. *)
Lemma showMesh_preview (env : Env) (mesh : Mesh) (w : World) :
  previews_fit 1 (insp w) ->
  ui_tree env [node_label (mesh_name mesh) (mesh_addr mesh)] = true ->
  shows_preview w
    (fun pass =>
       CDraw pass (RegistryMesh mesh) (preview_model (time (insp w)) mesh)
         (preview_materials mesh
            (if 0 <? mesh_normals mesh then StandardMaterial else UnlitMaterial)))
    (showMesh env mesh w).
Proof.
  intros Hfit Hopen. unfold showMesh. cbv zeta.
  unfold bind at 1. rewrite TreeNode_run, Hopen. cbn [when].
  apply (shows_preview_logged
           [CTreeNode (node_label (mesh_name mesh) (mesh_addr mesh))]).
  assert (Hw : preview_frame 1 w
                 (insp (logged [CTreeNode (node_label (mesh_name mesh) (mesh_addr mesh))] w)))
    by exact (preview_frame_refl 1 w Hfit).
  revert Hw.
  generalize (logged [CTreeNode (node_label (mesh_name mesh) (mesh_addr mesh))] w).
  intros w0 H0.
  do 2 (apply (rows_then 1 w); [apply keeps_emit | exact H0 |];
        clear w0 H0; intros _ w0 H0).
  apply (rows_then 1 w); [|exact H0|]; clear w0 H0.
  { apply keeps_bind; [apply keeps_TreeNode|]. intros attrs.
    apply keeps_when, keeps_bind; [apply keeps_labels | intros ?; apply keeps_emit]. }
  intros _ w0 H0.
  apply (rows_then 1 w); [|exact H0|]; clear w0 H0.
  { apply keeps_bind; [apply keeps_TreeNode|]. intros sets.
    apply keeps_when, keeps_bind; [|intros ?; apply keeps_emit].
    destruct (getIndexSets mesh =? 0); [apply keeps_emit | apply keeps_index_sets]. }
  intros _ w0 H0.
  apply (preview_shown env 0 w w0
           (fun pass i =>
              RenderPass_draw pass mesh (preview_model (time i) mesh)
                (preview_materials mesh
                   (if 0 <? mesh_normals mesh
                    then StandardMaterial else UnlitMaterial)))
           (fun pass i =>
              CDraw pass (RegistryMesh mesh) (preview_model (time i) mesh)
                (preview_materials mesh
                   (if 0 <? mesh_normals mesh
                    then StandardMaterial else UnlitMaterial)))).
  - intros pass i. apply preview_draw_is_issued.
  - intros pass s ->. reflexivity.
  - exact H0.
Qed.

(** A closed mesh node is its [TreeNode] alone. *)
Lemma showMesh_closed (env : Env) (mesh : Mesh) (w : World) :
  ui_tree env [node_label (mesh_name mesh) (mesh_addr mesh)] = false ->
  showMesh env mesh w
  = Ok (tt, logged [CTreeNode (node_label (mesh_name mesh) (mesh_addr mesh))] w).
Proof.
  intros Hclosed. unfold showMesh. cbv zeta.
  unfold bind at 1. rewrite TreeNode_run, Hclosed. reflexivity.
Qed.

(** The three calls by which a preview takes its texture are
    [preview_texture]. *)
Lemma preview_texture_run (env : Env) {A : Type} (rest : Texture -> M A)
    (w : World) :
  (on_insp (fun i => let* i' := initFramebuffer env i in Ok (tt, i')) >>
   let! offscreenTexture := on_insp (getTmpTexture env) in
   on_insp (framebuffer_setTexture offscreenTexture) >>
   rest offscreenTexture) w
  = (let! offscreenTexture := on_insp (preview_texture env) in
     rest offscreenTexture) w.
Proof.
  unfold bind at 1 4. rewrite !on_insp_run. unfold preview_texture.
  destruct (initFramebuffer env (insp w)) as [s1|]; [|reflexivity].
  cbn [rbind]. unfold bind at 1. rewrite on_insp_run. cbn [insp].
  destruct (getTmpTexture env s1) as [[t s2]|]; [|reflexivity].
  cbn [rbind]. unfold bind at 1. rewrite on_insp_run. cbn [insp].
  destruct (framebuffer_setTexture t s2) as [[[] s3]|]; reflexivity.
Qed.

(** C4 (as amended): for every mesh the preview draws the mesh with the
    model matrix rotation times a scale by
    [k = 2.0f / max(extent.x, extent.y, extent.z)] on all three axes times a
    translation by [-center], where [extent = max - min] and
    [center = (max + min) * 0.5f], all in [float] arithmetic.  When the
    largest extent is a power of two [2^e] in the normal range,
    [-126 <= e <= 127], [k] times half the largest extent is exactly 1; the
    box [min=(-2,-1,-1)], [max=(2,1,1)] has [k = 0.5].  Outside that it
    need not be 1: for the largest extent [2^-127] the quotient overflows,
    [k] is +infinity and so is the product, and for the largest extent 0
    [k] is +infinity and the product is not a number. *)
Theorem auto_fit_transform (t : float32) (mesh : Mesh) :
  (let extent := vec3_sub (mesh_boundsMax mesh) (mesh_boundsMin mesh) in
   let k := F32.div F32.two (F32.max3 (v3x extent) (v3y extent) (v3z extent)) in
   let center :=
     vec3_scale (vec3_add (mesh_boundsMax mesh) (mesh_boundsMin mesh)) F32.half in
   preview_scale mesh = k /\
   preview_model t mesh
   = [EulerAngleY (F32.mul t rotationSpeed); Scale (mkVec3 k k k);
      Translate (vec3_neg center)] /\
   forall (env : Env) (w : World),
     previews_fit 1 (insp w) ->
     ui_tree env [node_label (mesh_name mesh) (mesh_addr mesh)] = true ->
     shows_preview w
       (fun pass =>
          CDraw pass (RegistryMesh mesh)
            [EulerAngleY (F32.mul (time (insp w)) rotationSpeed);
             Scale (mkVec3 k k k); Translate (vec3_neg center)]
            (preview_materials mesh
               (if 0 <? mesh_normals mesh
                then StandardMaterial else UnlitMaterial)))
       (showMesh env mesh w)) /\
  (forall e : Z, -126 <= e <= 127 -> preview_maxS mesh = pow2 e ->
     fits_unit_cube mesh) /\
  preview_scale example_box = F32.half /\ fits_unit_cube example_box /\
  (preview_maxS mesh = S754_finite false 4194304 (-149) ->
   preview_scale mesh = S754_infinity false /\
   fitted_half_extent mesh = S754_infinity false) /\
  (preview_maxS mesh = F32.zero ->
   preview_scale mesh = S754_infinity false /\
   fitted_half_extent mesh = S754_nan).
Proof.
  split; [split; [reflexivity | split; [reflexivity|]]|].
  { intros env w Hfit Hopen. exact (showMesh_preview env mesh w Hfit Hopen). }
  split.
  { intros e He Hmax. unfold fits_unit_cube, fitted_half_extent, preview_scale.
    rewrite Hmax. apply pow2_fit_exact, He. }
  split; [vm_compute; reflexivity|]. split; [vm_compute; reflexivity|].
  split; intros Hmax; unfold fitted_half_extent, preview_scale; rewrite Hmax;
    split; vm_compute; reflexivity.
Qed.

Lemma auto_fit_transform_witness :
  preview_maxS example_box = pow2 2 /\ fits_unit_cube example_box.
Proof.
  split; [vm_compute; reflexivity|].
  apply (proj1 (proj2 (auto_fit_transform F32.zero example_box)) 2).
  - lia.
  - vm_compute; reflexivity.
Defined.

(** C5: for every mesh, the mesh preview of the inspector builds a
    materials list of length exactly [max(1, indexSetCount)], which passes
    the shape check of [draw]; so the draw of the preview is issued and
    [showMesh] never fails with a shape mismatch.  The draw that an opened
    mesh node issues carries this list, [max(1, indexSetCount)] times the
    standard material for a mesh with normals and the unlit one for a mesh
    without; a closed node draws nothing. *)
Theorem preview_materials_fit_mesh (env : Env) (mesh : Mesh) (mat : Material) :
  Z.of_nat (length (preview_materials mesh mat)) = Z.max 1 (getIndexSets mesh) /\
  draw_shape_ok (getIndexSets mesh) (preview_materials mesh mat) = true /\
  (forall (pass : RenderPass) (model : list Matrix) (w : World),
     RenderPass_draw pass mesh model (preview_materials mesh mat) w
     = emit (CDraw pass (RegistryMesh mesh) model (preview_materials mesh mat)) w) /\
  (forall w : World, showMesh env mesh w <> Fail ShapeMismatch) /\
  (forall w : World,
     previews_fit 1 (insp w) ->
     ui_tree env [node_label (mesh_name mesh) (mesh_addr mesh)] = true ->
     shows_preview w
       (fun pass =>
          CDraw pass (RegistryMesh mesh) (preview_model (time (insp w)) mesh)
            (replicate (Z.to_nat (Z.max 1 (getIndexSets mesh)))
               (if 0 <? mesh_normals mesh
                then StandardMaterial else UnlitMaterial)))
       (showMesh env mesh w)) /\
  (forall w : World,
     ui_tree env [node_label (mesh_name mesh) (mesh_addr mesh)] = false ->
     showMesh env mesh w
     = Ok (tt, logged [CTreeNode (node_label (mesh_name mesh) (mesh_addr mesh))]
                 w)).
Proof.
  split; [|split; [|split; [|split; [|split]]]].
  - rewrite preview_materials_replicate, length_replicate. lia.
  - apply preview_materials_shape.
  - intros pass model w. rewrite preview_draw_is_issued. reflexivity.
  - apply never_showMesh.
  - intros w Hfit Hopen.
    destruct (showMesh_preview env mesh w Hfit Hopen)
      as (s' & rows & t & pass & E & Hrest).
    exists s', rows, t, pass. split; [|exact Hrest].
    rewrite <- preview_materials_replicate. exact E.
  - intros w Hclosed. apply showMesh_closed, Hclosed.
Qed.

(** X21: an opened mesh node ends with the preview: the mesh is drawn once,
    with the auto-fit transform at the inspector's clock and one material
    per index set, by a pass with the preview camera, the inspector's
    lights, a clear to opaque black and no GUI, into a framebuffer whose
    texture is a scratch texture of the pool; the image shown next, at the
    preview size and flipped, is that texture; then the node is popped. *)
Theorem mesh_preview_shows_what_it_drew (env : Env) (mesh : Mesh) (w : World) :
  previews_fit 1 (insp w) ->
  ui_tree env [node_label (mesh_name mesh) (mesh_addr mesh)] = true ->
  shows_preview w
    (fun pass =>
       CDraw pass (RegistryMesh mesh) (preview_model (time (insp w)) mesh)
         (preview_materials mesh
            (if 0 <? mesh_normals mesh then StandardMaterial else UnlitMaterial)))
    (showMesh env mesh w).
Proof. exact (showMesh_preview env mesh w). Qed.

Lemma mesh_preview_shows_what_it_drew_witness :
  shows_preview (World_init example_inspector)
    (fun pass =>
       CDraw pass (RegistryMesh example_box)
         (preview_model (time (insp (World_init example_inspector))) example_box)
         (preview_materials example_box
            (if 0 <? mesh_normals example_box
             then StandardMaterial else UnlitMaterial)))
    (showMesh example_env example_box (World_init example_inspector)).
Proof.
  apply (mesh_preview_shows_what_it_drew example_env example_box
           (World_init example_inspector)).
  - split; vm_compute; discriminate.
  - reflexivity.
Defined.

(** X22: an opened shader node ends with the preview, whether or not its
    "Edit" button was pressed: the static sphere is drawn once, turned by
    the inspector's clock, with a material of this shader, by the pass the
    previews build, into a scratch texture of the pool; the image shown
    next is that texture; then the node is popped. *)
Theorem shader_preview_shows_what_it_drew (env : Env) (shader : Shader)
    (w : World) :
  previews_fit 1 (insp w) ->
  ui_tree env [node_label (sh_name shader) (sh_addr shader)] = true ->
  shows_preview w
    (fun pass =>
       CDraw pass SphereMesh
         [EulerAngleY (F32.mul (time (insp w)) rotationSpeed)]
         [ShaderMaterial (sh_uid shader)])
    (showShader env shader w).
Proof.
  intros Hfit Hopen. unfold showShader. cbv zeta.
  unfold bind at 1. rewrite TreeNode_run, Hopen. cbn [when].
  apply (shows_preview_logged
           [CTreeNode (node_label (sh_name shader) (sh_addr shader))]).
  assert (Hw : preview_frame 1 w
                 (insp (logged [CTreeNode (node_label (sh_name shader) (sh_addr shader))] w)))
    by exact (preview_frame_refl 1 w Hfit).
  revert Hw.
  generalize (logged [CTreeNode (node_label (sh_name shader) (sh_addr shader))] w).
  intros w0 H0.
  apply (rows_then 1 w); [|exact H0|]; clear w0 H0.
  { unfold Button. apply keeps_bind; [keeps_all|]. intros pressed.
    apply keeps_when, keeps_open_editor_frame. }
  intros _ w0 H0.
  apply (rows_then 1 w); [|exact H0|]; clear w0 H0.
  { apply keeps_bind; [apply keeps_TreeNode|]. intros attrs.
    apply keeps_when, keeps_bind; [apply keeps_labels | intros ?; apply keeps_emit]. }
  intros _ w0 H0.
  apply (rows_then 1 w); [|exact H0|]; clear w0 H0.
  { apply keeps_bind; [apply keeps_TreeNode|]. intros unis.
    apply keeps_when, keeps_bind; [apply keeps_labels | intros ?; apply keeps_emit]. }
  intros _ w0 H0.
  do 4 (apply (rows_then 1 w); [apply keeps_emit | exact H0 |];
        clear w0 H0; intros _ w0 H0).
  apply (preview_shown env 0 w w0
           (fun pass i =>
              RenderPass_draw_sphere pass
                [EulerAngleY (F32.mul (time i) rotationSpeed)]
                (ShaderMaterial (sh_uid shader)))
           (fun pass i =>
              CDraw pass SphereMesh
                [EulerAngleY (F32.mul (time i) rotationSpeed)]
                [ShaderMaterial (sh_uid shader)])).
  - intros pass i. reflexivity.
  - intros pass s ->. reflexivity.
  - exact H0.
Qed.

Lemma shader_preview_shows_what_it_drew_witness :
  shows_preview (World_init example_inspector)
    (fun pass =>
       CDraw pass SphereMesh
         [EulerAngleY
            (F32.mul (time (insp (World_init example_inspector))) rotationSpeed)]
         [ShaderMaterial (sh_uid example_shader)])
    (showShader example_env example_shader (World_init example_inspector)).
Proof.
  apply (shader_preview_shows_what_it_drew example_env example_shader
           (World_init example_inspector)).
  - split; vm_compute; discriminate.
  - reflexivity.
Defined.
